(** * Gaze analysis core (gazeAnalysis module): a shallow embedding

    The module analysed here turns raw gaze samples into fixations with the
    I-DT algorithm and derives per-AOI statistics from them.  Every function
    below is transcribed from the TypeScript source; the comment in front of
    a definition names the source function it embeds.

    JavaScript numbers are kept behind the interface [JSNumber], so that the
    same transcription runs on IEEE-754 binary64 (instance [ieee], on the
    kernel's primitive floats) and on exact rationals (instance [exact]).
    Properties that only depend on the control flow are proved for every
    instance.  Properties that depend on the order of the numbers are proved
    on binary64, from the specification of the primitive floats, for values
    that are not NaN, and on the exact instance; properties that depend on
    other arithmetic laws are proved on the exact instance. *)

From Stdlib Require Import QArith Qcanon Qround Lqa Sorted.
From Stdlib Require Import Floats.PrimFloat Uint63.
From Stdlib Require Import Floats.SpecFloat Floats.FloatOps Floats.FloatAxioms.
From stdpp Require Import gmap strings list fin_maps numbers.
From stdpp Require sorting pretty.

Set Default Proof Using "Type".

(** ** Numbers *)

(** The operations on [number] the module uses.  [jlt] and [jle] are the
    results of [<] and [<=]; [a > b] and [a >= b] are [b < a] and [b <= a].
    [jnat] converts an array length or a counter. *)
Class JSNumber (num : Type) := {
  jnat : nat -> num;
  jadd : num -> num -> num;
  jsub : num -> num -> num;
  jmul : num -> num -> num;
  jdiv : num -> num -> num;
  jsqrt : num -> num;
  jlt : num -> num -> bool;
  jle : num -> num -> bool
}.

Declare Scope js_scope.
Delimit Scope js_scope with js.
Infix "+" := jadd : js_scope.
Infix "-" := jsub : js_scope.
Infix "*" := jmul : js_scope.
Infix "/" := jdiv : js_scope.
Notation "a < b" := (jlt a b) : js_scope.
Notation "a <= b" := (jle a b) : js_scope.
Notation "a > b" := (jlt b a) (only parsing) : js_scope.
Notation "a >= b" := (jle b a) (only parsing) : js_scope.

(** IEEE-754 binary64, the numbers the program runs on. *)
#[export] Instance ieee : JSNumber float := {|
  jnat n := PrimFloat.of_uint63 (Uint63.of_Z (Z.of_nat n));
  jadd := PrimFloat.add;
  jsub := PrimFloat.sub;
  jmul := PrimFloat.mul;
  jdiv := PrimFloat.div;
  jsqrt := PrimFloat.sqrt;
  jlt := PrimFloat.ltb;
  jle := PrimFloat.leb
|}.

(** Exact rational arithmetic: no rounding, no NaN, no infinities.  The
    rationals have no square root function, so the instance takes one as a
    parameter; every theorem on this instance holds whatever it is. *)
Definition exact (sq : Qc -> Qc) : JSNumber Qc := {|
  jnat n := Qc_of_Z (Z.of_nat n);
  jadd := Qcplus;
  jsub := Qcminus;
  jmul := Qcmult;
  jdiv := Qcdiv;
  jsqrt := sq;
  jlt a b := bool_decide (a < b)%Qc;
  jle a b := bool_decide (a <= b)%Qc
|}.

(** ** Data model *)

Module GazePoint.
Record t (num : Type) := mk {
    timestamp : num;
    frameNumber : num;
    x : num;
    y : num;
    screenX : num;
    screenY : num
  }.
Arguments mk {num}.
Arguments timestamp {num}.
Arguments frameNumber {num}.
Arguments x {num}.
Arguments y {num}.
Arguments screenX {num}.
Arguments screenY {num}.
End GazePoint.

Module Fixation.
Record t (num : Type) := mk {
    id : nat;
    startTime : num;
    endTime : num;
    duration : num;
    x : num;
    y : num;
    pointCount : nat;
    points : list (GazePoint.t num)
  }.
Arguments mk {num}.
Arguments id {num}.
Arguments startTime {num}.
Arguments endTime {num}.
Arguments duration {num}.
Arguments x {num}.
Arguments y {num}.
Arguments pointCount {num}.
Arguments points {num}.
End Fixation.

Module Bounds.
Record t (num : Type) := mk {
    x : num;
    y : num;
    width : num;
    height : num
  }.
Arguments mk {num}.
Arguments x {num}.
Arguments y {num}.
Arguments width {num}.
Arguments height {num}.
End Bounds.

Module AOI.
Record t (num : Type) := mk {
    id : string;
    name : string;
    color : string;
    bounds : Bounds.t num
  }.
Arguments mk {num}.
Arguments id {num}.
Arguments name {num}.
Arguments color {num}.
Arguments bounds {num}.
End AOI.

Module DwellTimeStats.
Record t (num : Type) := mk {
    aoiId : string;
    aoiName : string;
    totalDwellTime : num;
    fixationCount : nat;
    meanFixationDuration : num;
    percentOfTotal : num
  }.
Arguments mk {num}.
Arguments aoiId {num}.
Arguments aoiName {num}.
Arguments totalDwellTime {num}.
Arguments fixationCount {num}.
Arguments meanFixationDuration {num}.
Arguments percentOfTotal {num}.
End DwellTimeStats.

Module ScanpathMetrics.
Record t (num : Type) := mk {
    totalLength : num;
    fixationCount : nat;
    totalDuration : num;
    meanFixationDuration : num;
    meanSaccadeAmplitude : num;
    aoiSequence : list string;
    aoiTransitionMatrix : gmap string (gmap string nat)
  }.
Arguments mk {num}.
Arguments totalLength {num}.
Arguments fixationCount {num}.
Arguments totalDuration {num}.
Arguments meanFixationDuration {num}.
Arguments meanSaccadeAmplitude {num}.
Arguments aoiSequence {num}.
Arguments aoiTransitionMatrix {num}.
End ScanpathMetrics.

Module FirstFixationMetrics.
Record t (num : Type) := mk {
    aoiId : string;
    aoiName : string;
    timeToFirstFixation : option num;
    firstFixationDuration : option num;
    firstFixationX : option num;
    firstFixationY : option num;
    entryCount : nat
  }.
Arguments mk {num}.
Arguments aoiId {num}.
Arguments aoiName {num}.
Arguments timeToFirstFixation {num}.
Arguments firstFixationDuration {num}.
Arguments firstFixationX {num}.
Arguments firstFixationY {num}.
Arguments entryCount {num}.
End FirstFixationMetrics.

Module Parameters.
Record t (num : Type) := mk {
    dispersionThreshold : num;
    minFixationDuration : num
  }.
Arguments mk {num}.
Arguments dispersionThreshold {num}.
Arguments minFixationDuration {num}.
End Parameters.

Module AnalysisResult.
Record t (num : Type) := mk {
    fixations : list (Fixation.t num);
    dwellTimeStats : list (DwellTimeStats.t num);
    scanpathMetrics : ScanpathMetrics.t num;
    firstFixationMetrics : list (FirstFixationMetrics.t num);
    parameters : Parameters.t num
  }.
Arguments mk {num}.
Arguments fixations {num}.
Arguments dwellTimeStats {num}.
Arguments scanpathMetrics {num}.
Arguments firstFixationMetrics {num}.
Arguments parameters {num}.
End AnalysisResult.

(** The optional fields of the [options] argument of [analyzeGazeData]. *)
Module Options.
Record t (num : Type) := mk {
    dispersionThreshold : option num;
    minFixationDuration : option num;
    videoStartTime : option num
  }.
Arguments mk {num}.
Arguments dispersionThreshold {num}.
Arguments minFixationDuration {num}.
Arguments videoStartTime {num}.
End Options.

(** ** Completions

    How a call ends.  [Throw TypeError] is what the runtime raises when a
    field is read from [undefined] (an array read out of range followed by
    [.timestamp]).  The three other kinds are the error taxonomy the
    specification asks for; no statement of the module raises them.
    [OutOfFuel] marks a loop cut off by the recursion bound of the model; the
    theorems show it is never the outcome. *)
Inductive ErrorKind := TypeError | InvalidAOI | InvalidGazeData | InvalidParameters.

Inductive completion (A : Type) :=
  | Normal (a : A)
  | Throw (e : ErrorKind)
  | OutOfFuel.
Arguments Normal {A}.
Arguments Throw {A}.
Arguments OutOfFuel {A}.

#[export] Instance completion_bind : MBind completion := fun A B k c =>
  match c with
  | Normal a => k a
  | Throw e => Throw e
  | OutOfFuel => OutOfFuel
  end.

(** [arr[i]] followed by a field read. *)
Definition index {A} (arr : list A) (i : nat) : completion A :=
  match arr !! i with
  | Some a => Normal a
  | None => Throw TypeError
  end.

(** [arr.slice(from, to)] for [0 <= from], [0 <= to]. *)
Definition slice {A} (arr : list A) (from to : nat) : list A :=
  take (to - from) (drop from arr).

(** [arr.sort(compareFn)] (the sorted contents).  The sort is stable; an
    element moves behind another only when [compareFn] of the two is [> 0],
    and a NaN result counts as [+0], as the language standard prescribes.
    For a comparator that is not a consistent ordering the standard leaves
    the order to the engine; this is the order an insertion sort gives. *)
Section Sort.
Context {num} `{JSNumber num} {A : Type} (compareFn : A -> A -> num).

Fixpoint sort_insert (a : A) (sorted : list A) : list A :=
  match sorted with
  | [] => [a]
  | b :: rest =>
      if (compareFn a b > jnat 0)%js then b :: sort_insert a rest
      else a :: b :: rest
  end.

Fixpoint sort (arr : list A) : list A :=
  match arr with
  | [] => []
  | a :: rest => sort_insert a (sort rest)
  end.
End Sort.

(** ** The analysis functions *)

Section Analysis.
Context {num : Type} `{JSNumber num}.

Local Open Scope js_scope.
Local Notation "0" := (jnat 0) : js_scope.

(** Module constants [DEFAULT_DISPERSION_THRESHOLD = 0.03] and
    [DEFAULT_MIN_FIXATION_DURATION = 100].  The literal [0.03] denotes the
    correctly rounded quotient of 3 by 100. *)
Definition DEFAULT_DISPERSION_THRESHOLD : num := jnat 3 / jnat 100.
Definition DEFAULT_MIN_FIXATION_DURATION : num := jnat 100.

(** *** Fixation detection (I-DT) *)

(** The inner loop of [calculateDispersion]: [p] is [points[i]] and [rest]
    the elements [points[j]], [j > i]. *)
Fixpoint dispersion_against (p : GazePoint.t num) (rest : list (GazePoint.t num))
    (maxDist : num) : num :=
  match rest with
  | [] => maxDist
  | q :: rest' =>
      let dx := GazePoint.x p - GazePoint.x q in
      let dy := GazePoint.y p - GazePoint.y q in
      let dist := jsqrt (dx * dx + dy * dy) in
      dispersion_against p rest' (if dist > maxDist then dist else maxDist)
  end.

(** The outer loop of [calculateDispersion]. *)
Fixpoint dispersion_pairs (points : list (GazePoint.t num)) (maxDist : num) : num :=
  match points with
  | [] => maxDist
  | p :: rest => dispersion_pairs rest (dispersion_against p rest maxDist)
  end.

(** [calculateDispersion] *)
Definition calculateDispersion (points : list (GazePoint.t num)) : num :=
  if (length points <? 2)%nat then 0 else dispersion_pairs points 0.

(** [calculateCentroid] *)
Definition calculateCentroid (points : list (GazePoint.t num)) : num * num :=
  if (length points =? 0)%nat then (0, 0)
  else
    let sumX := fold_left (fun sum p => sum + GazePoint.x p) points 0 in
    let sumY := fold_left (fun sum p => sum + GazePoint.y p) points 0 in
    (sumX / jnat (length points), sumY / jnat (length points)).

Section IDT.
Variables (sortedPoints : list (GazePoint.t num))
          (dispersionThreshold minDuration : num).

(** The loop that finds the initial window,
    [while (windowEnd < sortedPoints.length && (...) * 1000 < minDuration) windowEnd++],
    returning the final [windowEnd]. *)
Fixpoint initial_window (fuel windowStart windowEnd : nat) : completion nat :=
  match fuel with
  | O => OutOfFuel
  | S fuel' =>
      if (windowEnd <? length sortedPoints)%nat then
        pe ← index sortedPoints windowEnd;
        ps ← index sortedPoints windowStart;
        if (GazePoint.timestamp pe - GazePoint.timestamp ps) * jnat 1000 < minDuration
        then initial_window fuel' windowStart (S windowEnd)
        else Normal windowEnd
      else Normal windowEnd
  end.

(** The loop that expands a candidate window,
    [while (windowEnd + 1 < sortedPoints.length) { ... }], on the
    variables [windowEnd], [windowPoints] and [dispersion]. *)
Fixpoint expand_window (fuel windowStart windowEnd : nat)
    (windowPoints : list (GazePoint.t num)) (dispersion : num)
    : completion (nat * list (GazePoint.t num) * num) :=
  match fuel with
  | O => OutOfFuel
  | S fuel' =>
      if (windowEnd + 1 <? length sortedPoints)%nat then
        let testPoints := slice sortedPoints windowStart (windowEnd + 2) in
        let testDispersion := calculateDispersion testPoints in
        if testDispersion <= dispersionThreshold
        then expand_window fuel' windowStart (S windowEnd) testPoints testDispersion
        else Normal (windowEnd, windowPoints, dispersion)
      else Normal (windowEnd, windowPoints, dispersion)
  end.

(** The main loop [while (windowStart < sortedPoints.length) { ... }] on
    the variables [windowStart], [fixationId] and [fixations];
    [fixations.push(v)] appends [v]. *)
Fixpoint idt_loop (fuel windowStart fixationId : nat)
    (fixations : list (Fixation.t num)) : completion (list (Fixation.t num)) :=
  match fuel with
  | O => OutOfFuel
  | S fuel' =>
      if (windowStart <? length sortedPoints)%nat then
        windowEnd ← initial_window (S (length sortedPoints)) windowStart windowStart;
        if (length sortedPoints <=? windowEnd)%nat then Normal fixations
        else
          let windowPoints := slice sortedPoints windowStart (windowEnd + 1) in
          let dispersion := calculateDispersion windowPoints in
          if dispersion <= dispersionThreshold then
            '(windowEnd, windowPoints, dispersion) ←
              expand_window (S (length sortedPoints)) windowStart windowEnd
                            windowPoints dispersion;
            let centroid := calculateCentroid windowPoints in
            first ← index windowPoints 0;
            last ← index windowPoints (length windowPoints - 1);
            let startTime := GazePoint.timestamp first in
            let endTime := GazePoint.timestamp last in
            let duration := (endTime - startTime) * jnat 1000 in
            if duration >= minDuration then
              idt_loop fuel' (windowEnd + 1) (S fixationId)
                (fixations ++ [Fixation.mk fixationId startTime endTime duration
                                 (fst centroid) (snd centroid)
                                 (length windowPoints) windowPoints])
            else idt_loop fuel' (windowEnd + 1) fixationId fixations
          else idt_loop fuel' (S windowStart) fixationId fixations
      else Normal fixations
  end.
End IDT.

(** [sortedPoints]: [[...gazePoints].sort((a, b) => a.timestamp - b.timestamp)] *)
Definition sort_by_timestamp (gazePoints : list (GazePoint.t num)) : list (GazePoint.t num) :=
  sort (fun a b => GazePoint.timestamp a - GazePoint.timestamp b) gazePoints.

(** [detectFixationsIDT] *)
Definition detectFixationsIDT (gazePoints : list (GazePoint.t num))
    (dispersionThreshold minDuration : num) : completion (list (Fixation.t num)) :=
  if (length gazePoints <? 2)%nat then Normal []
  else
    let sortedPoints := sort_by_timestamp gazePoints in
    idt_loop sortedPoints dispersionThreshold minDuration
             (S (length sortedPoints)) 0 1 [].

(** *** AOI analysis *)

(** [isPointInAOI] *)
Definition isPointInAOI (x y : num) (aoi : AOI.t num) : bool :=
  let b := AOI.bounds aoi in
  (x >= Bounds.x b) && (x <= Bounds.x b + Bounds.width b) &&
  (y >= Bounds.y b) && (y <= Bounds.y b + Bounds.height b).

(** [findAOIForFixation]; [None] is [null]. *)
Fixpoint findAOIForFixation (fixation : Fixation.t num) (aois : list (AOI.t num))
    : option (AOI.t num) :=
  match aois with
  | [] => None
  | aoi :: rest =>
      if isPointInAOI (Fixation.x fixation) (Fixation.y fixation) aoi then Some aoi
      else findAOIForFixation fixation rest
  end.

(** [fs.reduce((sum, f) => sum + f.duration, 0)] *)
Definition sum_durations (fs : list (Fixation.t num)) : num :=
  fold_left (fun sum f => sum + Fixation.duration f) fs 0.

(** *** Dwell time *)

(** [calculateDwellTime] *)
Definition calculateDwellTime (fixations : list (Fixation.t num))
    (aois : list (AOI.t num)) : list (DwellTimeStats.t num) :=
  let totalViewingTime := sum_durations fixations in
  let stats :=
    map (fun aoi =>
      let aoiFixations :=
        List.filter (fun f => isPointInAOI (Fixation.x f) (Fixation.y f) aoi) fixations in
      let totalDwellTime := sum_durations aoiFixations in
      let fixationCount := length aoiFixations in
      DwellTimeStats.mk (AOI.id aoi) (AOI.name aoi) totalDwellTime fixationCount
        (if (0 <? fixationCount)%nat then totalDwellTime / jnat fixationCount else 0)
        (if totalViewingTime > 0 then (totalDwellTime / totalViewingTime) * jnat 100 else 0))
      aois in
  let outsideFixations :=
    List.filter (fun f =>
      negb (existsb (fun aoi => isPointInAOI (Fixation.x f) (Fixation.y f) aoi) aois))
      fixations in
  let outsideDwellTime := sum_durations outsideFixations in
  stats ++
  [DwellTimeStats.mk "__outside__" "Outside AOIs" outsideDwellTime (length outsideFixations)
     (if (0 <? length outsideFixations)%nat
      then outsideDwellTime / jnat (length outsideFixations) else 0)
     (if totalViewingTime > 0 then (outsideDwellTime / totalViewingTime) * jnat 100 else 0)].

(** *** Scanpath *)

(** [distance] *)
Definition distance (x1 y1 x2 y2 : num) : num :=
  let dx := x2 - x1 in
  let dy := y2 - y1 in
  jsqrt (dx * dx + dy * dy).

(** [sortedFixations]: [[...fixations].sort((a, b) => a.startTime - b.startTime)] *)
Definition sort_by_start (fixations : list (Fixation.t num)) : list (Fixation.t num) :=
  sort (fun a b => Fixation.startTime a - Fixation.startTime b) fixations.

(** The path-length loop of [calculateScanpathMetrics],
    [for (let i = 1; i < sortedFixations.length; i++)], with [prev] the
    element at [i - 1] and [rest] the elements from [i] on. *)
Fixpoint saccade_loop (prev : Fixation.t num) (rest : list (Fixation.t num))
    (totalLength : num) (saccadeAmplitudes : list num) : num * list num :=
  match rest with
  | [] => (totalLength, saccadeAmplitudes)
  | curr :: rest' =>
      let dist := distance (Fixation.x prev) (Fixation.y prev)
                           (Fixation.x curr) (Fixation.y curr) in
      saccade_loop curr rest' (totalLength + dist) (saccadeAmplitudes ++ [dist])
  end.

(** [aoi ? aoi.name : '__outside__'] for the AOI of a fixation. *)
Definition scanpath_label (fixation : Fixation.t num) (aois : list (AOI.t num)) : string :=
  match findAOIForFixation fixation aois with
  | Some aoi => AOI.name aoi
  | None => "__outside__"
  end.

(** The AOI-sequence loop of [calculateScanpathMetrics]; [lastAOI] is
    [None] for [null]. *)
Fixpoint sequence_loop (aois : list (AOI.t num)) (fixations : list (Fixation.t num))
    (aoiSequence : list string) (lastAOI : option string) : list string :=
  match fixations with
  | [] => aoiSequence
  | fixation :: rest =>
      let aoiName := scanpath_label fixation aois in
      if bool_decide (Some aoiName <> lastAOI)
      then sequence_loop aois rest (aoiSequence ++ [aoiName]) (Some aoiName)
      else sequence_loop aois rest aoiSequence lastAOI
  end.

(** One pass through the body of the transition loop: create the row of
    [prevName] if the matrix has none, then
    [row.set(currName, (row.get(currName) || 0) + 1)] on that row. *)
Definition count_transition (transitionMatrix : gmap string (gmap string nat))
    (prevName currName : string) : gmap string (gmap string nat) :=
  let transitionMatrix :=
    if bool_decide (is_Some (transitionMatrix !! prevName)) then transitionMatrix
    else <[prevName := ∅]> transitionMatrix in
  let row := default ∅ (transitionMatrix !! prevName) in
  <[prevName := <[currName := (default 0 (row !! currName) + 1)%nat]> row]> transitionMatrix.

(** The transition loop of [calculateScanpathMetrics], on the same indices
    as [saccade_loop]. *)
Fixpoint transition_loop (aois : list (AOI.t num)) (prev : Fixation.t num)
    (rest : list (Fixation.t num)) (transitionMatrix : gmap string (gmap string nat))
    : gmap string (gmap string nat) :=
  match rest with
  | [] => transitionMatrix
  | curr :: rest' =>
      let prevName := scanpath_label prev aois in
      let currName := scanpath_label curr aois in
      transition_loop aois curr rest' (count_transition transitionMatrix prevName currName)
  end.

(** The part of [calculateScanpathMetrics] that follows the sort, on the
    sorted array. *)
Definition scanpath_of_sorted (sortedFixations : list (Fixation.t num))
    (aois : list (AOI.t num)) : ScanpathMetrics.t num :=
  let '(totalLength, saccadeAmplitudes) :=
    match sortedFixations with
    | [] => (0, [])
    | first :: rest => saccade_loop first rest 0 []
    end in
  let aoiSequence := sequence_loop aois sortedFixations [] None in
  let transitionMatrix :=
    match sortedFixations with
    | [] => ∅
    | first :: rest => transition_loop aois first rest ∅
    end in
  let totalDuration := sum_durations sortedFixations in
  let meanSaccadeAmplitude :=
    if (0 <? length saccadeAmplitudes)%nat
    then fold_left (fun sum a => sum + a) saccadeAmplitudes 0
         / jnat (length saccadeAmplitudes)
    else 0 in
  ScanpathMetrics.mk totalLength (length sortedFixations) totalDuration
    (totalDuration / jnat (length sortedFixations)) meanSaccadeAmplitude
    aoiSequence transitionMatrix.

(** The value [calculateScanpathMetrics] returns for no fixation. *)
Definition empty_scanpath : ScanpathMetrics.t num := ScanpathMetrics.mk 0 O 0 0 0 [] ∅.

(** [calculateScanpathMetrics] *)
Definition calculateScanpathMetrics (fixations : list (Fixation.t num))
    (aois : list (AOI.t num)) : ScanpathMetrics.t num :=
  if (length fixations =? 0)%nat then empty_scanpath
  else scanpath_of_sorted (sort_by_start fixations) aois.

(** *** First fixation *)

(** The entry-counting loop of [calculateFirstFixation]. *)
Fixpoint entry_loop (aoi : AOI.t num) (fixations : list (Fixation.t num))
    (entryCount : nat) (wasInAOI : bool) : nat :=
  match fixations with
  | [] => entryCount
  | fixation :: rest =>
      let isInAOI := isPointInAOI (Fixation.x fixation) (Fixation.y fixation) aoi in
      entry_loop aoi rest
        (if isInAOI && negb wasInAOI then S entryCount else entryCount) isInAOI
  end.

(** The part of [calculateFirstFixation] that follows the sort, on the
    sorted array. *)
Definition first_fixation_of_sorted (sortedFixations : list (Fixation.t num))
    (aois : list (AOI.t num)) (videoStartTime : num) : list (FirstFixationMetrics.t num) :=
  map (fun aoi =>
    let aoiFixations :=
      List.filter (fun f => isPointInAOI (Fixation.x f) (Fixation.y f) aoi)
                  sortedFixations in
    let firstFixation := head aoiFixations in
    let entryCount := entry_loop aoi sortedFixations O false in
    FirstFixationMetrics.mk (AOI.id aoi) (AOI.name aoi)
      (f ← firstFixation; Some ((Fixation.startTime f - videoStartTime) * jnat 1000))
      (f ← firstFixation; Some (Fixation.duration f))
      (f ← firstFixation; Some (Fixation.x f))
      (f ← firstFixation; Some (Fixation.y f))
      entryCount)
    aois.

(** [calculateFirstFixation] *)
Definition calculateFirstFixation (fixations : list (Fixation.t num))
    (aois : list (AOI.t num)) (videoStartTime : num) : list (FirstFixationMetrics.t num) :=
  first_fixation_of_sorted (sort_by_start fixations) aois videoStartTime.

(** *** Full analysis *)

(** [analyzeGazeData] *)
Definition analyzeGazeData (gazePoints : list (GazePoint.t num)) (aois : list (AOI.t num))
    (options : Options.t num) : completion (AnalysisResult.t num) :=
  let dispersionThreshold :=
    default DEFAULT_DISPERSION_THRESHOLD (Options.dispersionThreshold options) in
  let minFixationDuration :=
    default DEFAULT_MIN_FIXATION_DURATION (Options.minFixationDuration options) in
  let videoStartTime := default 0 (Options.videoStartTime options) in
  fixations ← detectFixationsIDT gazePoints dispersionThreshold minFixationDuration;
  let dwellTimeStats := calculateDwellTime fixations aois in
  let scanpathMetrics := calculateScanpathMetrics fixations aois in
  let firstFixationMetrics := calculateFirstFixation fixations aois videoStartTime in
  Normal (AnalysisResult.mk fixations dwellTimeStats scanpathMetrics firstFixationMetrics
            (Parameters.mk dispersionThreshold minFixationDuration)).

(** *** Export *)

(** The last cell, column [aoi], of the row [analysisToCSV] writes for a
    fixation: [aois.find(a => isPointInAOI(f.x, f.y, a))], then
    [aoi ? aoi.name : 'outside']. *)
Definition fixation_row_aoi (f : Fixation.t num) (aois : list (AOI.t num)) : string :=
  match List.find (fun a => isPointInAOI (Fixation.x f) (Fixation.y f) a) aois with
  | Some aoi => AOI.name aoi
  | None => "outside"
  end.

(** The [aoi] column of [fixationsCSV], one cell per row. *)
Definition fixations_csv_aoi_column (result : AnalysisResult.t num)
    (aois : list (AOI.t num)) : list string :=
  map (fun f => fixation_row_aoi f aois) (AnalysisResult.fixations result).

End Analysis.


(** ** Arrays as objects

    The functions above work on the contents of arrays.  The functions of
    this section follow what the module does to the array objects
    themselves: an argument is a reference to an array of the caller,
    [[...arr]] allocates a new array with the same elements, and
    [arr.sort(compareFn)] reorders the array it is called on, in place.
    Records are kept as values: no statement of the module assigns to a field
    of a gaze point, a fixation or an AOI. *)

Definition loc := positive.

Inductive array (num : Type) :=
  | GazeArray (elements : list (GazePoint.t num))
  | FixationArray (elements : list (Fixation.t num))
  | AOIArray (elements : list (AOI.t num)).
Arguments GazeArray {num}.
Arguments FixationArray {num}.
Arguments AOIArray {num}.

(** A computation on the heap: it ends in a completion and leaves a heap. *)
Definition Run (num A : Type) : Type :=
  gmap loc (array num) -> completion A * gmap loc (array num).

#[export] Instance run_bind {num} : MBind (Run num) := fun A B k c h =>
  match c h with
  | (Normal a, h') => k a h'
  | (Throw e, h') => (Throw e, h')
  | (OutOfFuel, h') => (OutOfFuel, h')
  end.

#[export] Instance run_ret {num} : MRet (Run num) := fun A a h => (Normal a, h).

Section Heap.
Context {num : Type} `{JSNumber num}.

Local Open Scope js_scope.

(** A pure step. *)
Definition lift {A} (c : completion A) : Run num A := fun h => (c, h).

(** A new array object. *)
Definition alloc (a : array num) : Run num loc := fun h =>
  let l := fresh (dom h) in (Normal l, <[l := a]> h).

Definition read (l : loc) : Run num (array num) := fun h =>
  match h !! l with
  | Some a => (Normal a, h)
  | None => (Throw TypeError, h)
  end.

Definition write (l : loc) (a : array num) : Run num unit := fun h =>
  (Normal tt, <[l := a]> h).

Definition read_gaze (l : loc) : Run num (list (GazePoint.t num)) :=
  a ← read l;
  match a with
  | GazeArray elements => mret elements
  | _ => lift (Throw TypeError)
  end.

Definition read_fixations (l : loc) : Run num (list (Fixation.t num)) :=
  a ← read l;
  match a with
  | FixationArray elements => mret elements
  | _ => lift (Throw TypeError)
  end.

Definition read_aois (l : loc) : Run num (list (AOI.t num)) :=
  a ← read l;
  match a with
  | AOIArray elements => mret elements
  | _ => lift (Throw TypeError)
  end.

(** [[...arr]] *)
Definition spread (l : loc) : Run num loc :=
  a ← read l; alloc a.

(** [arr.sort((a, b) => a.timestamp - b.timestamp)], on the array at [l]. *)
Definition sort_gaze_in_place (l : loc) : Run num unit :=
  elements ← read_gaze l;
  write l (GazeArray (sort_by_timestamp elements)).

(** [arr.sort((a, b) => a.startTime - b.startTime)], on the array at [l]. *)
Definition sort_fixations_in_place (l : loc) : Run num unit :=
  elements ← read_fixations l;
  write l (FixationArray (sort_by_start elements)).

(** [detectFixationsIDT], returning the reference of the array [fixations];
    its pushes are written to the array when the loop ends. *)
Definition detectFixationsIDT_run (gazePoints : loc) (dispersionThreshold minDuration : num)
    : Run num loc :=
  elements ← read_gaze gazePoints;
  if (length elements <? 2)%nat then alloc (FixationArray [])
  else
    fixations ← alloc (FixationArray []);
    sortedPoints ← spread gazePoints;
    _ ← sort_gaze_in_place sortedPoints;
    sorted ← read_gaze sortedPoints;
    pushed ← lift (idt_loop sorted dispersionThreshold minDuration
                            (S (length sorted)) 0 1 []);
    _ ← write fixations (FixationArray pushed);
    mret fixations.

(** [calculateDwellTime]: [map], [filter], [reduce] and [some] read their
    arrays. *)
Definition calculateDwellTime_run (fixations aois : loc)
    : Run num (list (DwellTimeStats.t num)) :=
  fs ← read_fixations fixations;
  rects ← read_aois aois;
  mret (calculateDwellTime fs rects).

(** [calculateScanpathMetrics] *)
Definition calculateScanpathMetrics_run (fixations aois : loc)
    : Run num (ScanpathMetrics.t num) :=
  fs ← read_fixations fixations;
  if (length fs =? 0)%nat then mret empty_scanpath
  else
    sortedFixations ← spread fixations;
    _ ← sort_fixations_in_place sortedFixations;
    sorted ← read_fixations sortedFixations;
    rects ← read_aois aois;
    mret (scanpath_of_sorted sorted rects).

(** [calculateFirstFixation] *)
Definition calculateFirstFixation_run (fixations aois : loc) (videoStartTime : num)
    : Run num (list (FirstFixationMetrics.t num)) :=
  sortedFixations ← spread fixations;
  _ ← sort_fixations_in_place sortedFixations;
  sorted ← read_fixations sortedFixations;
  rects ← read_aois aois;
  mret (first_fixation_of_sorted sorted rects videoStartTime).

(** [analyzeGazeData]; the field [fixations] of the result is the array
    [detectFixationsIDT] returned, given here with its elements. *)
Definition analyzeGazeData_run (gazePoints aois : loc) (options : Options.t num)
    : Run num (AnalysisResult.t num) :=
  let dispersionThreshold :=
    default DEFAULT_DISPERSION_THRESHOLD (Options.dispersionThreshold options) in
  let minFixationDuration :=
    default DEFAULT_MIN_FIXATION_DURATION (Options.minFixationDuration options) in
  let videoStartTime := default (jnat 0) (Options.videoStartTime options) in
  fixations ← detectFixationsIDT_run gazePoints dispersionThreshold minFixationDuration;
  dwellTimeStats ← calculateDwellTime_run fixations aois;
  scanpathMetrics ← calculateScanpathMetrics_run fixations aois;
  firstFixationMetrics ← calculateFirstFixation_run fixations aois videoStartTime;
  fs ← read_fixations fixations;
  mret (AnalysisResult.mk fs dwellTimeStats scanpathMetrics firstFixationMetrics
          (Parameters.mk dispersionThreshold minFixationDuration)).

End Heap.
(** ** Predicates used in the statements *)

Section Windows.
Context {num : Type} `{JSNumber num}.
Variables (sortedPoints : list (GazePoint.t num)) (dispersionThreshold minDuration : num).

Local Open Scope js_scope.

(** [f] is the fixation recorded for the window [windowStart .. windowEnd]
    of the sorted points. *)
Record window_fixation (f : Fixation.t num) (windowStart windowEnd : nat) : Prop := {
  wf_bounds : (windowStart <= windowEnd < length sortedPoints)%nat;
  wf_points : Fixation.points f = slice sortedPoints windowStart (windowEnd + 1);
  wf_count : Fixation.pointCount f = (windowEnd + 1 - windowStart)%nat;
  wf_start : GazePoint.timestamp <$> sortedPoints !! windowStart = Some (Fixation.startTime f);
  wf_end : GazePoint.timestamp <$> sortedPoints !! windowEnd = Some (Fixation.endTime f);
  wf_duration : Fixation.duration f
                = (Fixation.endTime f - Fixation.startTime f) * jnat 1000;
  wf_centroid : (Fixation.x f, Fixation.y f) = calculateCentroid (Fixation.points f);
  wf_long : (Fixation.duration f >= minDuration) = true;
  wf_tight : (calculateDispersion (Fixation.points f) <= dispersionThreshold) = true
}.

(** The fixations are recorded for windows that follow one another, without
    overlap, below index [bound]. *)
Inductive windows_below : list (Fixation.t num) -> nat -> Prop :=
  | windows_nil bound : windows_below [] bound
  | windows_snoc fs f windowStart windowEnd bound :
      windows_below fs windowStart ->
      window_fixation f windowStart windowEnd ->
      (windowEnd < bound)%nat ->
      windows_below (fs ++ [f]) bound.

End Windows.


Section DwellTimeTotals.
Context {num : Type} `{JSNumber num}.


(** The AOIs of the list that contain the centroid of the fixation. *)
Definition matching_aois (f : Fixation.t num) (aois : list (AOI.t num)) : list (AOI.t num) :=
  List.filter (fun aoi => isPointInAOI (Fixation.x f) (Fixation.y f) aoi) aois.

End DwellTimeTotals.

(** The sum of a list of rationals. *)
Definition qsum (l : list Qc) : Qc := fold_right Qcplus 0%Qc l.

(** ** Reading a transition matrix *)

(** The sum of the counts of a row, and of all rows of a matrix. *)
Definition row_total (row : gmap string nat) : nat :=
  map_fold (fun _ n acc => (n + acc)%nat) 0%nat row.

Definition matrix_total (m : gmap string (gmap string nat)) : nat :=
  map_fold (fun _ row acc => (row_total row + acc)%nat) 0%nat m.

(** The count stored for the transition from [prevName] to [currName], 0
    when the matrix has no such entry. *)
Definition transition_count (m : gmap string (gmap string nat))
    (prevName currName : string) : nat :=
  default 0%nat (m !! prevName ≫= fun row => row !! currName).

(** The pairs of neighbours of a list, and the number of those equal to
    [(prevName, currName)]. *)
Definition adjacent_pairs {A} (l : list A) : list (A * A) := zip l (tail l).

Definition count_pairs (prevName currName : string) (labels : list string) : nat :=
  length (List.filter (fun pc => bool_decide (pc = (prevName, currName)))
                      (adjacent_pairs labels)).

(** ** Rising edges

    Following the specification: the number of rising edges of "inside" over
    a sequence, the state before the first element being outside.  Position
    [i] is a rising edge when the element at [i] is inside and the element
    before it, if there is one, is not. *)
Definition rising_edge_at (inside : list bool) (i : nat) : bool :=
  nth i inside false &&
  negb (match i with
        | O => false
        | S k => nth k inside false
        end).

Definition rising_edges (inside : list bool) : nat :=
  length (List.filter (rising_edge_at inside) (seq 0 (length inside))).

(** The same test with a given state before the first element. *)
Definition edge_after (prev : bool) (inside : list bool) (i : nat) : bool :=
  nth i inside false &&
  negb (match i with
        | O => prev
        | S k => nth k inside false
        end).

(** ** The order of the binary64 values

    A binary64 value that is not NaN has a place in the order of the
    numbers, given here as a triple compared lexicographically: the first
    component separates negative infinity, the negative numbers, the zeros,
    the positive numbers and positive infinity; among numbers of one sign the
    exponent decides, then the mantissa. *)
Definition binary64_rank (f : spec_float) : Z * Z * Z :=
  match f with
  | S754_zero _ => (0, 0, 0)
  | S754_infinity s => (if s then -2 else 2, 0, 0)
  | S754_nan => (0, 0, 0)
  | S754_finite s m e => if s then (-1, - e, Z.neg m) else (1, e, Z.pos m)
  end%Z.

Definition lex_compare (a b : Z * Z * Z) : comparison :=
  match (a.1.1 ?= b.1.1)%Z with
  | Eq => match (a.1.2 ?= b.1.2)%Z with
          | Eq => (a.2 ?= b.2)%Z
          | c => c
          end
  | c => c
  end.

Definition lex_le (a b : Z * Z * Z) : Prop :=
  (a.1.1 < b.1.1 \/ a.1.1 = b.1.1 /\ (a.1.2 < b.1.2 \/ a.1.2 = b.1.2 /\ a.2 <= b.2))%Z.

(** ** Further definitions used in the statements *)

(** A list of labels with every run of equal neighbours reduced to its
    first element. *)
Fixpoint collapse (labels : list string) : list string :=
  match labels with
  | [] => []
  | a :: rest =>
      match rest with
      | [] => [a]
      | b :: _ => if bool_decide (a = b) then collapse rest else a :: collapse rest
      end
  end.

(** The number of places where a list changes from one label to another. *)
Definition changes (labels : list string) : nat :=
  length (List.filter (fun pc => negb (bool_decide (fst pc = snd pc)))
                      (adjacent_pairs labels)).

(** The window [a .. b] of the sorted samples cannot take the sample that
    follows it: with that sample the dispersion is not within the
    threshold. *)
Definition stops_at_violation {num : Type} `{JSNumber num}
    (sortedPoints : list (GazePoint.t num)) (dispersionThreshold : num) (a b : nat) : Prop :=
  forall p, sortedPoints !! (b + 1)%nat = Some p ->
    (calculateDispersion (slice sortedPoints a (b + 2)) <= dispersionThreshold)%js = false.

(** [collapse] with the label that came before the list. *)
Fixpoint collapse_after (last : option string) (labels : list string) : list string :=
  match labels with
  | [] => []
  | a :: rest =>
      if bool_decide (Some a <> last) then a :: collapse_after (Some a) rest
      else collapse_after last rest
  end.

Section MoreStatements.
Context {num : Type} `{JSNumber num}.

(** No AOI of the list is the AOI of the fixation. *)
Definition unmatched (aois : list (AOI.t num)) (f : Fixation.t num) : bool :=
  match findAOIForFixation f aois with
  | Some _ => false
  | None => true
  end.

(** The centroid of the fixation is inside the AOI. *)
Definition inside (aoi : AOI.t num) (f : Fixation.t num) : bool :=
  isPointInAOI (Fixation.x f) (Fixation.y f) aoi.

(** The distances between neighbours of a list of fixations. *)
Definition saccades (fixations : list (Fixation.t num)) : list num :=
  (fun pc => distance (Fixation.x (fst pc)) (Fixation.y (fst pc))
                      (Fixation.x (snd pc)) (Fixation.y (snd pc)))
    <$> adjacent_pairs fixations.

End MoreStatements.

(** ** The drawing data and the video mode

    The rest of this part follows [getScanpathDrawingData] and the class
    [VideoMode] that records the samples and holds the AOIs. *)

(** *** [Math] and truthiness *)

(** The functions of [Math] that these functions call, and the conversion
    of a number to a boolean ([!n], [n || d]).  [Math_min] and [Math_max]
    take the list of their arguments. *)
Class JSMath (num : Type) := {
  Math_min : list num -> num;
  Math_max : list num -> num;
  Math_abs : num -> num;
  Math_floor : num -> num;
  truthy : num -> bool
}.

(** One step of [Math.min] on binary64: NaN wins, then the smaller number,
    and [-0] is below [+0]. *)
Definition float_min_step (lowest number : float) : float :=
  if PrimFloat.is_nan lowest || PrimFloat.is_nan number then PrimFloat.nan
  else if PrimFloat.ltb number lowest then number
  else if PrimFloat.is_zero number && PrimFloat.get_sign number && PrimFloat.is_zero lowest
       then number
  else lowest.

(** One step of [Math.max] on binary64. *)
Definition float_max_step (highest number : float) : float :=
  if PrimFloat.is_nan highest || PrimFloat.is_nan number then PrimFloat.nan
  else if PrimFloat.ltb highest number then number
  else if PrimFloat.is_zero number && negb (PrimFloat.get_sign number)
          && PrimFloat.is_zero highest
       then number
  else highest.

(** [Math.floor] on binary64: a number of magnitude [2^52] or more is an
    integer already; below that, adding and subtracting [2^52] rounds the
    magnitude to an integer, which is then corrected downwards. *)
Definition float_floor (x : float) : float :=
  if PrimFloat.is_nan x || PrimFloat.leb 0x1p52 (PrimFloat.abs x) then x
  else
    let magnitude := PrimFloat.sub (PrimFloat.add (PrimFloat.abs x) 0x1p52) 0x1p52 in
    let nearest := if PrimFloat.get_sign x then PrimFloat.opp magnitude else magnitude in
    if PrimFloat.ltb x nearest then PrimFloat.sub nearest 1 else nearest.

#[export] Instance ieee_math : JSMath float := {|
  Math_min values := fold_left float_min_step values PrimFloat.infinity;
  Math_max values := fold_left float_max_step values PrimFloat.neg_infinity;
  Math_abs := PrimFloat.abs;
  Math_floor := float_floor;
  truthy x := negb (PrimFloat.is_nan x || PrimFloat.is_zero x)
|}.

(** The same functions on exact rationals.  The rationals have no
    infinities: the instance takes as parameters the numbers that stand for
    [Math.min()] and [Math.max()] of no argument, and every theorem on it
    holds whatever they are. *)
Definition exact_math (top bottom : Qc) : JSMath Qc := {|
  Math_min values :=
    match values with
    | [] => top
    | v :: rest => fold_left (fun lowest q => if bool_decide (q < lowest)%Qc then q else lowest)
                             rest v
    end;
  Math_max values :=
    match values with
    | [] => bottom
    | v :: rest => fold_left (fun highest q => if bool_decide (highest < q)%Qc then q else highest)
                             rest v
    end;
  Math_abs q := if bool_decide (q < 0)%Qc then (- q)%Qc else q;
  Math_floor q := Qc_of_Z (Qfloor q);
  truthy q := negb (bool_decide (q = 0%Qc))
|}.

(** *** Drawing data *)

Module Circle.
Record t (num : Type) := mk {
    x : num;
    y : num;
    radius : num;
    id : nat
  }.
Arguments mk {num}.
Arguments x {num}.
Arguments y {num}.
Arguments radius {num}.
Arguments id {num}.
End Circle.

Module Line.
Record t (num : Type) := mk {
    x1 : num;
    y1 : num;
    x2 : num;
    y2 : num
  }.
Arguments mk {num}.
Arguments x1 {num}.
Arguments y1 {num}.
Arguments x2 {num}.
Arguments y2 {num}.
End Line.

Section Drawing.
Context {num : Type} `{JSNumber num} `{JSMath num}.
Local Open Scope js_scope.

(** The loop of [getScanpathDrawingData],
    [for (let i = 1; i < sortedFixations.length; i++)], with [prev] the
    element at [i - 1] and [rest] the elements from [i] on. *)
Fixpoint lines_loop (prev : Fixation.t num) (rest : list (Fixation.t num))
    (lines : list (Line.t num)) : list (Line.t num) :=
  match rest with
  | [] => lines
  | curr :: rest' =>
      lines_loop curr rest'
        (lines ++ [Line.mk (Fixation.x prev) (Fixation.y prev)
                           (Fixation.x curr) (Fixation.y curr)])
  end.

(** [getScanpathDrawingData] *)
Definition getScanpathDrawingData (fixations : list (Fixation.t num))
    : list (Circle.t num) * list (Line.t num) :=
  let sortedFixations := sort_by_start fixations in
  let minDuration := Math_min (map Fixation.duration sortedFixations) in
  let maxDuration := Math_max (map Fixation.duration sortedFixations) in
  let durationRange :=
    if truthy (maxDuration - minDuration) then maxDuration - minDuration else jnat 1 in
  let circles :=
    map (fun f => Circle.mk (Fixation.x f) (Fixation.y f)
                    (jnat 5 + ((Fixation.duration f - minDuration) / durationRange) * jnat 25)
                    (Fixation.id f))
        sortedFixations in
  let lines :=
    match sortedFixations with
    | [] => []
    | first :: rest => lines_loop first rest []
    end in
  (circles, lines).

End Drawing.

(** *** The video mode *)

Module DOMRect.
Record t (num : Type) := mk {
    left : num;
    top : num;
    width : num;
    height : num
  }.
Arguments mk {num}.
Arguments left {num}.
Arguments top {num}.
Arguments width {num}.
Arguments height {num}.
End DOMRect.

Module MouseEvent.
Record t (num : Type) := mk {
    clientX : num;
    clientY : num
  }.
Arguments mk {num}.
Arguments clientX {num}.
Arguments clientY {num}.
End MouseEvent.

(** The fields of [VideoMode] that the methods below read or write.  The
    elements of the page, the audio recorder and the timers are left out:
    the methods below write to them and read nothing back from them except
    the values that are arguments here (the bounding rectangle of an
    element, the current time of the video, the value of an input). *)
Module VideoMode.
Record t (num : Type) := mk {
    isRecording : bool;
    isPaused : bool;
    gazePoints : list (GazePoint.t num);
    videoWidth : num;
    videoHeight : num;
    frameRate : num;
    isFullscreen : bool;
    aois : list (AOI.t num);
    nextAoiId : nat;
    isDrawingAOI : bool;
    aoiDrawStart : option (num * num)
  }.
Arguments mk {num}.
Arguments isRecording {num}.
Arguments isPaused {num}.
Arguments gazePoints {num}.
Arguments videoWidth {num}.
Arguments videoHeight {num}.
Arguments frameRate {num}.
Arguments isFullscreen {num}.
Arguments aois {num}.
Arguments nextAoiId {num}.
Arguments isDrawingAOI {num}.
Arguments aoiDrawStart {num}.
End VideoMode.

Section VideoModeMethods.
Context {num : Type} `{JSNumber num} `{JSMath num}.
(** [String.prototype.trim] *)
Variable trim : string -> string.
Local Open Scope js_scope.

(** The field initialisers of the class. *)
Definition new_VideoMode : VideoMode.t num :=
  VideoMode.mk false false [] (jnat 0) (jnat 0) (jnat 30) false [] 1 false None.

(** [this.gazePoints = gazePoints] *)
Definition set_gazePoints (this : VideoMode.t num) (gazePoints : list (GazePoint.t num))
    : VideoMode.t num :=
  VideoMode.mk (VideoMode.isRecording this) (VideoMode.isPaused this) gazePoints
    (VideoMode.videoWidth this) (VideoMode.videoHeight this) (VideoMode.frameRate this)
    (VideoMode.isFullscreen this) (VideoMode.aois this) (VideoMode.nextAoiId this)
    (VideoMode.isDrawingAOI this) (VideoMode.aoiDrawStart this).

(** [this.aois = aois; this.nextAoiId = nextAoiId] *)
Definition set_aois (this : VideoMode.t num) (aois : list (AOI.t num)) (nextAoiId : nat)
    : VideoMode.t num :=
  VideoMode.mk (VideoMode.isRecording this) (VideoMode.isPaused this)
    (VideoMode.gazePoints this)
    (VideoMode.videoWidth this) (VideoMode.videoHeight this) (VideoMode.frameRate this)
    (VideoMode.isFullscreen this) aois nextAoiId
    (VideoMode.isDrawingAOI this) (VideoMode.aoiDrawStart this).

(** [this.isDrawingAOI = isDrawingAOI; this.aoiDrawStart = aoiDrawStart] *)
Definition set_drawing (this : VideoMode.t num) (isDrawingAOI : bool)
    (aoiDrawStart : option (num * num)) : VideoMode.t num :=
  VideoMode.mk (VideoMode.isRecording this) (VideoMode.isPaused this)
    (VideoMode.gazePoints this)
    (VideoMode.videoWidth this) (VideoMode.videoHeight this) (VideoMode.frameRate this)
    (VideoMode.isFullscreen this) (VideoMode.aois this) (VideoMode.nextAoiId this)
    isDrawingAOI aoiDrawStart.

(** [this.isRecording = isRecording; this.isPaused = isPaused] *)
Definition set_recording (this : VideoMode.t num) (isRecording isPaused : bool)
    : VideoMode.t num :=
  VideoMode.mk isRecording isPaused (VideoMode.gazePoints this)
    (VideoMode.videoWidth this) (VideoMode.videoHeight this) (VideoMode.frameRate this)
    (VideoMode.isFullscreen this) (VideoMode.aois this) (VideoMode.nextAoiId this)
    (VideoMode.isDrawingAOI this) (VideoMode.aoiDrawStart this).

(** [this.isFullscreen = isFullscreen] *)
Definition set_isFullscreen (this : VideoMode.t num) (isFullscreen : bool)
    : VideoMode.t num :=
  VideoMode.mk (VideoMode.isRecording this) (VideoMode.isPaused this)
    (VideoMode.gazePoints this)
    (VideoMode.videoWidth this) (VideoMode.videoHeight this) (VideoMode.frameRate this)
    isFullscreen (VideoMode.aois this) (VideoMode.nextAoiId this)
    (VideoMode.isDrawingAOI this) (VideoMode.aoiDrawStart this).

(** [this.videoWidth = videoWidth; this.videoHeight = videoHeight;
    this.frameRate = frameRate] *)
Definition set_video (this : VideoMode.t num) (videoWidth videoHeight frameRate : num)
    : VideoMode.t num :=
  VideoMode.mk (VideoMode.isRecording this) (VideoMode.isPaused this)
    (VideoMode.gazePoints this) videoWidth videoHeight frameRate
    (VideoMode.isFullscreen this) (VideoMode.aois this) (VideoMode.nextAoiId this)
    (VideoMode.isDrawingAOI this) (VideoMode.aoiDrawStart this).

(** [onVideoLoaded]; the arguments are [this.video.videoWidth] and
    [this.video.videoHeight]. *)
Definition onVideoLoaded (this : VideoMode.t num) (videoWidth videoHeight : num)
    : VideoMode.t num :=
  set_video this videoWidth videoHeight (jnat 30).

(** [startRecording], up to the point where [enterFullscreen] waits for
    the browser; [hasSrc] is [this.video.src] as a boolean. *)
Definition startRecording (this : VideoMode.t num) (hasSrc : bool) : VideoMode.t num :=
  if negb hasSrc then this else set_recording this true false.

(** The rest of [enterFullscreen], run when the browser has granted the
    request. *)
Definition enterFullscreen_granted (this : VideoMode.t num) : VideoMode.t num :=
  set_isFullscreen this true.

(** The last statement of [exitFullscreen]. *)
Definition exitFullscreen_done (this : VideoMode.t num) : VideoMode.t num :=
  set_isFullscreen this false.

(** The listener of [fullscreenchange]; [fullscreenElement] is
    [document.fullscreenElement] as a boolean. *)
Definition onFullscreenChange (this : VideoMode.t num) (fullscreenElement : bool)
    : VideoMode.t num :=
  set_isFullscreen this fullscreenElement.

(** [pauseRecording] *)
Definition pauseRecording (this : VideoMode.t num) : VideoMode.t num :=
  if negb (VideoMode.isRecording this) then this
  else set_recording this (VideoMode.isRecording this) (negb (VideoMode.isPaused this)).

(** [stopRecording]: [exitFullscreen] runs to its end at once when the
    document has no fullscreen element, and waits for the browser
    otherwise. *)
Definition stopRecording (this : VideoMode.t num) (fullscreenElement : bool)
    : VideoMode.t num :=
  let this := set_recording this false false in
  if fullscreenElement then this else exitFullscreen_done this.

(** [resetRecording] *)
Definition resetRecording (this : VideoMode.t num) : VideoMode.t num :=
  set_gazePoints this [].

(** [getVideoContentRect]; [rect] is [this.video.getBoundingClientRect()]. *)
Definition getVideoContentRect (this : VideoMode.t num) (rect : DOMRect.t num)
    : DOMRect.t num :=
  if negb (VideoMode.isFullscreen this) || negb (truthy (VideoMode.videoWidth this))
     || negb (truthy (VideoMode.videoHeight this))
  then DOMRect.mk (DOMRect.left rect) (DOMRect.top rect)
                  (DOMRect.width rect) (DOMRect.height rect)
  else
    let videoAspect := VideoMode.videoWidth this / VideoMode.videoHeight this in
    let containerAspect := DOMRect.width rect / DOMRect.height rect in
    let '(contentWidth, contentHeight, offsetX, offsetY) :=
      if videoAspect > containerAspect
      then
        let contentWidth := DOMRect.width rect in
        let contentHeight := DOMRect.width rect / videoAspect in
        (contentWidth, contentHeight, jnat 0, (DOMRect.height rect - contentHeight) / jnat 2)
      else
        let contentHeight := DOMRect.height rect in
        let contentWidth := DOMRect.height rect * videoAspect in
        (contentWidth, contentHeight, (DOMRect.width rect - contentWidth) / jnat 2, jnat 0) in
    DOMRect.mk (DOMRect.left rect + offsetX) (DOMRect.top rect + offsetY)
               contentWidth contentHeight.

(** [updateGazePosition]; [rect] is [this.video.getBoundingClientRect()]
    and [currentTime] is [this.video.currentTime]. *)
Definition updateGazePosition (this : VideoMode.t num) (rect : DOMRect.t num)
    (currentTime screenX screenY : num) : VideoMode.t num :=
  let contentRect := getVideoContentRect this rect in
  let x := screenX - DOMRect.left contentRect in
  let y := screenY - DOMRect.top contentRect in
  if (x >= jnat 0) && (x < DOMRect.width contentRect)
     && (y >= jnat 0) && (y < DOMRect.height contentRect)
  then
    let normalizedX := x / DOMRect.width contentRect in
    let normalizedY := y / DOMRect.height contentRect in
    if VideoMode.isRecording this && negb (VideoMode.isPaused this)
    then
      let gazePoint :=
        GazePoint.mk currentTime (Math_floor (currentTime * VideoMode.frameRate this))
                     normalizedX normalizedY screenX screenY in
      set_gazePoints this (VideoMode.gazePoints this ++ [gazePoint])
    else this
  else this.

(** [startAOIDrawing]; [nameValue] is the value of the name input. *)
Definition startAOIDrawing (this : VideoMode.t num) (nameValue : string) : VideoMode.t num :=
  if bool_decide (trim nameValue = "") then this
  else set_drawing this true (VideoMode.aoiDrawStart this).

(** [cancelAOIDrawing] *)
Definition cancelAOIDrawing (this : VideoMode.t num) : VideoMode.t num :=
  set_drawing this false None.

(** [onAOIMouseDown]; [rect] is
    [this.aoiDrawingCanvas.getBoundingClientRect()]. *)
Definition onAOIMouseDown (this : VideoMode.t num) (e : MouseEvent.t num)
    (rect : DOMRect.t num) : VideoMode.t num :=
  if negb (VideoMode.isDrawingAOI this) then this
  else
    set_drawing this (VideoMode.isDrawingAOI this)
      (Some ((MouseEvent.clientX e - DOMRect.left rect) / DOMRect.width rect,
             (MouseEvent.clientY e - DOMRect.top rect) / DOMRect.height rect)).

(** [onAOIMouseUp]; [nameValue] and [colorValue] are the values of the
    name and colour inputs. *)
Definition onAOIMouseUp (this : VideoMode.t num) (e : MouseEvent.t num)
    (rect : DOMRect.t num) (nameValue colorValue : string) : VideoMode.t num :=
  match VideoMode.isDrawingAOI this, VideoMode.aoiDrawStart this with
  | true, Some aoiDrawStart =>
      let endX := (MouseEvent.clientX e - DOMRect.left rect) / DOMRect.width rect in
      let endY := (MouseEvent.clientY e - DOMRect.top rect) / DOMRect.height rect in
      let minX := Math_min [fst aoiDrawStart; endX] in
      let minY := Math_min [snd aoiDrawStart; endY] in
      let width := Math_abs (endX - fst aoiDrawStart) in
      let height := Math_abs (endY - snd aoiDrawStart) in
      let this :=
        if (width > jnat 1 / jnat 100) && (height > jnat 1 / jnat 100)
        then
          let aoi :=
            AOI.mk (String.app "aoi-" (stdpp.pretty.pretty (VideoMode.nextAoiId this)))
                   (trim nameValue) colorValue (Bounds.mk minX minY width height) in
          set_aois this (VideoMode.aois this ++ [aoi]) (S (VideoMode.nextAoiId this))
        else this in
      cancelAOIDrawing this
  | _, _ => this
  end.

(** [deleteAOI] *)
Definition deleteAOI (this : VideoMode.t num) (id : string) : VideoMode.t num :=
  set_aois this (List.filter (fun a => bool_decide (AOI.id a <> id)) (VideoMode.aois this))
           (VideoMode.nextAoiId this).

(** What the user, the browser and the tracker can do to the fields above:
    one action for every piece of a method that runs without waiting. *)
Inductive action : Type :=
  | VideoLoaded (videoWidth videoHeight : num)
  | StartRecording (hasSrc : bool)
  | FullscreenGranted
  | FullscreenExited
  | FullscreenChange (fullscreenElement : bool)
  | PauseRecording
  | StopRecording (fullscreenElement : bool)
  | UpdateGazePosition (rect : DOMRect.t num) (currentTime screenX screenY : num)
  | ResetRecording
  | StartAOIDrawing (nameValue : string)
  | CancelAOIDrawing
  | AOIMouseDown (e : MouseEvent.t num) (rect : DOMRect.t num)
  | AOIMouseUp (e : MouseEvent.t num) (rect : DOMRect.t num) (nameValue colorValue : string)
  | DeleteAOI (id : string).

Definition perform (this : VideoMode.t num) (a : action) : VideoMode.t num :=
  match a with
  | VideoLoaded videoWidth videoHeight => onVideoLoaded this videoWidth videoHeight
  | StartRecording hasSrc => startRecording this hasSrc
  | FullscreenGranted => enterFullscreen_granted this
  | FullscreenExited => exitFullscreen_done this
  | FullscreenChange fullscreenElement => onFullscreenChange this fullscreenElement
  | PauseRecording => pauseRecording this
  | StopRecording fullscreenElement => stopRecording this fullscreenElement
  | UpdateGazePosition rect currentTime screenX screenY =>
      updateGazePosition this rect currentTime screenX screenY
  | ResetRecording => resetRecording this
  | StartAOIDrawing nameValue => startAOIDrawing this nameValue
  | CancelAOIDrawing => cancelAOIDrawing this
  | AOIMouseDown e rect => onAOIMouseDown this e rect
  | AOIMouseUp e rect nameValue colorValue => onAOIMouseUp this e rect nameValue colorValue
  | DeleteAOI id => deleteAOI this id
  end.

(** The state after a list of actions, the first one first. *)
Definition perform_all (this : VideoMode.t num) (actions : list action) : VideoMode.t num :=
  fold_left perform actions this.

End VideoModeMethods.

(** The AOI is larger than 0.01 in both directions, as [onAOIMouseUp]
    tests it. *)
Definition drawn_size {num : Type} `{JSNumber num} (aoi : AOI.t num) : bool :=
  (Bounds.width (AOI.bounds aoi) > jnat 1 / jnat 100)%js
  && (Bounds.height (AOI.bounds aoi) > jnat 1 / jnat 100)%js.

(** The id [onAOIMouseUp] gives to an AOI when the counter is [n]. *)
Definition aoi_id (n : nat) : string := String.app "aoi-" (stdpp.pretty.pretty n).

(** What holds of the AOIs of a [VideoMode] at any time: each is larger
    than 0.01 in both directions, they have different ids, and every id
    was made from a value of the counter that is now past. *)
Definition aois_well_formed {num : Type} `{JSNumber num} (this : VideoMode.t num) : Prop :=
  (forall aoi, aoi ∈ VideoMode.aois this -> drawn_size aoi = true)
  /\ NoDup (AOI.id <$> VideoMode.aois this)
  /\ (forall aoi, aoi ∈ VideoMode.aois this ->
        exists n, (1 <= n < VideoMode.nextAoiId this)%nat /\ AOI.id aoi = aoi_id n).

(** The AOIs after some actions: those of before that are left, and new
    ones with ids from the values the counter has passed since. *)
Definition extends {num : Type} (before after : VideoMode.t num) : Prop :=
  (VideoMode.nextAoiId before <= VideoMode.nextAoiId after)%nat
  /\ forall aoi, aoi ∈ VideoMode.aois after ->
       aoi ∈ VideoMode.aois before
       \/ exists n, (VideoMode.nextAoiId before <= n < VideoMode.nextAoiId after)%nat
                    /\ AOI.id aoi = aoi_id n.

(** *** Smoothing of the raw gaze (main module) *)

Section Smoothing.
Context {num : Type} `{JSNumber num}.
Local Open Scope js_scope.

Definition SMOOTHING_FRAMES : nat := 5.

(** [smoothGaze]: the array [gazeHistory] of the module is an argument, and
    its new content is returned with the result. *)
Definition smoothGaze (gazeHistory : list (num * num)) (rawX rawY : num)
    : (num * num) * list (num * num) :=
  let gazeHistory := gazeHistory ++ [(rawX, rawY)] in
  let gazeHistory :=
    if (SMOOTHING_FRAMES <? length gazeHistory)%nat then tail gazeHistory else gazeHistory in
  let avgX := fold_left (fun sum p => sum + fst p) gazeHistory (jnat 0)
              / jnat (length gazeHistory) in
  let avgY := fold_left (fun sum p => sum + snd p) gazeHistory (jnat 0)
              / jnat (length gazeHistory) in
  ((avgX, avgY), gazeHistory).

(** The content of [gazeHistory] after [smoothGaze] has been called on the
    raw samples of a list, one after the other, starting with the empty
    array. *)
Definition history_after (raws : list (num * num)) : list (num * num) :=
  fold_left (fun gazeHistory raw => snd (smoothGaze gazeHistory (fst raw) (snd raw))) raws [].

End Smoothing.

(** *** Export to CSV *)

Module CSV.
Record t := mk {
    fixationsCSV : string;
    dwellTimeCSV : string;
    firstFixationCSV : string;
    scanpathCSV : string
  }.
End CSV.

(** [cells.join(separator)] on an array of strings. *)
Definition join (separator : string) (cells : list string) : string :=
  String.concat separator cells.

(** The line feed. *)
Definition line_feed : string := String (Ascii.ascii_of_nat 10) EmptyString.

Section CSVExport.
Context {num : Type} `{JSNumber num}.
(** [Number.prototype.toFixed] *)
Variable toFixed : num -> nat -> string.

(** [value !== null ? value.toFixed(digits) : 'N/A'] *)
Definition toFixed_or_NA (value : option num) (digits : nat) : string :=
  match value with
  | Some v => toFixed v digits
  | None => "N/A"
  end.

(** A row of [firstFixationCSV]. *)
Definition first_fixation_row (f : FirstFixationMetrics.t num) : string :=
  join "," [FirstFixationMetrics.aoiId f;
            FirstFixationMetrics.aoiName f;
            toFixed_or_NA (FirstFixationMetrics.timeToFirstFixation f) 1;
            toFixed_or_NA (FirstFixationMetrics.firstFixationDuration f) 1;
            toFixed_or_NA (FirstFixationMetrics.firstFixationX f) 4;
            toFixed_or_NA (FirstFixationMetrics.firstFixationY f) 4;
            stdpp.pretty.pretty (FirstFixationMetrics.entryCount f)].

(** [analysisToCSV]; a counter is written in decimal digits. *)
Definition analysisToCSV (result : AnalysisResult.t num) (aois : list (AOI.t num)) : CSV.t :=
  let fixationHeaders :=
    ["id"; "start_time_s"; "end_time_s"; "duration_ms"; "x"; "y"; "point_count"; "aoi"] in
  let fixationRows :=
    map (fun f =>
           join "," [stdpp.pretty.pretty (Fixation.id f);
                     toFixed (Fixation.startTime f) 3;
                     toFixed (Fixation.endTime f) 3;
                     toFixed (Fixation.duration f) 1;
                     toFixed (Fixation.x f) 4;
                     toFixed (Fixation.y f) 4;
                     stdpp.pretty.pretty (Fixation.pointCount f);
                     fixation_row_aoi f aois])
        (AnalysisResult.fixations result) in
  let fixationsCSV := join line_feed (join "," fixationHeaders :: fixationRows) in
  let dwellHeaders :=
    ["aoi_id"; "aoi_name"; "total_dwell_ms"; "fixation_count"; "mean_duration_ms";
     "percent_total"] in
  let dwellRows :=
    map (fun d =>
           join "," [DwellTimeStats.aoiId d;
                     DwellTimeStats.aoiName d;
                     toFixed (DwellTimeStats.totalDwellTime d) 1;
                     stdpp.pretty.pretty (DwellTimeStats.fixationCount d);
                     toFixed (DwellTimeStats.meanFixationDuration d) 1;
                     toFixed (DwellTimeStats.percentOfTotal d) 2])
        (AnalysisResult.dwellTimeStats result) in
  let dwellTimeCSV := join line_feed (join "," dwellHeaders :: dwellRows) in
  let ffHeaders :=
    ["aoi_id"; "aoi_name"; "ttff_ms"; "first_duration_ms"; "first_x"; "first_y";
     "entry_count"] in
  let ffRows := map first_fixation_row (AnalysisResult.firstFixationMetrics result) in
  let firstFixationCSV := join line_feed (join "," ffHeaders :: ffRows) in
  let scanpathHeaders := ["metric"; "value"] in
  let scanpathMetrics := AnalysisResult.scanpathMetrics result in
  let scanpathRows :=
    map (join ",")
        [["total_length"; toFixed (ScanpathMetrics.totalLength scanpathMetrics) 4];
         ["fixation_count";
          stdpp.pretty.pretty (ScanpathMetrics.fixationCount scanpathMetrics)];
         ["total_duration_ms"; toFixed (ScanpathMetrics.totalDuration scanpathMetrics) 1];
         ["mean_fixation_duration_ms";
          toFixed (ScanpathMetrics.meanFixationDuration scanpathMetrics) 1];
         ["mean_saccade_amplitude";
          toFixed (ScanpathMetrics.meanSaccadeAmplitude scanpathMetrics) 4];
         ["aoi_sequence"; join " -> " (ScanpathMetrics.aoiSequence scanpathMetrics)]] in
  let scanpathCSV := join line_feed (join "," scanpathHeaders :: scanpathRows) in
  CSV.mk fixationsCSV dwellTimeCSV firstFixationCSV scanpathCSV.

End CSVExport.

(** The matrix stores no row without an entry and no entry without a
    transition. *)
Definition no_empty_entry (m : gmap string (gmap string nat)) : Prop :=
  forall prevName row, m !! prevName = Some row ->
    row <> ∅ /\ forall currName n, row !! currName = Some n -> (1 <= n)%nat.
(** ** Fixation detection: the shape of the result

    The lemmas of this section hold for every number instance: they follow
    from the control flow of the three loops. *)

Lemma bind_Normal {A B} (a : A) (k : A -> completion B) : (Normal a ≫= k) = k a.
Proof. reflexivity. Qed.

Lemma index_lookup {A} (arr : list A) (i : nat) (a : A) :
  arr !! i = Some a -> index arr i = Normal a.
Proof. intros E. unfold index. now rewrite E. Qed.

Lemma slice_length {A} (arr : list A) (from to : nat) :
  to <= length arr -> length (slice arr from to) = to - from.
Proof. intros Hle. unfold slice. rewrite length_take, length_drop. lia. Qed.

Lemma slice_lookup {A} (arr : list A) (from to i : nat) :
  i < to - from -> slice arr from to !! i = arr !! (from + i).
Proof. intros Hi. unfold slice. now rewrite lookup_take_lt, lookup_drop. Qed.

Section SortFacts.
Context {num : Type} `{JSNumber num} {A : Type} (compareFn : A -> A -> num).

Lemma sort_insert_perm (a : A) (l : list A) : sort_insert compareFn a l ≡ₚ a :: l.
Proof.
  induction l as [|b l IH]; simpl; [reflexivity|].
  destruct (jlt _ _); [|reflexivity].
  rewrite IH. apply Permutation_swap.
Qed.

Lemma sort_perm (l : list A) : sort compareFn l ≡ₚ l.
Proof.
  induction l as [|a l IH]; simpl; [reflexivity|].
  now rewrite sort_insert_perm, IH.
Qed.

Lemma sort_length (l : list A) : length (sort compareFn l) = length l.
Proof. apply Permutation_length, sort_perm. Qed.

End SortFacts.

Section Detection.
Context {num : Type} `{JSNumber num}.
Variables (sortedPoints : list (GazePoint.t num)) (dispersionThreshold minDuration : num).

Local Open Scope js_scope.
Local Abbreviation windows_below :=
  (windows_below sortedPoints dispersionThreshold minDuration).


Lemma initial_window_S fuel windowStart windowEnd :
  initial_window sortedPoints minDuration (S fuel) windowStart windowEnd
  = if (windowEnd <? length sortedPoints)%nat then
      pe ← index sortedPoints windowEnd;
      ps ← index sortedPoints windowStart;
      if (GazePoint.timestamp pe - GazePoint.timestamp ps) * jnat 1000 < minDuration
      then initial_window sortedPoints minDuration fuel windowStart (S windowEnd)
      else Normal windowEnd
    else Normal windowEnd.
Proof. reflexivity. Qed.

Lemma expand_window_S fuel windowStart windowEnd windowPoints dispersion :
  expand_window sortedPoints dispersionThreshold (S fuel) windowStart windowEnd
                windowPoints dispersion
  = if (windowEnd + 1 <? length sortedPoints)%nat then
      let testPoints := slice sortedPoints windowStart (windowEnd + 2) in
      let testDispersion := calculateDispersion testPoints in
      if testDispersion <= dispersionThreshold
      then expand_window sortedPoints dispersionThreshold fuel windowStart (S windowEnd)
                         testPoints testDispersion
      else Normal (windowEnd, windowPoints, dispersion)
    else Normal (windowEnd, windowPoints, dispersion).
Proof. reflexivity. Qed.

Lemma idt_loop_S fuel windowStart fixationId fixations :
  idt_loop sortedPoints dispersionThreshold minDuration (S fuel) windowStart fixationId
           fixations
  = if (windowStart <? length sortedPoints)%nat then
      windowEnd ← initial_window sortedPoints minDuration (S (length sortedPoints))
                                 windowStart windowStart;
      if (length sortedPoints <=? windowEnd)%nat then Normal fixations
      else
        let windowPoints := slice sortedPoints windowStart (windowEnd + 1) in
        let dispersion := calculateDispersion windowPoints in
        if dispersion <= dispersionThreshold then
          '(windowEnd, windowPoints, dispersion) ←
            expand_window sortedPoints dispersionThreshold (S (length sortedPoints))
                          windowStart windowEnd windowPoints dispersion;
          let centroid := calculateCentroid windowPoints in
          first ← index windowPoints 0;
          last ← index windowPoints (length windowPoints - 1);
          let startTime := GazePoint.timestamp first in
          let endTime := GazePoint.timestamp last in
          let duration := (endTime - startTime) * jnat 1000 in
          if duration >= minDuration then
            idt_loop sortedPoints dispersionThreshold minDuration fuel (windowEnd + 1)
              (S fixationId)
              (fixations ++ [Fixation.mk fixationId startTime endTime duration
                               (fst centroid) (snd centroid)
                               (length windowPoints) windowPoints])
          else idt_loop sortedPoints dispersionThreshold minDuration fuel (windowEnd + 1)
                        fixationId fixations
        else idt_loop sortedPoints dispersionThreshold minDuration fuel (S windowStart)
                      fixationId fixations
    else Normal fixations.
Proof. reflexivity. Qed.

Lemma windows_below_mono fs bound bound' :
  windows_below fs bound -> (bound <= bound')%nat -> windows_below fs bound'.
Proof.
  intros Hw Hle. destruct Hw as [|fs f a b bound Hfs Hf Hb].
  - constructor.
  - econstructor; eauto. lia.
Qed.

Lemma initial_window_returns fuel windowStart windowEnd :
  (windowStart < length sortedPoints)%nat ->
  (length sortedPoints - windowEnd < fuel)%nat ->
  exists windowEnd',
    initial_window sortedPoints minDuration fuel windowStart windowEnd = Normal windowEnd'
    /\ (windowEnd <= windowEnd')%nat.
Proof.
  intros Hs. revert windowEnd.
  induction fuel as [|fuel IH]; intros windowEnd Hfuel; [lia|].
  simpl. destruct (Nat.ltb_spec windowEnd (length sortedPoints)) as [Hlt|Hge].
  - destruct (lookup_lt_is_Some_2 sortedPoints windowEnd Hlt) as [pe Epe].
    destruct (lookup_lt_is_Some_2 sortedPoints windowStart Hs) as [ps Eps].
    rewrite (index_lookup _ _ _ Epe), bind_Normal.
    rewrite (index_lookup _ _ _ Eps), bind_Normal.
    destruct (jlt _ _).
    + destruct (IH (S windowEnd)) as (w & Ew & Hw); [lia|].
      exists w. split; [exact Ew | lia].
    + exists windowEnd. split; [reflexivity | lia].
  - exists windowEnd. split; [reflexivity | lia].
Qed.

Lemma expand_window_returns fuel windowStart windowEnd windowPoints dispersion :
  (windowEnd < length sortedPoints)%nat ->
  (length sortedPoints - windowEnd <= fuel)%nat ->
  windowPoints = slice sortedPoints windowStart (windowEnd + 1) ->
  (calculateDispersion windowPoints <= dispersionThreshold) = true ->
  exists windowEnd' windowPoints' dispersion',
    expand_window sortedPoints dispersionThreshold fuel windowStart windowEnd
                  windowPoints dispersion
    = Normal (windowEnd', windowPoints', dispersion')
    /\ (windowEnd <= windowEnd' < length sortedPoints)%nat
    /\ windowPoints' = slice sortedPoints windowStart (windowEnd' + 1)
    /\ (calculateDispersion windowPoints' <= dispersionThreshold) = true.
Proof.
  revert windowEnd windowPoints dispersion.
  induction fuel as [|fuel IH]; intros windowEnd windowPoints dispersion Hlt Hfuel Hwp Hd;
    [lia|].
  simpl. destruct (Nat.ltb_spec (windowEnd + 1) (length sortedPoints)) as [Hnext|Hlast].
  - destruct (calculateDispersion (slice sortedPoints windowStart (windowEnd + 2)%nat)
              <= dispersionThreshold) eqn:Etest.
    + destruct (IH (S windowEnd) (slice sortedPoints windowStart (windowEnd + 2)%nat)
                  (calculateDispersion (slice sortedPoints windowStart (windowEnd + 2)%nat)))
        as (w & wp & d & Ew & Hw & Hwp' & Hd');
        [lia | lia | f_equal; lia | exact Etest |].
      exists w, wp, d. repeat split; [exact Ew | lia | lia | exact Hwp' | exact Hd'].
    + exists windowEnd, windowPoints, dispersion.
      repeat split; [lia | exact Hlt | exact Hwp | exact Hd].
  - exists windowEnd, windowPoints, dispersion.
    repeat split; [lia | exact Hlt | exact Hwp | exact Hd].
Qed.

Lemma ids_snoc (fixations : list (Fixation.t num)) (f : Fixation.t num) :
  Fixation.id <$> fixations = seq 1 (length fixations) ->
  Fixation.id f = S (length fixations) ->
  Fixation.id <$> (fixations ++ [f]) = seq 1 (length (fixations ++ [f])).
Proof.
  intros Hids Hf. rewrite fmap_app, length_app, seq_app, Hids. simpl. now rewrite Hf.
Qed.

Lemma idt_loop_returns fuel windowStart fixationId fixations :
  (windowStart <= length sortedPoints)%nat ->
  (length sortedPoints - windowStart < fuel)%nat ->
  windows_below fixations windowStart ->
  Fixation.id <$> fixations = seq 1 (length fixations) ->
  fixationId = S (length fixations) ->
  exists fs,
    idt_loop sortedPoints dispersionThreshold minDuration fuel windowStart fixationId
             fixations = Normal fs
    /\ windows_below fs (length sortedPoints)
    /\ Fixation.id <$> fs = seq 1 (length fs).
Proof.
  revert windowStart fixationId fixations.
  induction fuel as [|fuel IH]; intros windowStart fixationId fixations Hws Hfuel Hw Hids Hid;
    [lia|].
  cbn [idt_loop].
  destruct (Nat.ltb_spec windowStart (length sortedPoints)) as [Hlt|Hge];
    [|exists fixations; split; [reflexivity|split; [|exact Hids]];
      apply windows_below_mono with windowStart; [exact Hw | lia]].
  destruct (initial_window_returns (S (length sortedPoints)) windowStart windowStart)
    as (windowEnd & Einit & Hle); [exact Hlt | lia |].
  rewrite Einit, bind_Normal.
  destruct (Nat.leb_spec (length sortedPoints) windowEnd) as [Hout|Hin];
    [exists fixations; split; [reflexivity|split; [|exact Hids]];
     apply windows_below_mono with windowStart; [exact Hw | lia]|].
  destruct (calculateDispersion (slice sortedPoints windowStart (windowEnd + 1))
            <= dispersionThreshold)%js eqn:Etight.
  - destruct (expand_window_returns (S (length sortedPoints)) windowStart windowEnd
                (slice sortedPoints windowStart (windowEnd + 1))
                (calculateDispersion (slice sortedPoints windowStart (windowEnd + 1))))
      as (windowEnd' & windowPoints & dispersion & Eexp & Hrange & Hwp & Htight);
      [exact Hin | lia | reflexivity | exact Etight |].
    rewrite Eexp, bind_Normal. cbv beta iota.
    destruct (lookup_lt_is_Some_2 sortedPoints windowStart Hlt) as [first Efirst].
    destruct (lookup_lt_is_Some_2 sortedPoints windowEnd' (proj2 Hrange)) as [last Elast].
    assert (Hlen : length windowPoints = (windowEnd' + 1 - windowStart)%nat)
      by (rewrite Hwp; apply slice_length; lia).
    assert (E0 : windowPoints !! 0%nat = Some first)
      by (rewrite Hwp, slice_lookup, Nat.add_0_r; [exact Efirst | lia]).
    assert (E1 : windowPoints !! (length windowPoints - 1)%nat = Some last).
    { rewrite Hlen, Hwp, slice_lookup by lia.
      replace (windowStart + (windowEnd' + 1 - windowStart - 1))%nat with windowEnd' by lia.
      exact Elast. }
    rewrite (index_lookup _ _ _ E0), bind_Normal.
    rewrite (index_lookup _ _ _ E1), bind_Normal.
    destruct ((GazePoint.timestamp last - GazePoint.timestamp first) * jnat 1000
              >= minDuration)%js eqn:Elong.
    + apply IH; [lia | lia | | |].
      * apply windows_snoc with windowStart windowEnd'; [exact Hw | | lia].
        constructor; cbn; try reflexivity.
        -- lia.
        -- exact Hwp.
        -- lia.
        -- now rewrite Efirst.
        -- now rewrite Elast.
        -- symmetry. apply surjective_pairing.
        -- exact Elong.
        -- exact Htight.
      * apply ids_snoc; [exact Hids | now rewrite Hid].
      * rewrite length_app. simpl. lia.
    + apply IH; [lia | lia | | exact Hids | exact Hid].
      apply windows_below_mono with windowStart; [exact Hw | lia].
  - apply IH; [lia | lia | | exact Hids | exact Hid].
    apply windows_below_mono with windowStart; [exact Hw | lia].
Qed.

End Detection.

Section DetectionResult.
Context {num : Type} `{JSNumber num}.

(** [detectFixationsIDT] returns, and what it returns is a list of
    fixations recorded for successive windows of the sorted points, numbered
    from 1. *)
Lemma detectFixationsIDT_returns (gazePoints : list (GazePoint.t num))
    (dispersionThreshold minDuration : num) :
  exists fs,
    detectFixationsIDT gazePoints dispersionThreshold minDuration = Normal fs
    /\ windows_below (sort_by_timestamp gazePoints) dispersionThreshold minDuration fs
         (length (sort_by_timestamp gazePoints))
    /\ Fixation.id <$> fs = seq 1 (length fs).
Proof.
  unfold detectFixationsIDT. destruct (length gazePoints <? 2)%nat.
  - exists []. repeat split. constructor.
  - apply idt_loop_returns; [lia | lia | constructor | reflexivity | reflexivity].
Qed.

Lemma windows_below_Forall (sortedPoints : list (GazePoint.t num))
    (dispersionThreshold minDuration : num) (P : Fixation.t num -> Prop) fs bound :
  (forall f a b, window_fixation sortedPoints dispersionThreshold minDuration f a b -> P f) ->
  windows_below sortedPoints dispersionThreshold minDuration fs bound ->
  Forall P fs.
Proof.
  intros HP Hw. induction Hw as [|fs f a b bound Hfs IH Hf Hb]; [constructor|].
  apply Forall_app. split; [exact IH|]. repeat constructor. eapply HP, Hf.
Qed.

Lemma windows_below_starts (sortedPoints : list (GazePoint.t num))
    (dispersionThreshold minDuration : num) fs bound f :
  windows_below sortedPoints dispersionThreshold minDuration fs bound ->
  f ∈ fs ->
  exists a, (a < bound)%nat
    /\ GazePoint.timestamp <$> sortedPoints !! a = Some (Fixation.startTime f).
Proof.
  intros Hw. revert f. induction Hw as [|fs f0 a b bound Hfs IH Hf Hb]; intros f Hin.
  - inversion Hin.
  - apply elem_of_app in Hin as [Hin|Hin].
    + destruct (IH f Hin) as (a' & Ha' & E). exists a'. split; [|exact E].
      destruct Hf as [[? ?]]. lia.
    + apply list_elem_of_singleton in Hin as ->. exists a. split; [|apply Hf].
      destruct Hf as [[? ?]]. lia.
Qed.

(** Two consecutive fixations start at two points of the sorted list, the
    first one at a smaller index. *)
Lemma windows_below_consecutive (sortedPoints : list (GazePoint.t num))
    (dispersionThreshold minDuration : num) fs bound i f g :
  windows_below sortedPoints dispersionThreshold minDuration fs bound ->
  fs !! i = Some f -> fs !! S i = Some g ->
  exists a b, (a < b)%nat
    /\ GazePoint.timestamp <$> sortedPoints !! a = Some (Fixation.startTime f)
    /\ GazePoint.timestamp <$> sortedPoints !! b = Some (Fixation.startTime g).
Proof.
  intros Hw. revert i f g.
  induction Hw as [|fs f0 a b bound Hfs IH Hf Hb]; intros i f g Ei ESi.
  - inversion Ei.
  - assert (HSi : (S i < length (fs ++ [f0]))%nat) by (eapply lookup_lt_Some, ESi).
    rewrite length_app in HSi. simpl in HSi.
    rewrite lookup_app_l in Ei by lia.
    destruct (decide (S i < length fs)%nat) as [Hlt|Hge].
    + rewrite lookup_app_l in ESi by lia. now apply (IH i).
    + rewrite lookup_app_r in ESi by lia.
      replace (S i - length fs)%nat with 0%nat in ESi by lia.
      injection ESi as <-.
      destruct (windows_below_starts _ _ _ _ _ f Hfs) as (a' & Ha' & E);
        [eapply list_elem_of_lookup_2, Ei|].
      exists a', a. split; [exact Ha'|]. split; [exact E | apply Hf].
Qed.

End DetectionResult.

(** ** Exact arithmetic: comparisons and the dispersion as a maximum *)

Section ExactNumbers.
Variable sq : Qc -> Qc.
Local Hint Extern 0 (JSNumber Qc) => exact (exact sq) : typeclass_instances.

Lemma exact_lt (a b : Qc) : (a < b)%js = true <-> (a < b)%Qc.
Proof. apply bool_decide_eq_true. Qed.

Lemma exact_le (a b : Qc) : (a <= b)%js = true <-> (a <= b)%Qc.
Proof. apply bool_decide_eq_true. Qed.

Lemma exact_lt_false (a b : Qc) : (a < b)%js = false <-> (b <= a)%Qc.
Proof.
  unfold jlt; simpl. rewrite bool_decide_eq_false. split.
  - apply Qcnot_lt_le.
  - apply Qcle_not_lt.
Qed.

Lemma exact_le_false (a b : Qc) : (a <= b)%js = false <-> (b < a)%Qc.
Proof.
  unfold jle; simpl. rewrite bool_decide_eq_false. split.
  - apply Qcnot_le_lt.
  - apply Qclt_not_le.
Qed.

Lemma exact_gt_zero (a b : Qc) : (a - b > jnat 0)%js = true <-> (b < a)%Qc.
Proof.
  rewrite exact_lt. change (jnat 0) with (Qc_of_Z 0). rewrite Z2Qc_inj_0.
  symmetry. apply Qclt_minus_iff.
Qed.

Lemma exact_gt_zero_false (a b : Qc) : (a - b > jnat 0)%js = false <-> (a <= b)%Qc.
Proof.
  rewrite <- not_true_iff_false, exact_gt_zero. split.
  - apply Qcnot_lt_le.
  - apply Qcle_not_lt.
Qed.

(** Sorting with the comparator [(a, b) => key(a) - key(b)] orders the
    elements by [key]. *)
Lemma sort_insert_sorted {A} (key : A -> Qc) (a : A) (l : list A) :
  StronglySorted (fun x y => (key x <= key y)%Qc) l ->
  StronglySorted (fun x y => (key x <= key y)%Qc)
                 (sort_insert (fun x y => (key x - key y)%js) a l).
Proof.
  induction 1 as [|b l Hl IH Hb]; cbn [sort_insert].
  - repeat constructor.
  - destruct (key a - key b > jnat 0)%js eqn:E.
    + apply exact_gt_zero in E. constructor; [exact IH|].
      rewrite sort_insert_perm. constructor; [now apply Qclt_le_weak | exact Hb].
    + apply exact_gt_zero_false in E. constructor; [now constructor|].
      constructor; [exact E|].
      eapply Forall_impl; [|exact Hb]. intros c Hc. simpl in Hc.
      eapply Qcle_trans; [exact E | exact Hc].
Qed.

Lemma sort_sorted {A} (key : A -> Qc) (l : list A) :
  StronglySorted (fun x y => (key x <= key y)%Qc)
                 (sort (fun x y => (key x - key y)%js) l).
Proof.
  induction l as [|a l IH]; cbn [sort]; [constructor | now apply sort_insert_sorted].
Qed.

Lemma sorted_lookup {A} (key : A -> Qc) (l : list A) i j x y :
  StronglySorted (fun x y => (key x <= key y)%Qc) l ->
  (i < j)%nat -> l !! i = Some x -> l !! j = Some y -> (key x <= key y)%Qc.
Proof.
  intros Hl. revert i j. induction Hl as [|a l Hl IH Ha]; intros i j Hij Hx Hy.
  - inversion Hx.
  - destruct j as [|j]; [lia|]. simpl in Hy. destruct i as [|i]; simpl in Hx.
    + injection Hx as <-. rewrite Forall_forall in Ha.
      apply Ha. eapply list_elem_of_In, list_elem_of_lookup_2, Hy.
    + apply (IH i j); [lia | exact Hx | exact Hy].
Qed.

Lemma dispersion_against_bounds (p : GazePoint.t Qc) rest maxDist :
  (maxDist <= dispersion_against p rest maxDist)%Qc
  /\ forall q, q ∈ rest ->
       (distance (GazePoint.x q) (GazePoint.y q) (GazePoint.x p) (GazePoint.y p)
        <= dispersion_against p rest maxDist)%Qc.
Proof.
  revert maxDist. induction rest as [|r rest IH]; intros maxDist; cbn [dispersion_against].
  - split; [apply Qcle_refl | intros q Hq; inversion Hq].
  - cbv zeta. fold (distance (GazePoint.x r) (GazePoint.y r) (GazePoint.x p) (GazePoint.y p)).
    set (dist := distance _ _ _ _).
    destruct (IH (if (dist > maxDist)%js then dist else maxDist)) as [Hacc Hrest].
    assert (Hmax : (maxDist <= (if (dist > maxDist)%js then dist else maxDist))%Qc
                   /\ (dist <= (if (dist > maxDist)%js then dist else maxDist))%Qc).
    { destruct (maxDist < dist)%js eqn:E.
      - apply exact_lt in E. split; [now apply Qclt_le_weak | apply Qcle_refl].
      - apply exact_lt_false in E. split; [apply Qcle_refl | exact E]. }
    split; [eapply Qcle_trans; [apply Hmax | exact Hacc]|].
    intros q Hq. apply elem_of_cons in Hq as [->|Hq].
    + eapply Qcle_trans; [apply Hmax | exact Hacc].
    + now apply Hrest.
Qed.

Lemma dispersion_pairs_bounds (points : list (GazePoint.t Qc)) maxDist :
  (maxDist <= dispersion_pairs points maxDist)%Qc
  /\ forall i j p q, (i < j)%nat -> points !! i = Some p -> points !! j = Some q ->
       (distance (GazePoint.x q) (GazePoint.y q) (GazePoint.x p) (GazePoint.y p)
        <= dispersion_pairs points maxDist)%Qc.
Proof.
  revert maxDist. induction points as [|r points IH]; intros maxDist; cbn [dispersion_pairs].
  - split; [apply Qcle_refl | intros i j p q _ Hp; inversion Hp].
  - destruct (IH (dispersion_against r points maxDist)) as [Hacc Hrest].
    destruct (dispersion_against_bounds r points maxDist) as [Hm Hr].
    split; [eapply Qcle_trans; [exact Hm | exact Hacc]|].
    intros i j p q Hij Hp Hq. destruct j as [|j]; [lia|]. simpl in Hq.
    destruct i as [|i]; simpl in Hp.
    + injection Hp as <-. eapply Qcle_trans; [|exact Hacc].
      apply Hr. eapply list_elem_of_lookup_2, Hq.
    + apply (Hrest i j); [lia | exact Hp | exact Hq].
Qed.

(** [calculateDispersion] is an upper bound of the distance of every two
    points of the list. *)
Lemma calculateDispersion_upper_bound (points : list (GazePoint.t Qc)) i j p q :
  (i < j)%nat -> points !! i = Some p -> points !! j = Some q ->
  (distance (GazePoint.x q) (GazePoint.y q) (GazePoint.x p) (GazePoint.y p)
   <= calculateDispersion points)%Qc.
Proof.
  intros Hij Hp Hq. unfold calculateDispersion.
  destruct (Nat.ltb_spec (length points) 2) as [Hshort|_].
  - apply lookup_lt_Some in Hq. lia.
  - now apply (proj2 (dispersion_pairs_bounds points (jnat 0)) i j).
Qed.

(** *** Dwell time on exact numbers *)

Lemma qsum_nil : qsum [] = 0%Qc.
Proof. reflexivity. Qed.

Lemma qsum_cons (a : Qc) (l : list Qc) : qsum (a :: l) = (a + qsum l)%Qc.
Proof. reflexivity. Qed.

Lemma fold_add_qsum {A} (g : A -> Qc) (l : list A) (init : Qc) :
  fold_left (fun sum a => (sum + g a)%js) l init = (init + qsum (map g l))%Qc.
Proof.
  revert init. induction l as [|a l IH]; intros init; cbn [fold_left map].
  - rewrite qsum_nil. ring.
  - rewrite IH, qsum_cons. cbn [jadd exact]. ring.
Qed.

Lemma exact_zero : @jnat Qc (exact sq) 0 = 0%Qc.
Proof. change (jnat 0) with (Qc_of_Z 0). apply Z2Qc_inj_0. Qed.

Lemma sum_durations_qsum (fs : list (Fixation.t Qc)) :
  sum_durations fs = qsum (map Fixation.duration fs).
Proof. unfold sum_durations. rewrite fold_add_qsum, exact_zero. ring. Qed.










End ExactNumbers.

(** ** Fixation detection: thresholds *)

Section Inclusive.
Context {num : Type} `{JSNumber num}.

(** Two points in time order, further apart in time than the minimum
    duration, whose dispersion is the threshold itself, are one fixation. *)
Lemma threshold_is_inclusive (p q : GazePoint.t num) (dispersionThreshold minDuration : num) :
  (GazePoint.timestamp p - GazePoint.timestamp q > jnat 0)%js = false ->
  ((GazePoint.timestamp p - GazePoint.timestamp p) * jnat 1000 < minDuration)%js = true ->
  ((GazePoint.timestamp q - GazePoint.timestamp p) * jnat 1000 < minDuration)%js = false ->
  ((GazePoint.timestamp q - GazePoint.timestamp p) * jnat 1000 >= minDuration)%js = true ->
  calculateDispersion [p; q] = dispersionThreshold ->
  (dispersionThreshold <= dispersionThreshold)%js = true ->
  exists f,
    detectFixationsIDT [p; q] dispersionThreshold minDuration = Normal [f]
    /\ Fixation.points f = [p; q]
    /\ calculateDispersion (Fixation.points f) = dispersionThreshold.
Proof.
  intros Hsorted Hshort Hspan Hlong Hdisp Hrefl.
  unfold detectFixationsIDT, sort_by_timestamp.
  cbn [length Nat.ltb Nat.leb sort sort_insert]. rewrite Hsorted.
  cbn [length]. rewrite idt_loop_S. cbn [length Nat.ltb Nat.leb].
  rewrite initial_window_S. cbn [length Nat.ltb Nat.leb index lookup list_lookup].
  rewrite !bind_Normal, Hshort.
  rewrite initial_window_S. cbn [length Nat.ltb Nat.leb index lookup list_lookup].
  rewrite !bind_Normal, Hspan, bind_Normal.
  cbn [length Nat.leb Nat.add slice Nat.sub take drop].
  rewrite Hdisp, Hrefl.
  rewrite expand_window_S. cbn [length Nat.ltb Nat.leb Nat.add]. rewrite bind_Normal.
  cbn [length index lookup list_lookup Nat.sub]. rewrite !bind_Normal.
  cbv zeta. rewrite Hlong.
  rewrite idt_loop_S. cbn [length Nat.ltb Nat.leb Nat.add app].
  eexists. split; [reflexivity|]. split; [reflexivity | exact Hdisp].
Qed.

End Inclusive.

(** ** Transition matrices *)

Section Totals.
Context {V : Type} (g : V -> nat).

Lemma total_insert (m : gmap string V) (i : string) (x : V) :
  (map_fold (fun _ v acc => g v + acc) 0 (<[i:=x]> m)
   + match m !! i with Some y => g y | None => 0 end
   = g x + map_fold (fun _ v acc => g v + acc) 0 m)%nat.
Proof.
  assert (Hcomm : forall (z1 z2 : V) (y : nat),
             (g z1 + (g z2 + y) = g z2 + (g z1 + y))%nat) by (intros; lia).
  destruct (m !! i) as [y|] eqn:E.
  - rewrite (map_fold_delete_L _ _ i y m) by first [exact E | intros; apply Hcomm].
    rewrite <- (insert_delete_eq m i x).
    rewrite map_fold_insert_L by first [apply lookup_delete_eq | intros; apply Hcomm].
    lia.
  - rewrite map_fold_insert_L by first [exact E | intros; apply Hcomm]. lia.
Qed.

End Totals.

Lemma count_transition_eq (m : gmap string (gmap string nat)) (prevName currName : string) :
  count_transition m prevName currName
  = <[prevName := <[currName := S (transition_count m prevName currName)]>
                    (default ∅ (m !! prevName))]> m.
Proof.
  unfold count_transition, transition_count.
  destruct (m !! prevName) as [row|] eqn:E; cbn [default from_option id mbind option_bind].
  - rewrite bool_decide_eq_true_2 by eauto. rewrite E. cbn [default from_option id].
    now rewrite Nat.add_1_r.
  - rewrite bool_decide_eq_false_2 by (intros [? ?]; discriminate).
    rewrite lookup_insert_eq. cbn [default from_option id]. rewrite lookup_empty. cbn [default from_option id].
    now rewrite insert_insert_eq.
Qed.

Lemma matrix_total_count_transition (m : gmap string (gmap string nat))
    (prevName currName : string) :
  matrix_total (count_transition m prevName currName) = S (matrix_total m).
Proof.
  rewrite count_transition_eq. unfold matrix_total, transition_count.
  set (row := default ∅ (m !! prevName)).
  set (n := default 0 (m !! prevName ≫= fun row => row !! currName)).
  pose proof (total_insert row_total m prevName (<[currName := S n]> row)) as Hm.
  pose proof (total_insert (fun k : nat => k) row currName (S n)) as Hr.
  change (row_total (<[currName := S n]> row) + match row !! currName with
                                                 | Some y => y
                                                 | None => 0
                                                 end
          = S n + row_total row)%nat in Hr.
  assert (Hn : n = match row !! currName with Some y => y | None => 0%nat end).
  { unfold n, row. destruct (m !! prevName) as [r|]; cbn [default from_option id mbind option_bind].
    - now destruct (r !! currName).
    - now rewrite lookup_empty. }
  rewrite <- Hn in Hr.
  assert (Hrow : match m !! prevName with Some y => row_total y | None => 0%nat end
                 = row_total row).
  { unfold row. destruct (m !! prevName) as [r|]; cbn [default from_option id]; [reflexivity|].
    unfold row_total. now rewrite map_fold_empty. }
  rewrite Hrow in Hm. lia.
Qed.

Lemma transition_count_count_transition (m : gmap string (gmap string nat))
    (prevName currName p c : string) :
  transition_count (count_transition m prevName currName) p c
  = (transition_count m p c
     + if bool_decide ((prevName, currName) = (p, c)) then 1 else 0)%nat.
Proof.
  rewrite count_transition_eq. unfold transition_count at 1.
  destruct (decide (prevName = p)) as [->|Hp].
  - rewrite lookup_insert_eq. cbn [mbind option_bind].
    destruct (decide (currName = c)) as [->|Hc].
    + rewrite lookup_insert_eq, bool_decide_eq_true_2 by reflexivity.
      cbn [default from_option id]. lia.
    + rewrite lookup_insert_ne by exact Hc.
      rewrite bool_decide_eq_false_2 by congruence.
      unfold transition_count. destruct (m !! p) as [row|]; cbn [default from_option id mbind option_bind].
      * lia.
      * rewrite lookup_empty. cbn [default from_option id]. lia.
  - rewrite lookup_insert_ne by exact Hp.
    rewrite bool_decide_eq_false_2 by congruence.
    unfold transition_count. lia.
Qed.

Section Transitions.
Context {num : Type} `{JSNumber num}.

Lemma adjacent_pairs_cons {A} (a b : A) (l : list A) :
  adjacent_pairs (a :: b :: l) = (a, b) :: adjacent_pairs (b :: l).
Proof. reflexivity. Qed.

Lemma count_pairs_cons (p c a b : string) (l : list string) :
  count_pairs p c (a :: b :: l)
  = ((if bool_decide ((a, b) = (p, c)) then 1 else 0) + count_pairs p c (b :: l))%nat.
Proof.
  unfold count_pairs. rewrite adjacent_pairs_cons. cbn [List.filter].
  destruct (bool_decide _); reflexivity.
Qed.

Lemma transition_loop_total (aois : list (AOI.t num)) prev rest m :
  matrix_total (transition_loop aois prev rest m) = (matrix_total m + length rest)%nat.
Proof.
  revert prev m. induction rest as [|curr rest IH]; intros prev m; cbn [transition_loop length].
  - lia.
  - rewrite IH, matrix_total_count_transition. lia.
Qed.

Lemma transition_loop_count (aois : list (AOI.t num)) prev rest m p c :
  transition_count (transition_loop aois prev rest m) p c
  = (transition_count m p c
     + count_pairs p c (map (fun f => scanpath_label f aois) (prev :: rest)))%nat.
Proof.
  revert prev m. induction rest as [|curr rest IH]; intros prev m; cbn [transition_loop].
  - cbn [map]. unfold count_pairs, adjacent_pairs. cbn [tail zip zip_with List.filter length].
    lia.
  - rewrite IH, transition_count_count_transition. cbn [map].
    rewrite count_pairs_cons. lia.
Qed.

End Transitions.

(** ** Entry counts *)

Lemma filter_seq_shift (P : nat -> bool) (n s : nat) :
  length (List.filter P (seq (S s) n))
  = length (List.filter (fun i => P (S i)) (seq s n)).
Proof.
  revert s. induction n as [|n IH]; intros s; cbn [seq List.filter]; [reflexivity|].
  destruct (P (S s)); cbn [length]; now rewrite IH.
Qed.

Lemma edge_after_cons (prev b : bool) (inside : list bool) (i : nat) :
  edge_after prev (b :: inside) (S i) = edge_after b inside i.
Proof. unfold edge_after. now destruct i. Qed.

Section Entries.
Context {num : Type} `{JSNumber num}.

Lemma entry_loop_edges (aoi : AOI.t num) (fixations : list (Fixation.t num))
    (entryCount : nat) (wasInAOI : bool) :
  entry_loop aoi fixations entryCount wasInAOI
  = (entryCount
     + length (List.filter
                 (edge_after wasInAOI
                    (map (fun f => isPointInAOI (Fixation.x f) (Fixation.y f) aoi)
                         fixations))
                 (seq 0 (length fixations))))%nat.
Proof.
  revert entryCount wasInAOI.
  induction fixations as [|f fixations IH]; intros entryCount wasInAOI;
    cbn [entry_loop map length seq]; [cbn [List.filter length]; lia|].
  rewrite IH.
  set (inside := map (fun f => isPointInAOI (Fixation.x f) (Fixation.y f) aoi) fixations).
  set (b := isPointInAOI (Fixation.x f) (Fixation.y f) aoi).
  assert (Htail : length (List.filter (edge_after wasInAOI (b :: inside))
                                      (seq 1 (length fixations)))
                  = length (List.filter (edge_after b inside) (seq 0 (length fixations)))).
  { rewrite filter_seq_shift.
    now rewrite (List.filter_ext _ _ (edge_after_cons wasInAOI b inside)). }
  cbn [List.filter]. unfold edge_after at 2. cbn [nth].
  destruct b, wasInAOI; cbn [andb negb length]; rewrite Htail; lia.
Qed.

End Entries.

(** ** The heap: what each function leaves behind *)

Section HeapFacts.
Context {num : Type} `{JSNumber num}.
Implicit Types (h : gmap loc (array num)) (l : loc).

Lemma run_bind_eq {A B} (c : Run num A) (k : A -> Run num B) h :
  (c ≫= k) h
  = match c h with
    | (Normal a, h') => k a h'
    | (Throw e, h') => (Throw e, h')
    | (OutOfFuel, h') => (OutOfFuel, h')
    end.
Proof. reflexivity. Qed.

Lemma run_bind_Normal {A B} (c : Run num A) (k : A -> Run num B) h a h' :
  c h = (Normal a, h') -> (c ≫= k) h = k a h'.
Proof. intros E. now rewrite run_bind_eq, E. Qed.

Lemma read_gaze_eq h l elements :
  h !! l = Some (GazeArray elements) -> read_gaze l h = (Normal elements, h).
Proof. intros E. unfold read_gaze, read. rewrite run_bind_eq. now rewrite E. Qed.

Lemma read_fixations_eq h l elements :
  h !! l = Some (FixationArray elements) -> read_fixations l h = (Normal elements, h).
Proof. intros E. unfold read_fixations, read. rewrite run_bind_eq. now rewrite E. Qed.

Lemma read_aois_eq h l elements :
  h !! l = Some (AOIArray elements) -> read_aois l h = (Normal elements, h).
Proof. intros E. unfold read_aois, read. rewrite run_bind_eq. now rewrite E. Qed.

Lemma fresh_unused h : h !! fresh (dom h) = None.
Proof. apply not_elem_of_dom, is_fresh. Qed.

Lemma spread_eq h l a :
  h !! l = Some a ->
  spread l h = (Normal (fresh (dom h)), <[fresh (dom h) := a]> h).
Proof. intros E. unfold spread, read. rewrite run_bind_eq. now rewrite E. Qed.

Lemma sort_gaze_in_place_eq h l elements :
  h !! l = Some (GazeArray elements) ->
  sort_gaze_in_place l h = (Normal tt, <[l := GazeArray (sort_by_timestamp elements)]> h).
Proof.
  intros E. unfold sort_gaze_in_place.
  now rewrite (run_bind_Normal _ _ _ _ _ (read_gaze_eq _ _ _ E)).
Qed.

Lemma sort_fixations_in_place_eq h l elements :
  h !! l = Some (FixationArray elements) ->
  sort_fixations_in_place l h
  = (Normal tt, <[l := FixationArray (sort_by_start elements)]> h).
Proof.
  intros E. unfold sort_fixations_in_place.
  now rewrite (run_bind_Normal _ _ _ _ _ (read_fixations_eq _ _ _ E)).
Qed.

Lemma mret_eq {A} (a : A) h : (mret a : Run num A) h = (Normal a, h).
Proof. reflexivity. Qed.

Lemma lift_eq {A} (c : completion A) h : lift c h = (c, h).
Proof. reflexivity. Qed.

Lemma alloc_eq (a : array num) h :
  alloc a h = (Normal (fresh (dom h)), <[fresh (dom h) := a]> h).
Proof. reflexivity. Qed.

Lemma write_eq l (a : array num) h : write l a h = (Normal tt, <[l := a]> h).
Proof. reflexivity. Qed.

(** Writing to an array allocated since keeps the arrays of [h]. *)
Lemma keep_insert h h' l (a : array num) :
  h !! l = None -> h ⊆ h' -> h ⊆ <[l := a]> h'.
Proof. intros Hl Hsub. now apply insert_subseteq_r. Qed.

Lemma keep_fresh h h' : h ⊆ h' -> h !! fresh (dom h') = None.
Proof.
  intros Hsub. destruct (h !! fresh (dom h')) as [a|] eqn:E; [|reflexivity].
  apply (lookup_weaken _ _ _ _ E) in Hsub. now rewrite fresh_unused in Hsub.
Qed.

Lemma calculateDwellTime_run_spec h fixations aois fs rects :
  h !! fixations = Some (FixationArray fs) ->
  h !! aois = Some (AOIArray rects) ->
  calculateDwellTime_run fixations aois h = (Normal (calculateDwellTime fs rects), h).
Proof.
  intros Ef Ea. unfold calculateDwellTime_run.
  rewrite (run_bind_Normal _ _ _ _ _ (read_fixations_eq _ _ _ Ef)).
  now rewrite (run_bind_Normal _ _ _ _ _ (read_aois_eq _ _ _ Ea)).
Qed.

Lemma calculateScanpathMetrics_run_spec h fixations aois fs rects :
  h !! fixations = Some (FixationArray fs) ->
  h !! aois = Some (AOIArray rects) ->
  exists h',
    calculateScanpathMetrics_run fixations aois h
    = (Normal (calculateScanpathMetrics fs rects), h')
    /\ h ⊆ h'.
Proof.
  intros Ef Ea. unfold calculateScanpathMetrics_run, calculateScanpathMetrics.
  rewrite (run_bind_Normal _ _ _ _ _ (read_fixations_eq _ _ _ Ef)).
  destruct (length fs =? 0)%nat; [exists h; split; reflexivity|].
  rewrite (run_bind_Normal _ _ _ _ _ (spread_eq _ _ _ Ef)).
  rewrite (run_bind_Normal _ _ _ _ _
             (sort_fixations_in_place_eq _ _ fs (lookup_insert_eq _ _ _))).
  rewrite (run_bind_Normal _ _ _ _ _
             (read_fixations_eq _ _ (sort_by_start fs) (lookup_insert_eq _ _ _))).
  assert (Hsub : h ⊆ <[fresh (dom h) := FixationArray (sort_by_start fs)]>
                       (<[fresh (dom h) := FixationArray fs]> h))
    by (apply keep_insert, keep_insert;
        [apply fresh_unused | apply fresh_unused | reflexivity]).
  rewrite (run_bind_Normal _ _ _ _ _ (read_aois_eq _ _ _ (lookup_weaken _ _ _ _ Ea Hsub))).
  eexists. split; [reflexivity | exact Hsub].
Qed.

Lemma calculateFirstFixation_run_spec h fixations aois fs rects videoStartTime :
  h !! fixations = Some (FixationArray fs) ->
  h !! aois = Some (AOIArray rects) ->
  exists h',
    calculateFirstFixation_run fixations aois videoStartTime h
    = (Normal (calculateFirstFixation fs rects videoStartTime), h')
    /\ h ⊆ h'.
Proof.
  intros Ef Ea. unfold calculateFirstFixation_run, calculateFirstFixation.
  rewrite (run_bind_Normal _ _ _ _ _ (spread_eq _ _ _ Ef)).
  rewrite (run_bind_Normal _ _ _ _ _
             (sort_fixations_in_place_eq _ _ fs (lookup_insert_eq _ _ _))).
  rewrite (run_bind_Normal _ _ _ _ _
             (read_fixations_eq _ _ (sort_by_start fs) (lookup_insert_eq _ _ _))).
  assert (Hsub : h ⊆ <[fresh (dom h) := FixationArray (sort_by_start fs)]>
                       (<[fresh (dom h) := FixationArray fs]> h))
    by (apply keep_insert, keep_insert;
        [apply fresh_unused | apply fresh_unused | reflexivity]).
  rewrite (run_bind_Normal _ _ _ _ _ (read_aois_eq _ _ _ (lookup_weaken _ _ _ _ Ea Hsub))).
  eexists. split; [reflexivity | exact Hsub].
Qed.

Lemma detectFixationsIDT_run_spec h gazePoints elements dispersionThreshold minDuration :
  h !! gazePoints = Some (GazeArray elements) ->
  exists fixations fs h',
    detectFixationsIDT_run gazePoints dispersionThreshold minDuration h
    = (Normal fixations, h')
    /\ detectFixationsIDT elements dispersionThreshold minDuration = Normal fs
    /\ h' !! fixations = Some (FixationArray fs)
    /\ h ⊆ h'.
Proof.
  intros Eg. unfold detectFixationsIDT_run.
  rewrite (run_bind_Normal _ _ _ _ _ (read_gaze_eq _ _ _ Eg)).
  destruct (detectFixationsIDT_returns elements dispersionThreshold minDuration)
    as (fs & Efs & _).
  exists (fresh (dom h)), fs. pose proof Efs as Eloop. unfold detectFixationsIDT in Eloop.
  destruct (length elements <? 2)%nat.
  - injection Eloop as <-. eexists. split; [apply alloc_eq|].
    split; [exact Efs|]. split; [apply lookup_insert_eq|].
    apply insert_subseteq, fresh_unused.
  - rewrite (run_bind_Normal _ _ _ _ _ (alloc_eq _ _)).
    set (fixations := fresh (dom h)).
    set (h1 := <[fixations := FixationArray []]> h).
    assert (Hsub1 : h ⊆ h1) by apply insert_subseteq, fresh_unused.
    assert (Eg1 : h1 !! gazePoints = Some (GazeArray elements))
      by apply (lookup_weaken _ _ _ _ Eg Hsub1).
    rewrite (run_bind_Normal _ _ _ _ _ (spread_eq _ _ _ Eg1)).
    set (sortedPoints := fresh (dom h1)).
    rewrite (run_bind_Normal _ _ _ _ _
               (sort_gaze_in_place_eq _ _ elements (lookup_insert_eq _ _ _))).
    rewrite insert_insert_eq.
    rewrite (run_bind_Normal _ _ _ _ _
               (read_gaze_eq _ _ (sort_by_timestamp elements) (lookup_insert_eq _ _ _))).
    rewrite (run_bind_Normal _ _ _ _ _
               (eq_trans (lift_eq _ _) (f_equal (fun c => (c, _)) Eloop))).
    rewrite (run_bind_Normal _ _ _ _ _ (write_eq _ _ _)).
    eexists. split; [apply mret_eq|]. split; [exact Efs|].
    split; [apply lookup_insert_eq|].
    apply keep_insert; [apply fresh_unused|].
    apply keep_insert; [apply keep_fresh, Hsub1 | exact Hsub1].
Qed.

(** The whole analysis returns what [analyzeGazeData] computes from the
    elements of the two arrays, and the heap it leaves holds every array of
    the heap it started from, unchanged. *)
Lemma analyzeGazeData_run_spec h gazePoints aois elements rects options :
  h !! gazePoints = Some (GazeArray elements) ->
  h !! aois = Some (AOIArray rects) ->
  exists result h',
    analyzeGazeData_run gazePoints aois options h = (Normal result, h')
    /\ analyzeGazeData elements rects options = Normal result
    /\ h ⊆ h'.
Proof.
  intros Eg Ea. unfold analyzeGazeData_run, analyzeGazeData.
  destruct (detectFixationsIDT_run_spec h gazePoints elements
              (default DEFAULT_DISPERSION_THRESHOLD (Options.dispersionThreshold options))
              (default DEFAULT_MIN_FIXATION_DURATION (Options.minFixationDuration options))
              Eg) as (fixations & fs & h1 & Erun & Efs & Ef1 & Hsub1).
  rewrite (run_bind_Normal _ _ _ _ _ Erun), Efs, bind_Normal.
  assert (Ea1 : h1 !! aois = Some (AOIArray rects)) by apply (lookup_weaken _ _ _ _ Ea Hsub1).
  rewrite (run_bind_Normal _ _ _ _ _ (calculateDwellTime_run_spec _ _ _ _ _ Ef1 Ea1)).
  destruct (calculateScanpathMetrics_run_spec h1 fixations aois fs rects Ef1 Ea1)
    as (h2 & Escan & Hsub2).
  rewrite (run_bind_Normal _ _ _ _ _ Escan).
  assert (Ef2 : h2 !! fixations = Some (FixationArray fs))
    by apply (lookup_weaken _ _ _ _ Ef1 Hsub2).
  assert (Ea2 : h2 !! aois = Some (AOIArray rects)) by apply (lookup_weaken _ _ _ _ Ea1 Hsub2).
  destruct (calculateFirstFixation_run_spec h2 fixations aois fs rects
              (default (jnat 0) (Options.videoStartTime options)) Ef2 Ea2)
    as (h3 & Efirst & Hsub3).
  rewrite (run_bind_Normal _ _ _ _ _ Efirst).
  assert (Ef3 : h3 !! fixations = Some (FixationArray fs))
    by apply (lookup_weaken _ _ _ _ Ef2 Hsub3).
  rewrite (run_bind_Normal _ _ _ _ _ (read_fixations_eq _ _ _ Ef3)).
  eexists _, h3. split; [apply mret_eq|]. split; [reflexivity|].
  etransitivity; [exact Hsub1|]. etransitivity; [exact Hsub2 | exact Hsub3].
Qed.

End HeapFacts.

(** ** Labels of fixations outside every AOI *)

Section Labels.
Context {num : Type} `{JSNumber num}.

Lemma findAOIForFixation_find (f : Fixation.t num) (aois : list (AOI.t num)) :
  findAOIForFixation f aois
  = List.find (fun a => isPointInAOI (Fixation.x f) (Fixation.y f) a) aois.
Proof.
  induction aois as [|aoi aois IH]; cbn [findAOIForFixation List.find]; [reflexivity|].
  now destruct (isPointInAOI _ _ aoi).
Qed.

(** The collapsed sequence keeps every label that occurs. *)
Lemma sequence_loop_contains (aois : list (AOI.t num)) (fixations : list (Fixation.t num))
    (aoiSequence : list string) (lastAOI : option string) (name : string) :
  (forall l, lastAOI = Some l -> l ∈ aoiSequence) ->
  name ∈ aoiSequence \/ (exists f, f ∈ fixations /\ scanpath_label f aois = name) ->
  name ∈ sequence_loop aois fixations aoiSequence lastAOI.
Proof.
  revert aoiSequence lastAOI.
  induction fixations as [|f fixations IH]; intros aoiSequence lastAOI Hlast Hname;
    cbn [sequence_loop].
  - destruct Hname as [Hin|(f & Hf & _)]; [exact Hin | inversion Hf].
  - destruct (bool_decide_reflect (Some (scanpath_label f aois) <> lastAOI)) as [Hnew|Hsame].
    + apply IH.
      * intros l [= <-]. apply elem_of_app. right. apply list_elem_of_singleton. reflexivity.
      * destruct Hname as [Hin|(g & Hg & Eg)].
        -- left. apply elem_of_app. now left.
        -- apply elem_of_cons in Hg as [->|Hg].
           ++ left. apply elem_of_app. right. now apply list_elem_of_singleton.
           ++ right. now exists g.
    + apply IH; [exact Hlast|].
      destruct Hname as [Hin|(g & Hg & Eg)]; [now left|].
      apply elem_of_cons in Hg as [->|Hg]; [|right; now exists g].
      left. rewrite <- Eg. apply Hlast.
      destruct (decide (Some (scanpath_label f aois) = lastAOI)) as [E|E];
        [now symmetry | contradiction].
Qed.

Lemma aoiSequence_contains_labels (fixations : list (Fixation.t num))
    (aois : list (AOI.t num)) (f : Fixation.t num) :
  f ∈ fixations ->
  scanpath_label f aois
  ∈ ScanpathMetrics.aoiSequence (calculateScanpathMetrics fixations aois).
Proof.
  intros Hf. unfold calculateScanpathMetrics.
  destruct fixations as [|f0 fixations]; [inversion Hf|]. cbn [length Nat.eqb].
  unfold scanpath_of_sorted.
  destruct (match sort_by_start (f0 :: fixations) with
            | [] => _
            | first :: rest => _
            end) as [totalLength saccadeAmplitudes].
  cbn [ScanpathMetrics.aoiSequence].
  apply sequence_loop_contains; [discriminate|].
  right. exists f. split; [|reflexivity].
  unfold sort_by_start. now rewrite sort_perm.
Qed.

Lemma transition_matrix_counts_pairs (fixations : list (Fixation.t num))
    (aois : list (AOI.t num)) (prevName currName : string) :
  transition_count
    (ScanpathMetrics.aoiTransitionMatrix (calculateScanpathMetrics fixations aois))
    prevName currName
  = count_pairs prevName currName
      (map (fun f => scanpath_label f aois) (sort_by_start fixations)).
Proof.
  unfold calculateScanpathMetrics.
  destruct fixations as [|f0 fixations]; [reflexivity|]. cbn [length Nat.eqb].
  unfold scanpath_of_sorted.
  destruct (sort_by_start (f0 :: fixations)) as [|first rest]; [reflexivity|].
  destruct (saccade_loop first rest (jnat 0) []) as [totalLength saccadeAmplitudes].
  cbn [ScanpathMetrics.aoiTransitionMatrix].
  rewrite transition_loop_count. unfold transition_count at 1. now rewrite lookup_empty.
Qed.

(** [analyzeGazeData] returns. *)
Lemma analyzeGazeData_returns (gazePoints : list (GazePoint.t num))
    (aois : list (AOI.t num)) (options : Options.t num) :
  exists result, analyzeGazeData gazePoints aois options = Normal result.
Proof.
  unfold analyzeGazeData.
  destruct (detectFixationsIDT_returns gazePoints
              (default DEFAULT_DISPERSION_THRESHOLD (Options.dispersionThreshold options))
              (default DEFAULT_MIN_FIXATION_DURATION (Options.minFixationDuration options)))
    as (fs & E & _).
  rewrite E, bind_Normal. eexists. reflexivity.
Qed.

End Labels.

(** ** The model at work on binary64

    The scenarios the specification lists, run on the numbers the program
    runs on.  A decimal literal such as [0.51] denotes the binary64 value
    nearest to it, which is the correctly rounded quotient [51 / 100]. *)

Section Scenarios.

Let dec (n d : nat) : float := (jnat n / jnat d)%js.
Let sample (t x y : float) : GazePoint.t float := GazePoint.mk t 0%float x y 0%float 0%float.
Let gaze : list (GazePoint.t float) :=
  [sample 0%float (dec 5 10) (dec 5 10);
   sample (dec 5 100) (dec 51 100) (dec 49 100);
   sample (dec 12 100) (dec 50 100) (dec 50 100);
   sample (dec 30 100) (dec 9 10) (dec 9 10)].
Let centre : AOI.t float :=
  AOI.mk "centre" "Centre" "red" (Bounds.mk (dec 4 10) (dec 4 10) (dec 2 10) (dec 2 10)).

Example dispersion_of_a_repeated_point :
  calculateDispersion [sample 0%float 0.5%float 0.5%float; sample 1%float 0.5%float 0.5%float;
                       sample 2%float 0.5%float 0.5%float] = 0%float.
Proof. vm_compute. reflexivity. Qed.

Example dispersion_of_two_points :
  calculateDispersion [sample 0%float 0%float 0%float; sample 1%float 1%float 0%float]
  = 1%float.
Proof. vm_compute. reflexivity. Qed.

Example centroid_of_the_unit_square :
  calculateCentroid [sample 0%float 0%float 0%float; sample 0%float 1%float 0%float;
                     sample 0%float 0%float 1%float; sample 0%float 1%float 1%float]
  = (0.5%float, 0.5%float).
Proof. vm_compute. reflexivity. Qed.

Example one_fixation_of_three_points :
  exists f,
    detectFixationsIDT gaze DEFAULT_DISPERSION_THRESHOLD DEFAULT_MIN_FIXATION_DURATION
    = Normal [f]
    /\ Fixation.id f = 1%nat
    /\ Fixation.points f = take 3 gaze
    /\ Fixation.duration f = 120%float
    /\ (calculateDispersion (Fixation.points f) <= dec 15 1000)%js = true.
Proof. eexists. split; [vm_compute; reflexivity|]. repeat split; vm_compute; reflexivity. Qed.

Example the_order_of_the_samples_does_not_matter :
  detectFixationsIDT (reverse gaze) DEFAULT_DISPERSION_THRESHOLD DEFAULT_MIN_FIXATION_DURATION
  = detectFixationsIDT gaze DEFAULT_DISPERSION_THRESHOLD DEFAULT_MIN_FIXATION_DURATION.
Proof. vm_compute. reflexivity. Qed.

Example all_dwell_time_in_the_centre :
  exists r,
    analyzeGazeData gaze [centre] (Options.mk None None None) = Normal r
    /\ DwellTimeStats.fixationCount <$> AnalysisResult.dwellTimeStats r = [1; 0]%nat
    /\ DwellTimeStats.percentOfTotal <$> AnalysisResult.dwellTimeStats r
       = [100%float; 0%float].
Proof. eexists. split; [vm_compute; reflexivity|]. split; vm_compute; reflexivity. Qed.

Example no_aoi_all_outside :
  exists r,
    analyzeGazeData gaze [] (Options.mk None None None) = Normal r
    /\ DwellTimeStats.aoiName <$> AnalysisResult.dwellTimeStats r = ["Outside AOIs"]
    /\ DwellTimeStats.percentOfTotal <$> AnalysisResult.dwellTimeStats r = [100%float].
Proof. eexists. split; [vm_compute; reflexivity|]. split; vm_compute; reflexivity. Qed.

(** Sorting in place does reorder the array it is called on: what
    [analyzeGazeData] keeps from the caller's arrays, it keeps by copying
    them first. *)
Example sort_in_place_reorders :
  let h : gmap loc (array float) :=
    {[ 1%positive := GazeArray [sample 1%float 0.5%float 0.5%float;
                                sample 0%float 0.5%float 0.5%float] ]} in
  (snd (sort_gaze_in_place 1%positive h)) !! 1%positive
  = Some (GazeArray [sample 0%float 0.5%float 0.5%float;
                     sample 1%float 0.5%float 0.5%float]).
Proof. vm_compute. reflexivity. Qed.

End Scenarios.

(** ** Binary64: the comparisons order the values that are not NaN *)

Lemma SFcompare_rank (x y : spec_float) :
  x <> S754_nan -> y <> S754_nan ->
  SFcompare x y = Some (lex_compare (binary64_rank x) (binary64_rank y)).
Proof.
  intros Hx Hy. destruct x as [sx|sx| |sx mx ex], y as [sy|sy| |sy my ey]; try congruence;
    try (destruct sx; reflexivity); try (destruct sy; reflexivity);
    try (destruct sx, sy; reflexivity).
  destruct sx, sy; try reflexivity; unfold lex_compare; cbn [SFcompare binary64_rank fst snd Z.compare].
  rewrite Z.compare_opp, (Z.compare_antisym ey ex).
  destruct (ey ?= ex)%Z; reflexivity.
Qed.

Lemma lex_compare_refl a : lex_compare a a = Eq.
Proof. unfold lex_compare. now rewrite !Z.compare_refl. Qed.

Lemma lex_compare_le a b : lex_compare a b <> Gt <-> lex_le a b.
Proof.
  unfold lex_compare, lex_le.
  destruct (Z.compare_spec a.1.1 b.1.1), (Z.compare_spec a.1.2 b.1.2),
    (Z.compare_spec a.2 b.2); split; intros; try congruence; try lia.
Qed.

Lemma lex_compare_lt a b : lex_compare a b = Lt <-> ~ lex_le b a.
Proof.
  unfold lex_compare, lex_le.
  destruct (Z.compare_spec a.1.1 b.1.1), (Z.compare_spec a.1.2 b.1.2),
    (Z.compare_spec a.2 b.2); split; intros; try congruence; try lia.
Qed.

Lemma SFcompare_nan (x y : spec_float) :
  x = S754_nan \/ y = S754_nan -> SFcompare x y = None.
Proof. intros [-> | ->]; [reflexivity | now destruct x]. Qed.

Lemma is_nan_false (x : float) : is_nan x = false <-> Prim2SF x <> S754_nan.
Proof.
  unfold is_nan. rewrite FloatAxioms.eqb_spec. unfold SFeqb. split.
  - intros E Hnan. rewrite (SFcompare_nan _ _ (or_introl Hnan)) in E. discriminate.
  - intros Hx. now rewrite (SFcompare_rank _ _ Hx Hx), lex_compare_refl.
Qed.

Lemma SF_nan_dec (s : spec_float) : {s = S754_nan} + {s <> S754_nan}.
Proof. destruct s; [right; discriminate.. | left; reflexivity | right; discriminate]. Qed.

Lemma SFleb_iff (s t : spec_float) :
  SFleb s t = true
  <-> s <> S754_nan /\ t <> S754_nan /\ lex_le (binary64_rank s) (binary64_rank t).
Proof.
  unfold SFleb.
  destruct (SF_nan_dec s) as [Hs|Hs];
    [rewrite SFcompare_nan by (now left); split; [discriminate | tauto]|].
  destruct (SF_nan_dec t) as [Ht|Ht];
    [rewrite SFcompare_nan by (now right); split; [discriminate | tauto]|].
  rewrite (SFcompare_rank s t Hs Ht).
  pose proof (lex_compare_le (binary64_rank s) (binary64_rank t)) as Hc.
  destruct (lex_compare (binary64_rank s) (binary64_rank t)); split; try discriminate;
    try (intros _; repeat split; try assumption; apply Hc; discriminate).
  intros (_ & _ & Hle). apply Hc in Hle. congruence.
Qed.

Lemma SFltb_iff (s t : spec_float) :
  SFltb s t = true
  <-> s <> S754_nan /\ t <> S754_nan /\ ~ lex_le (binary64_rank t) (binary64_rank s).
Proof.
  unfold SFltb.
  destruct (SF_nan_dec s) as [Hs|Hs];
    [rewrite SFcompare_nan by (now left); split; [discriminate | tauto]|].
  destruct (SF_nan_dec t) as [Ht|Ht];
    [rewrite SFcompare_nan by (now right); split; [discriminate | tauto]|].
  rewrite (SFcompare_rank s t Hs Ht).
  pose proof (lex_compare_lt (binary64_rank s) (binary64_rank t)) as Hc.
  destruct (lex_compare (binary64_rank s) (binary64_rank t)); split; try discriminate;
    try (intros _; repeat split; try assumption; now apply Hc);
    intros (_ & _ & Hle); apply Hc in Hle; congruence.
Qed.

Lemma float_le_iff (x y : float) :
  (x <=? y)%float = true
  <-> is_nan x = false /\ is_nan y = false /\ lex_le (binary64_rank (Prim2SF x)) (binary64_rank (Prim2SF y)).
Proof.
  rewrite FloatAxioms.leb_spec. split.
  - intros (Hx & Hy & Hle)%SFleb_iff. now rewrite <- !is_nan_false in *.
  - intros (Hx & Hy & Hle). apply SFleb_iff. now rewrite <- !is_nan_false.
Qed.

Lemma float_lt_iff (x y : float) :
  (x <? y)%float = true
  <-> is_nan x = false /\ is_nan y = false
      /\ ~ lex_le (binary64_rank (Prim2SF y)) (binary64_rank (Prim2SF x)).
Proof.
  rewrite FloatAxioms.ltb_spec. split.
  - intros (Hx & Hy & Hle)%SFltb_iff. now rewrite <- !is_nan_false in *.
  - intros (Hx & Hy & Hle). apply SFltb_iff. now rewrite <- !is_nan_false.
Qed.

Lemma float_le_trans (a b c : float) :
  (a <=? b)%float = true -> (b <=? c)%float = true -> (a <=? c)%float = true.
Proof.
  rewrite !float_le_iff. unfold lex_le. intros (Ha & _ & Hab) (_ & Hc & Hbc).
  split; [exact Ha|]. split; [exact Hc | lia].
Qed.

Lemma float_le_refl (a : float) : is_nan a = false -> (a <=? a)%float = true.
Proof. rewrite float_le_iff. unfold lex_le. intros Ha. repeat split; try exact Ha. lia. Qed.

Lemma float_lt_le (a b : float) : (a <? b)%float = true -> (a <=? b)%float = true.
Proof.
  rewrite float_lt_iff, float_le_iff. unfold lex_le. intros (Ha & Hb & Hab).
  split; [exact Ha|]. split; [exact Hb | lia].
Qed.

Lemma float_lt_numbers (a b : float) :
  (a <? b)%float = true -> is_nan a = false /\ is_nan b = false.
Proof. rewrite float_lt_iff. tauto. Qed.

Lemma float_not_lt_le (a b : float) :
  is_nan a = false -> is_nan b = false -> (a <? b)%float = false -> (b <=? a)%float = true.
Proof.
  intros Ha Hb Hlt. apply float_le_iff. split; [exact Hb|]. split; [exact Ha|].
  destruct (decide (lex_le (binary64_rank (Prim2SF b)) (binary64_rank (Prim2SF a)))) as [Hle|Hnle];
    [exact Hle|].
  rewrite (proj2 (float_lt_iff a b)) in Hlt by tauto. discriminate.
Qed.

Lemma float_le_not_lt (a b : float) : (a <=? b)%float = true -> (b <? a)%float = false.
Proof.
  intros Hle. apply not_true_iff_false. rewrite float_lt_iff.
  apply float_le_iff in Hle. tauto.
Qed.

(** ** The dispersion as an upper bound, for any ordered numbers *)

Section OrderedNumbers.
Context {num : Type} `{JSNumber num}.
Variable is_number : num -> bool.
Hypothesis zero_is_number : is_number (jnat 0) = true.
Hypothesis lt_numbers :
  forall a b, (a < b)%js = true -> is_number a = true /\ is_number b = true.
Hypothesis lt_le : forall a b, (a < b)%js = true -> (a <= b)%js = true.
Hypothesis not_lt_le :
  forall a b, is_number a = true -> is_number b = true ->
    (a < b)%js = false -> (b <= a)%js = true.
Hypothesis le_refl : forall a, is_number a = true -> (a <= a)%js = true.
Hypothesis le_trans :
  forall a b c, (a <= b)%js = true -> (b <= c)%js = true -> (a <= c)%js = true.

Lemma dispersion_against_covers (p : GazePoint.t num) rest maxDist :
  is_number maxDist = true ->
  is_number (dispersion_against p rest maxDist) = true
  /\ (maxDist <= dispersion_against p rest maxDist)%js = true
  /\ forall q, q ∈ rest ->
       is_number (distance (GazePoint.x q) (GazePoint.y q)
                           (GazePoint.x p) (GazePoint.y p)) = true ->
       (distance (GazePoint.x q) (GazePoint.y q) (GazePoint.x p) (GazePoint.y p)
        <= dispersion_against p rest maxDist)%js = true.
Proof using All.
  revert maxDist. induction rest as [|r rest IH]; intros maxDist Hacc;
    cbn [dispersion_against].
  - split; [exact Hacc|]. split; [now apply le_refl | intros q Hq; inversion Hq].
  - cbv zeta. fold (distance (GazePoint.x r) (GazePoint.y r) (GazePoint.x p) (GazePoint.y p)).
    set (dist := distance _ _ _ _).
    assert (Hmax : is_number (if (dist > maxDist)%js then dist else maxDist) = true
                   /\ (maxDist <= (if (dist > maxDist)%js then dist else maxDist))%js = true
                   /\ (is_number dist = true ->
                       (dist <= (if (dist > maxDist)%js then dist else maxDist))%js = true)).
    { destruct (maxDist < dist)%js eqn:E.
      - destruct (lt_numbers _ _ E) as [_ Hdist].
        split; [exact Hdist|]. split; [now apply lt_le | intros _; now apply le_refl].
      - split; [exact Hacc|]. split; [now apply le_refl|].
        intros Hdist. now apply not_lt_le. }
    destruct Hmax as (Hnumber & Hold & Hnew).
    destruct (IH _ Hnumber) as (Hres & Hle & Hrest).
    split; [exact Hres|]. split; [eapply le_trans; eassumption|].
    intros q Hq Hd. apply elem_of_cons in Hq as [->|Hq].
    + eapply le_trans; [now apply Hnew | exact Hle].
    + now apply Hrest.
Qed.

Lemma dispersion_pairs_covers (points : list (GazePoint.t num)) maxDist :
  is_number maxDist = true ->
  is_number (dispersion_pairs points maxDist) = true
  /\ (maxDist <= dispersion_pairs points maxDist)%js = true
  /\ forall i j p q, (i < j)%nat -> points !! i = Some p -> points !! j = Some q ->
       is_number (distance (GazePoint.x q) (GazePoint.y q)
                           (GazePoint.x p) (GazePoint.y p)) = true ->
       (distance (GazePoint.x q) (GazePoint.y q) (GazePoint.x p) (GazePoint.y p)
        <= dispersion_pairs points maxDist)%js = true.
Proof using All.
  revert maxDist. induction points as [|r points IH]; intros maxDist Hacc;
    cbn [dispersion_pairs].
  - split; [exact Hacc|]. split; [now apply le_refl | intros i j p q _ Hp; inversion Hp].
  - destruct (dispersion_against_covers r points maxDist Hacc) as (Hnumber & Hm & Hr).
    destruct (IH _ Hnumber) as (Hres & Hle & Hrest).
    split; [exact Hres|]. split; [eapply le_trans; eassumption|].
    intros i j p q Hij Hp Hq Hd. destruct j as [|j]; [lia|]. simpl in Hq.
    destruct i as [|i]; simpl in Hp.
    + injection Hp as <-. eapply le_trans; [|exact Hle].
      apply Hr; [eapply list_elem_of_lookup_2, Hq | exact Hd].
    + apply (Hrest i j); [lia | exact Hp | exact Hq | exact Hd].
Qed.

(** [calculateDispersion] is a number, and an upper bound of every distance
    of two points of the list that is a number. *)
Lemma calculateDispersion_covers (points : list (GazePoint.t num)) :
  is_number (calculateDispersion points) = true
  /\ forall i j p q, (i < j)%nat -> points !! i = Some p -> points !! j = Some q ->
       is_number (distance (GazePoint.x q) (GazePoint.y q)
                           (GazePoint.x p) (GazePoint.y p)) = true ->
       (distance (GazePoint.x q) (GazePoint.y q) (GazePoint.x p) (GazePoint.y p)
        <= calculateDispersion points)%js = true.
Proof using All.
  unfold calculateDispersion.
  destruct (Nat.ltb_spec (length points) 2) as [Hshort|_].
  - split; [exact zero_is_number|].
    intros i j p q Hij _ Hq. apply lookup_lt_Some in Hq. lia.
  - destruct (dispersion_pairs_covers points (jnat 0) zero_is_number) as (Hn & _ & Hall).
    split; [exact Hn | exact Hall].
Qed.

End OrderedNumbers.

(** On binary64 the numbers are the values that are not NaN. *)
Lemma binary64_dispersion_covers (points : list (GazePoint.t float)) i j p q :
  (i < j)%nat -> points !! i = Some p -> points !! j = Some q ->
  is_nan (distance (GazePoint.x q) (GazePoint.y q) (GazePoint.x p) (GazePoint.y p)) = false ->
  (distance (GazePoint.x q) (GazePoint.y q) (GazePoint.x p) (GazePoint.y p)
   <= calculateDispersion points)%js = true.
Proof.
  intros Hij Hp Hq Hd.
  refine (proj2 (@calculateDispersion_covers float ieee (fun a => negb (is_nan a))
                   _ _ float_lt_le _ _ float_le_trans points) i j p q Hij Hp Hq _).
  - vm_compute. reflexivity.
  - intros a b [-> ->]%float_lt_numbers. now split.
  - intros a b Ha%negb_true_iff Hb%negb_true_iff. now apply float_not_lt_le.
  - intros a Ha%negb_true_iff. now apply float_le_refl.
  - now rewrite Hd.
Qed.

(** ** Binary64: the sign of a difference *)

Lemma digits2_pos_size (m : positive) : digits2_pos m = Pos.size m.
Proof. induction m as [m IH|m IH|]; cbn [digits2_pos Pos.size]; congruence. Qed.

Lemma digits2_pos_bounds (m : positive) :
  (2 ^ (Z.pos (digits2_pos m) - 1) <= Z.pos m < 2 ^ Z.pos (digits2_pos m))%Z.
Proof.
  rewrite digits2_pos_size. split.
  - pose proof (Pos.size_le m) as Hle.
    assert (H2 : (Z.pos (2 ^ Pos.size m) <= Z.pos m~0)%Z) by exact Hle.
    rewrite Pos2Z.inj_pow in H2.
    replace (Z.pos (Pos.size m)) with (Z.succ (Z.pos (Pos.size m) - 1)) in H2 by lia.
    rewrite Z.pow_succ_r in H2 by lia. lia.
  - pose proof (Pos.size_gt m) as Hgt.
    assert (H2 : (Z.pos m < Z.pos (2 ^ Pos.size m))%Z) by exact Hgt.
    now rewrite Pos2Z.inj_pow in H2.
Qed.

(** What [valid_binary] says about a finite value: at most 53 digits, and
    53 of them unless the exponent is the smallest one. *)
Lemma bounded_canonical (m : positive) (e : Z) :
  bounded prec emax m e = true ->
  (-1074 <= e <= 971)%Z
  /\ (Z.pos (digits2_pos m) <= 53)%Z
  /\ (Z.pos (digits2_pos m) = 53 \/ e = -1074)%Z.
Proof.
  unfold bounded, canonical_mantissa, fexp, SpecFloat.emin, prec, emax.
  intros [Hc He]%andb_true_iff. apply Z.eqb_eq in Hc. apply Z.leb_le in He.
  change IntDef.Z.max with Z.max in Hc. lia.
Qed.

Lemma shl_align_value (m : positive) (e ez : Z) :
  (ez <= e)%Z ->
  Z.pos (fst (shl_align m e ez)) = (Z.pos m * 2 ^ (e - ez))%Z.
Proof.
  intros Hle. unfold shl_align. destruct (ez - e)%Z as [|d|d] eqn:Ed; cbn [fst].
  - replace (e - ez)%Z with 0%Z by lia. lia.
  - lia.
  - change (Pos.iter xO m d) with (shift_pos d m). rewrite shift_pos_correct.
    replace (e - ez)%Z with (Z.pos d) by lia. rewrite Z.pow_pos_fold. lia.
Qed.

(** Among valid positive values the exponent decides, then the mantissa. *)
Lemma canonical_order (mx my : positive) (ex ey : Z) :
  bounded prec emax mx ex = true -> bounded prec emax my ey = true ->
  (Z.pos (fst (shl_align my ey (Z.min ex ey))) < Z.pos (fst (shl_align mx ex (Z.min ex ey))))%Z
  <-> (ey < ex \/ ey = ex /\ Z.pos my < Z.pos mx)%Z.
Proof.
  intros (Hex & Hdx & Hnx)%bounded_canonical (Hey & Hdy & Hny)%bounded_canonical.
  rewrite !shl_align_value by lia.
  pose proof (digits2_pos_bounds mx) as Hmx. pose proof (digits2_pos_bounds my) as Hmy.
  assert (Hx53 : (Z.pos mx < 2 ^ 53)%Z).
  { eapply Z.lt_le_trans; [apply Hmx|]. apply Z.pow_le_mono_r; lia. }
  assert (Hy53 : (Z.pos my < 2 ^ 53)%Z).
  { eapply Z.lt_le_trans; [apply Hmy|]. apply Z.pow_le_mono_r; lia. }
  destruct (Z.lt_trichotomy ey ex) as [Hlt|[Heq|Hgt]].
  - replace (Z.min ex ey) with ey by lia. rewrite Z.sub_diag, Z.pow_0_r, Z.mul_1_r.
    assert (Hd : Z.pos (digits2_pos mx) = 53%Z) by lia.
    rewrite Hd in Hmx. change (53 - 1)%Z with 52%Z in Hmx.
    assert (Hp : (2 ^ 1 <= 2 ^ (ex - ey))%Z) by (apply Z.pow_le_mono_r; lia).
    change (2 ^ 1)%Z with 2%Z in Hp.
    change (2 ^ 53)%Z with (2 ^ 52 * 2)%Z in Hy53.
    split; [intros _; now left|]. intros _.
    eapply Z.lt_le_trans; [exact Hy53|].
    apply Z.mul_le_mono_nonneg; lia.
  - subst ey. replace (Z.min ex ex) with ex by lia.
    rewrite Z.sub_diag, Z.pow_0_r, !Z.mul_1_r. lia.
  - replace (Z.min ex ey) with ex by lia. rewrite Z.sub_diag, Z.pow_0_r, Z.mul_1_r.
    assert (Hd : Z.pos (digits2_pos my) = 53%Z) by lia.
    rewrite Hd in Hmy. change (53 - 1)%Z with 52%Z in Hmy.
    assert (Hp : (2 ^ 1 <= 2 ^ (ey - ex))%Z) by (apply Z.pow_le_mono_r; lia).
    change (2 ^ 1)%Z with 2%Z in Hp.
    change (2 ^ 53)%Z with (2 ^ 52 * 2)%Z in Hx53.
    split; [|lia]. intros Hlt. exfalso.
    assert (Hge : (Z.pos mx < Z.pos my * 2 ^ (ey - ex))%Z).
    { eapply Z.lt_le_trans; [exact Hx53|]. apply Z.mul_le_mono_nonneg; lia. }
    lia.
Qed.

(** The aligned mantissas of two valid finite values, with their signs,
    compare as the values do. *)
Lemma aligned_order (sx sy : bool) (mx my : positive) (ex ey : Z) :
  bounded prec emax mx ex = true -> bounded prec emax my ey = true ->
  (0 < cond_Zopp sx (Z.pos (fst (shl_align mx ex (Z.min ex ey))))
       - cond_Zopp sy (Z.pos (fst (shl_align my ey (Z.min ex ey)))))%Z
  <-> ~ lex_le (binary64_rank (S754_finite sx mx ex)) (binary64_rank (S754_finite sy my ey)).
Proof.
  intros Hx Hy.
  pose proof (canonical_order mx my ex ey Hx Hy) as Hxy.
  pose proof (canonical_order my mx ey ex Hy Hx) as Hyx.
  rewrite (Z.min_comm ey ex) in Hyx.
  unfold lex_le, binary64_rank. destruct sx, sy; cbn [cond_Zopp fst snd]; lia.
Qed.

(** Shifting a mantissa to the right by fewer places than it has digits
    leaves a positive mantissa. *)
Lemma shr_1_positive (m : positive) (r s : bool) :
  (1 < Z.pos (digits2_pos m))%Z ->
  exists m' r' s',
    shr_1 (Build_shr_record (Z.pos m) r s) = Build_shr_record (Z.pos m') r' s'
    /\ Z.pos (digits2_pos m') = (Z.pos (digits2_pos m) - 1)%Z.
Proof.
  destruct m as [m|m|]; cbn [shr_1 digits2_pos]; intros Hd.
  - eexists _, _, _. split; [reflexivity | lia].
  - eexists _, _, _. split; [reflexivity | lia].
  - lia.
Qed.

Lemma shr_positive (p : positive) :
  forall (m : positive) (r s : bool),
    (Z.pos p < Z.pos (digits2_pos m))%Z ->
    exists m' r' s',
      SpecFloat.iter_pos shr_1 p (Build_shr_record (Z.pos m) r s) = Build_shr_record (Z.pos m') r' s'
      /\ Z.pos (digits2_pos m') = (Z.pos (digits2_pos m) - Z.pos p)%Z.
Proof.
  induction p as [p IH|p IH|]; intros m r s Hd; cbn [SpecFloat.iter_pos].
  - destruct (shr_1_positive m r s) as (m1 & r1 & s1 & -> & H1); [lia|].
    destruct (IH m1 r1 s1) as (m2 & r2 & s2 & -> & H2); [lia|].
    destruct (IH m2 r2 s2) as (m3 & r3 & s3 & -> & H3); [lia|].
    eexists _, _, _. split; [reflexivity | lia].
  - destruct (IH m r s) as (m2 & r2 & s2 & -> & H2); [lia|].
    destruct (IH m2 r2 s2) as (m3 & r3 & s3 & -> & H3); [lia|].
    eexists _, _, _. split; [reflexivity | lia].
  - destruct (shr_1_positive m r s) as (m1 & r1 & s1 & -> & H1); [lia|].
    eexists _, _, _. split; [reflexivity | lia].
Qed.

Lemma shr_fexp_positive (m : positive) (e : Z) (l : location) :
  (-1074 <= e)%Z ->
  exists m' r' s' e',
    shr_fexp prec emax (Z.pos m) e l = (Build_shr_record (Z.pos m') r' s', e')
    /\ (-1074 <= e')%Z.
Proof.
  intros He. unfold shr_fexp, shr.
  assert (Hrecord : exists r s, shr_record_of_loc (Z.pos m) l = Build_shr_record (Z.pos m) r s)
    by (destruct l as [|[]]; eexists _, _; reflexivity).
  destruct Hrecord as (r & s & ->).
  destruct (fexp prec emax (Zdigits2 (Z.pos m) + e) - e)%Z as [|p|p] eqn:En.
  - eexists _, _, _, _. split; [reflexivity | exact He].
  - destruct (shr_positive p m r s) as (m' & r' & s' & -> & _).
    + unfold fexp, SpecFloat.emin, prec, emax, Zdigits2 in En.
      change IntDef.Z.max with Z.max in En. lia.
    + eexists _, _, _, _. split; [reflexivity | lia].
  - eexists _, _, _, _. split; [reflexivity | exact He].
Qed.

Lemma round_nearest_even_positive (m : positive) (l : location) :
  exists m', round_nearest_even (Z.pos m) l = Z.pos m'.
Proof.
  destruct l as [|[]]; cbn [round_nearest_even]; try (eexists; reflexivity).
  destruct (IntDef.Z.even (Z.pos m)); eexists; reflexivity.
Qed.

(** Rounding a positive quantity gives a positive number or infinity, never
    zero: the smallest exponent allows for every difference of two
    values. *)
Lemma binary_round_positive (m : positive) (e : Z) :
  (-1074 <= e)%Z ->
  SFltb (S754_zero false) (binary_round prec emax false m e) = true.
Proof.
  intros He. unfold binary_round.
  destruct (shl_align m e (fexp prec emax (Z.pos (digits2_pos m) + e))) as [mz ez] eqn:Ealign.
  assert (Hez : (-1074 <= ez)%Z).
  { unfold shl_align in Ealign.
    destruct (fexp prec emax (Z.pos (digits2_pos m) + e) - e)%Z eqn:En;
      injection Ealign as _ <-; try exact He.
    unfold fexp, SpecFloat.emin, prec, emax. change IntDef.Z.max with Z.max. lia. }
  unfold binary_round_aux.
  destruct (shr_fexp_positive mz ez loc_Exact Hez) as (m1 & r1 & s1 & e1 & -> & He1).
  cbn [shr_m].
  destruct (round_nearest_even_positive m1
              (loc_of_shr_record (Build_shr_record (Z.pos m1) r1 s1))) as (m2 & ->).
  destruct (shr_fexp_positive m2 e1 loc_Exact He1) as (m3 & r3 & s3 & e3 & -> & _).
  cbn [shr_m]. now destruct (e3 <=? emax - prec)%Z.
Qed.

Lemma binary_round_negative (m : positive) (e : Z) :
  SFltb (S754_zero false) (binary_round prec emax true m e) = false.
Proof.
  unfold binary_round.
  destruct (shl_align m e (fexp prec emax (Z.pos (digits2_pos m) + e))) as [mz ez].
  unfold binary_round_aux.
  destruct (shr_fexp prec emax (Z.pos mz) ez loc_Exact) as [mrs1 e1].
  destruct (shr_fexp prec emax _ e1 loc_Exact) as [mrs2 e2].
  destruct (shr_m mrs2); [reflexivity | | reflexivity].
  now destruct (e2 <=? emax - prec)%Z.
Qed.

(** The test [x - y > 0] of a comparator decides [x > y] on values that are
    not NaN. *)
Lemma SFsub_positive (x y : spec_float) :
  valid_binary x = true -> valid_binary y = true ->
  x <> S754_nan -> y <> S754_nan ->
  SFltb (S754_zero false) (SF64sub x y) = SFltb y x.
Proof.
  intros Vx Vy Hx Hy.
  destruct x as [sx|sx| |sx mx ex]; [| |congruence|];
    (destruct y as [sy|sy| |sy my ey]; [| |congruence|]);
    try (destruct sx, sy; reflexivity); try (destruct sx; reflexivity);
    try (destruct sy; reflexivity).
  cbn [SpecFloat.valid_binary] in Vx, Vy.
  unfold SF64sub, SFsub. cbv zeta. change IntDef.Z.min with Z.min.
  pose proof (aligned_order sx sy mx my ex ey Vx Vy) as Horder.
  pose proof (SFltb_iff (S754_finite sy my ey) (S754_finite sx mx ex)) as Hlt.
  assert (Hmin : (-1074 <= Z.min ex ey)%Z).
  { apply bounded_canonical in Vx, Vy. lia. }
  destruct (cond_Zopp sx _ - cond_Zopp sy _)%Z as [|d|d] eqn:Ed;
    cbn [binary_normalize].
  - symmetry. apply not_true_iff_false. intros Hy'%Hlt. destruct Hy' as (_ & _ & Hy').
    apply Horder in Hy'. lia.
  - rewrite binary_round_positive by exact Hmin. symmetry. apply Hlt.
    split; [discriminate|]. split; [discriminate|]. apply Horder. lia.
  - rewrite binary_round_negative. symmetry. apply not_true_iff_false.
    intros Hy'%Hlt. destruct Hy' as (_ & _ & Hy'). apply Horder in Hy'. lia.
Qed.

Lemma float_sub_positive (a b : float) :
  is_nan a = false -> is_nan b = false ->
  (0 <? a - b)%float = (b <? a)%float.
Proof.
  intros Ha%is_nan_false Hb%is_nan_false.
  rewrite !FloatAxioms.ltb_spec, sub_spec.
  change (Prim2SF 0) with (S754_zero false).
  apply SFsub_positive; auto using Prim2SF_valid.
Qed.

(** ** Sorting by a key, for any ordered numbers *)

Lemma StronglySorted_lookup {A} (R : A -> A -> Prop) (l : list A) i j x y :
  StronglySorted R l ->
  (i < j)%nat -> l !! i = Some x -> l !! j = Some y -> R x y.
Proof.
  intros Hl. revert i j. induction Hl as [|a l Hl IH Ha]; intros i j Hij Hx Hy.
  - inversion Hx.
  - destruct j as [|j]; [lia|]. simpl in Hy. destruct i as [|i]; simpl in Hx.
    + injection Hx as <-. rewrite Forall_forall in Ha.
      apply Ha. eapply list_elem_of_In, list_elem_of_lookup_2, Hy.
    + apply (IH i j); [lia | exact Hx | exact Hy].
Qed.

Section SortOrdered.
Context {num : Type} `{JSNumber num} {A : Type} (key : A -> num).
Variable is_number : num -> bool.
Hypothesis after_is_above :
  forall a b, is_number a = true -> is_number b = true ->
    (a - b > jnat 0)%js = true -> (b <= a)%js = true.
Hypothesis before_is_below :
  forall a b, is_number a = true -> is_number b = true ->
    (a - b > jnat 0)%js = false -> (a <= b)%js = true.
Hypothesis le_trans :
  forall a b c, (a <= b)%js = true -> (b <= c)%js = true -> (a <= c)%js = true.

Lemma sort_insert_sorted_numbers (a : A) (l : list A) :
  is_number (key a) = true ->
  Forall (fun x => is_number (key x) = true) l ->
  StronglySorted (fun x y => (key x <= key y)%js = true) l ->
  StronglySorted (fun x y => (key x <= key y)%js = true)
                 (sort_insert (fun x y => (key x - key y)%js) a l).
Proof using All.
  intros Ha Hnumbers Hl. revert Hnumbers.
  induction Hl as [|b l Hl IH Hb]; intros Hnumbers; cbn [sort_insert].
  - repeat constructor.
  - apply list.Forall_cons in Hnumbers as [Hnb Hnumbers].
    destruct (key a - key b > jnat 0)%js eqn:E.
    + constructor; [now apply IH|].
      rewrite sort_insert_perm.
      constructor; [apply after_is_above; [exact Ha | exact Hnb | exact E] | exact Hb].
    + constructor; [now constructor|].
      constructor; [apply before_is_below; [exact Ha | exact Hnb | exact E]|].
      eapply Forall_impl; [|exact Hb]. intros c Hc. simpl in Hc.
      eapply le_trans; [apply before_is_below; [exact Ha | exact Hnb | exact E] | exact Hc].
Qed.

Lemma sort_sorted_numbers (l : list A) :
  Forall (fun x => is_number (key x) = true) l ->
  StronglySorted (fun x y => (key x <= key y)%js = true)
                 (sort (fun x y => (key x - key y)%js) l).
Proof using All.
  induction l as [|a l IH]; intros Hnumbers; cbn [sort]; [constructor|].
  apply list.Forall_cons in Hnumbers as [Ha Hnumbers].
  apply sort_insert_sorted_numbers; [exact Ha | | now apply IH].
  now rewrite sort_perm.
Qed.

End SortOrdered.

(** On binary64, sorting with the comparator [(a, b) => key(a) - key(b)]
    orders the elements by [key] when no key is NaN. *)
Lemma binary64_sort_sorted {A} (key : A -> float) (l : list A) :
  Forall (fun x => is_nan (key x) = false) l ->
  StronglySorted (fun x y => (key x <= key y)%js = true)
                 (sort (fun x y => (key x - key y)%js) l).
Proof.
  intros Hnumbers.
  apply (@sort_sorted_numbers float ieee A key (fun a => negb (is_nan a))).
  - intros a b Ha%negb_true_iff Hb%negb_true_iff Hgt.
    apply float_lt_le. rewrite <- (float_sub_positive a b Ha Hb). exact Hgt.
  - intros a b Ha%negb_true_iff Hb%negb_true_iff Hgt.
    apply (float_not_lt_le b a Hb Ha). rewrite <- (float_sub_positive a b Ha Hb). exact Hgt.
  - exact float_le_trans.
  - eapply Forall_impl; [|exact Hnumbers]. intros x Hx. simpl in Hx. now rewrite Hx.
Qed.

(** ** Fixation detection: the threshold when a window grows *)

Section InclusiveExtension.
Context {num : Type} `{JSNumber num}.

(** Three points in time order: the first two make the initial window, and
    with the third the dispersion is the threshold itself.  The window takes
    the third point. *)
Lemma extension_is_inclusive (p q r : GazePoint.t num) (dispersionThreshold minDuration : num) :
  (GazePoint.timestamp q - GazePoint.timestamp r > jnat 0)%js = false ->
  (GazePoint.timestamp p - GazePoint.timestamp q > jnat 0)%js = false ->
  ((GazePoint.timestamp p - GazePoint.timestamp p) * jnat 1000 < minDuration)%js = true ->
  ((GazePoint.timestamp q - GazePoint.timestamp p) * jnat 1000 < minDuration)%js = false ->
  ((GazePoint.timestamp r - GazePoint.timestamp p) * jnat 1000 >= minDuration)%js = true ->
  (calculateDispersion [p; q] <= dispersionThreshold)%js = true ->
  calculateDispersion [p; q; r] = dispersionThreshold ->
  (dispersionThreshold <= dispersionThreshold)%js = true ->
  exists f,
    detectFixationsIDT [p; q; r] dispersionThreshold minDuration = Normal [f]
    /\ Fixation.points f = [p; q; r]
    /\ calculateDispersion (Fixation.points f) = dispersionThreshold.
Proof.
  intros Hqr Hpq Hshort Hspan Hlong Htight Hdisp Hrefl.
  unfold detectFixationsIDT, sort_by_timestamp.
  cbn [length Nat.ltb Nat.leb sort sort_insert]. rewrite Hqr.
  cbn [sort_insert]. rewrite Hpq.
  cbn [length]. rewrite idt_loop_S. cbn [length Nat.ltb Nat.leb].
  rewrite initial_window_S. cbn [length Nat.ltb Nat.leb index lookup list_lookup].
  rewrite !bind_Normal, Hshort.
  rewrite initial_window_S. cbn [length Nat.ltb Nat.leb index lookup list_lookup].
  rewrite !bind_Normal, Hspan, bind_Normal.
  cbn [length Nat.leb Nat.add slice Nat.sub take drop].
  rewrite Htight.
  rewrite expand_window_S. cbn [length Nat.ltb Nat.leb Nat.add slice Nat.sub take drop].
  cbv zeta. rewrite Hdisp, Hrefl.
  rewrite expand_window_S. cbn [length Nat.ltb Nat.leb Nat.add]. rewrite bind_Normal.
  cbn [length index lookup list_lookup Nat.sub]. rewrite !bind_Normal.
  cbv zeta. rewrite Hlong.
  rewrite idt_loop_S. cbn [length Nat.ltb Nat.leb Nat.add app].
  eexists. split; [reflexivity|]. split; [reflexivity | exact Hdisp].
Qed.

End InclusiveExtension.

(** ** More on the windows of the detected fixations *)

Lemma slice_decompose {A} (arr : list A) (from to : nat) :
  from <= to -> arr = take from arr ++ slice arr from to ++ drop to arr.
Proof.
  intros Hle. unfold slice.
  rewrite <- (take_drop from arr) at 1. f_equal.
  rewrite <- (take_drop (to - from) (drop from arr)) at 1. f_equal.
  rewrite drop_drop. f_equal. lia.
Qed.

Lemma take_slice {A} (arr : list A) (from to : nat) :
  from <= to -> take from arr ++ slice arr from to = take to arr.
Proof.
  intros Hle. unfold slice. rewrite take_take_drop. f_equal. lia.
Qed.

Section MoreDetection.
Context {num : Type} `{JSNumber num}.
Variables (sortedPoints : list (GazePoint.t num)) (dispersionThreshold minDuration : num).

Local Abbreviation window_fixation :=
  (window_fixation sortedPoints dispersionThreshold minDuration).
Local Abbreviation windows_below :=
  (windows_below sortedPoints dispersionThreshold minDuration).

(** Every fixation of the list has its window, below the bound. *)
Lemma windows_below_window fs bound f :
  windows_below fs bound -> f ∈ fs ->
  exists a b, window_fixation f a b /\ (b < bound)%nat.
Proof.
  intros Hw. revert f. induction Hw as [|fs f0 a b bound Hfs IH Hf Hb]; intros f Hin.
  - inversion Hin.
  - apply elem_of_app in Hin as [Hin|Hin].
    + destruct (IH f Hin) as (a' & b' & Hf' & Hb'). exists a', b'. split; [exact Hf'|].
      destruct Hf as [[? ?]]. lia.
    + apply list_elem_of_singleton in Hin as ->. now exists a, b.
Qed.

(** The window of a fixation ends before the window of the next one
    starts. *)
Lemma windows_below_apart fs bound i f g :
  windows_below fs bound ->
  fs !! i = Some f -> fs !! S i = Some g ->
  exists a b a' b',
    window_fixation f a b /\ window_fixation g a' b' /\ (b < a')%nat.
Proof.
  intros Hw. revert i f g.
  induction Hw as [|fs f0 a b bound Hfs IH Hf Hb]; intros i f g Ei ESi.
  - inversion Ei.
  - assert (HSi : (S i < length (fs ++ [f0]))%nat) by (eapply lookup_lt_Some, ESi).
    rewrite length_app in HSi. simpl in HSi.
    rewrite lookup_app_l in Ei by lia.
    destruct (decide (S i < length fs)%nat) as [Hlt|Hge].
    + rewrite lookup_app_l in ESi by lia. now apply (IH i).
    + rewrite lookup_app_r in ESi by lia.
      replace (S i - length fs)%nat with 0%nat in ESi by lia.
      injection ESi as <-.
      destruct (windows_below_window fs a f Hfs) as (a' & b' & Hf' & Hb');
        [eapply list_elem_of_lookup_2, Ei|].
      now exists a', b', a, b.
Qed.

(** The points of the fixations, one fixation after the other, are points
    of the sorted list in the order of that list, none taken twice. *)
Lemma windows_below_sublist fs bound :
  windows_below fs bound ->
  concat (Fixation.points <$> fs) `sublist_of` take bound sortedPoints.
Proof.
  induction 1 as [|fs f a b bound Hfs IH Hf Hb]; [apply sublist_nil_l|].
  rewrite fmap_app, concat_app. cbn [fmap list_fmap concat]. rewrite app_nil_r.
  destruct Hf as [[Hab Hbn] Hpoints]. rewrite Hpoints.
  transitivity (take (b + 1) sortedPoints).
  - rewrite <- (take_slice sortedPoints a (b + 1)) by lia.
    apply sublist_app; [exact IH | reflexivity].
  - replace (take (b + 1) sortedPoints) with (take (b + 1) (take bound sortedPoints))
      by (rewrite take_take; f_equal; lia).
    apply sublist_take.
Qed.

(** What the record of a fixation says about its points. *)
Lemma window_fixation_describes_points f a b :
  window_fixation f a b ->
  Fixation.points f <> []
  /\ Fixation.pointCount f = length (Fixation.points f)
  /\ sortedPoints = take a sortedPoints ++ Fixation.points f ++ drop (b + 1) sortedPoints
  /\ GazePoint.timestamp <$> Fixation.points f !! 0%nat = Some (Fixation.startTime f)
  /\ GazePoint.timestamp <$> list.last (Fixation.points f) = Some (Fixation.endTime f).
Proof.
  intros [[Hab Hbn] Hpoints Hcount Hstart Hend _ _ _ _].
  assert (Hlen : length (Fixation.points f) = (b + 1 - a)%nat)
    by (rewrite Hpoints; apply slice_length; lia).
  split; [intros E; rewrite E in Hlen; simpl in Hlen; lia|].
  split; [now rewrite Hlen|].
  split; [rewrite Hpoints; apply slice_decompose; lia|].
  split.
  - rewrite Hpoints, slice_lookup, Nat.add_0_r by lia. exact Hstart.
  - rewrite last_lookup, Hlen, Hpoints, slice_lookup by lia.
    replace (a + Init.Nat.pred (b + 1 - a))%nat with b by lia. exact Hend.
Qed.

Lemma expand_window_stops fuel windowStart windowEnd windowPoints dispersion
    windowEnd' windowPoints' dispersion' :
  expand_window sortedPoints dispersionThreshold fuel windowStart windowEnd
                windowPoints dispersion
  = Normal (windowEnd', windowPoints', dispersion') ->
  stops_at_violation sortedPoints dispersionThreshold windowStart windowEnd'.
Proof.
  revert windowEnd windowPoints dispersion.
  induction fuel as [|fuel IH]; intros windowEnd windowPoints dispersion E; [discriminate|].
  rewrite expand_window_S in E.
  destruct (Nat.ltb_spec (windowEnd + 1) (length sortedPoints)) as [Hnext|Hlast].
  - cbv zeta in E.
    destruct (jle (calculateDispersion (slice sortedPoints windowStart (windowEnd + 2)))
                  dispersionThreshold) eqn:Etest.
    + now apply IH in E.
    + injection E as <- _ _. intros p _. exact Etest.
  - injection E as <- _ _. intros p Ep. apply lookup_lt_Some in Ep. lia.
Qed.

(** Every recorded fixation has a window that stopped at a violation or at
    the end of the samples. *)
Lemma idt_loop_stops fuel windowStart fixationId fixations fs :
  idt_loop sortedPoints dispersionThreshold minDuration fuel windowStart fixationId
           fixations = Normal fs ->
  Forall (fun f => exists a b,
            Fixation.points f = slice sortedPoints a (b + 1)
            /\ (a <= b < length sortedPoints)%nat
            /\ stops_at_violation sortedPoints dispersionThreshold a b) fixations ->
  Forall (fun f => exists a b,
            Fixation.points f = slice sortedPoints a (b + 1)
            /\ (a <= b < length sortedPoints)%nat
            /\ stops_at_violation sortedPoints dispersionThreshold a b) fs.
Proof.
  revert windowStart fixationId fixations.
  induction fuel as [|fuel IH]; intros windowStart fixationId fixations E Hacc;
    [discriminate|].
  rewrite idt_loop_S in E.
  destruct (Nat.ltb_spec windowStart (length sortedPoints)) as [Hlt|Hge];
    [|injection E as <-; exact Hacc].
  destruct (initial_window_returns sortedPoints minDuration (S (length sortedPoints))
              windowStart windowStart) as (windowEnd & Einit & Hle); [exact Hlt | lia |].
  rewrite Einit, bind_Normal in E.
  destruct (Nat.leb_spec (length sortedPoints) windowEnd) as [Hout|Hin];
    [injection E as <-; exact Hacc|].
  cbv zeta in E.
  destruct (jle (calculateDispersion (slice sortedPoints windowStart (windowEnd + 1)))
                dispersionThreshold) eqn:Etight; [|now apply IH in E].
  destruct (expand_window_returns sortedPoints dispersionThreshold
              (S (length sortedPoints)) windowStart windowEnd
              (slice sortedPoints windowStart (windowEnd + 1))
              (calculateDispersion (slice sortedPoints windowStart (windowEnd + 1))))
    as (windowEnd' & windowPoints & dispersion & Eexp & Hrange & Hwp & Htight);
    [exact Hin | lia | reflexivity | exact Etight |].
  pose proof (expand_window_stops _ _ _ _ _ _ _ _ Eexp) as Hstop.
  rewrite Eexp, bind_Normal in E. cbv beta iota zeta in E.
  destruct (index windowPoints 0) as [first| |]; [|discriminate..].
  rewrite bind_Normal in E.
  destruct (index windowPoints (length windowPoints - 1)) as [last| |]; [|discriminate..].
  rewrite bind_Normal in E.
  destruct (jle minDuration _) in E; [|now apply IH in E].
  apply IH in E; [exact E|].
  apply Forall_app. split; [exact Hacc|]. repeat constructor.
  exists windowStart, windowEnd'. cbn [Fixation.points].
  split; [exact Hwp|]. split; [lia | exact Hstop].
Qed.

End MoreDetection.

Lemma slice_snoc {A} (arr : list A) (from to : nat) (x : A) :
  from <= to -> arr !! to = Some x -> slice arr from (S to) = slice arr from to ++ [x].
Proof.
  intros Hle Ex. unfold slice. replace (S to - from) with (S (to - from)) by lia.
  apply take_S_r. rewrite lookup_drop. now replace (from + (to - from)) with to by lia.
Qed.

Lemma NoDup_fmap_elem_inj {A B} (key : A -> B) (l : list A) (x y : A) :
  NoDup (key <$> l) -> x ∈ l -> y ∈ l -> key x = key y -> x = y.
Proof.
  induction l as [|a l IH]; intros Hnd Hx Hy Hkey; [inversion Hx|].
  rewrite fmap_cons in Hnd. apply list.NoDup_cons in Hnd as [Ha Hnd].
  apply elem_of_cons in Hx as [->|Hx]; apply elem_of_cons in Hy as [->|Hy].
  - reflexivity.
  - exfalso. apply Ha. rewrite Hkey. now apply list_elem_of_fmap_2.
  - exfalso. apply Ha. rewrite <- Hkey. now apply list_elem_of_fmap_2.
  - now apply IH.
Qed.

(** On exact numbers samples with pairwise different timestamps have one
    sorted order, whatever order they come in. *)
Lemma sort_by_timestamp_of_permutation (sq : Qc -> Qc) (l l' : list (GazePoint.t Qc)) :
  l ≡ₚ l' -> NoDup (GazePoint.timestamp <$> l) ->
  @sort_by_timestamp Qc (exact sq) l = @sort_by_timestamp Qc (exact sq) l'.
Proof.
  intros Hperm Hnd.
  apply (stdpp.sorting.StronglySorted_unique_strong
           (fun p q => (GazePoint.timestamp p <= GazePoint.timestamp q)%Qc)).
  - intros p q Hp Hq Hpq Hqp.
    apply (NoDup_fmap_elem_inj GazePoint.timestamp l); [exact Hnd | | |].
    + unfold sort_by_timestamp in Hp. now rewrite sort_perm in Hp.
    + unfold sort_by_timestamp in Hq. now rewrite sort_perm, <- Hperm in Hq.
    + now apply Qcle_antisym.
  - apply (sort_sorted sq).
  - apply (sort_sorted sq).
  - unfold sort_by_timestamp. now rewrite !sort_perm.
Qed.

(** ** More on dwell time, scanpath and first fixations *)

Lemma sum_list_app (l k : list nat) : sum_list (l ++ k) = (sum_list l + sum_list k)%nat.
Proof. apply sum_list_with_app. Qed.

Section MoreAnalysis.
Context {num : Type} `{JSNumber num}.

Lemma existsb_unmatched (aois : list (AOI.t num)) (f : Fixation.t num) :
  negb (existsb (fun aoi => isPointInAOI (Fixation.x f) (Fixation.y f) aoi) aois)
  = unmatched aois f.
Proof.
  unfold unmatched.
  induction aois as [|aoi aois IH]; cbn [existsb findAOIForFixation]; [reflexivity|].
  destruct (isPointInAOI _ _ aoi); [reflexivity | exact IH].
Qed.

Lemma unmatched_matching (aois : list (AOI.t num)) (f : Fixation.t num) :
  unmatched aois f = (length (matching_aois f aois) =? 0)%nat.
Proof.
  unfold unmatched, matching_aois.
  induction aois as [|aoi aois IH]; cbn [findAOIForFixation List.filter]; [reflexivity|].
  destruct (isPointInAOI _ _ aoi); [reflexivity | exact IH].
Qed.

Lemma count_by_aoi_cons (f : Fixation.t num) (fixations : list (Fixation.t num))
    (aois : list (AOI.t num)) :
  sum_list (map (fun aoi => length (List.filter (inside aoi) (f :: fixations))) aois)
  = (length (matching_aois f aois)
     + sum_list (map (fun aoi => length (List.filter (inside aoi) fixations)) aois))%nat.
Proof.
  induction aois as [|aoi aois IHa]; [reflexivity|].
  cbn [map]. change (sum_list (?a :: ?l)) with (a + sum_list l)%nat. rewrite IHa.
  unfold matching_aois. cbn [List.filter]. unfold inside at 1.
  destruct (isPointInAOI _ _ aoi); cbn [length]; lia.
Qed.

(** Counting the fixations of each AOI, or the AOIs of each fixation, gives
    the same total. *)
Lemma count_by_aoi_or_by_fixation (fixations : list (Fixation.t num))
    (aois : list (AOI.t num)) :
  sum_list (map (fun aoi => length (List.filter (inside aoi) fixations)) aois)
  = sum_list (map (fun f => length (matching_aois f aois)) fixations).
Proof.
  induction fixations as [|f fixations IH].
  - cbn [List.filter length map]. induction aois as [|aoi aois IHa]; [reflexivity|].
    cbn [map]. exact IHa.
  - rewrite count_by_aoi_cons, IH. reflexivity.
Qed.

Lemma sum_counts_lower_bound (fixations : list (Fixation.t num)) (aois : list (AOI.t num)) :
  (length fixations
   <= sum_list (map (fun f => length (matching_aois f aois)) fixations)
      + length (List.filter (unmatched aois) fixations))%nat
  /\ ((forall f, f ∈ fixations -> (length (matching_aois f aois) <= 1)%nat) ->
      (sum_list (map (fun f => length (matching_aois f aois)) fixations)
       + length (List.filter (unmatched aois) fixations))%nat
      = length fixations).
Proof.
  induction fixations as [|f fixations [IHle IHeq]]; [split; reflexivity|].
  cbn [map List.filter length]. change (sum_list (?a :: ?l)) with (a + sum_list l)%nat.
  rewrite unmatched_matching.
  split.
  - destruct (length (matching_aois f aois)); cbn [Nat.eqb length]; lia.
  - intros Hone.
    pose proof (Hone f (list_elem_of_here f fixations)) as Hf.
    pose proof (IHeq (fun g Hg => Hone g (list_elem_of_further g f fixations Hg))) as Hfs.
    destruct (length (matching_aois f aois)) as [|[|n]]; cbn [Nat.eqb length]; lia.
Qed.

(** Every record of [calculateDwellTime] is computed from the fixations
    that pass one test. *)
Lemma dwell_record_of_filter (fixations : list (Fixation.t num)) (aois : list (AOI.t num))
    (d : DwellTimeStats.t num) :
  d ∈ calculateDwellTime fixations aois ->
  exists test : Fixation.t num -> bool,
    let counted := List.filter test fixations in
    DwellTimeStats.totalDwellTime d = sum_durations counted
    /\ DwellTimeStats.fixationCount d = length counted
    /\ DwellTimeStats.meanFixationDuration d
       = (if (0 <? length counted)%nat
          then (sum_durations counted / jnat (length counted))%js else jnat 0)
    /\ DwellTimeStats.percentOfTotal d
       = (if (sum_durations fixations > jnat 0)%js
          then (sum_durations counted / sum_durations fixations * jnat 100)%js
          else jnat 0).
Proof.
  unfold calculateDwellTime. intros Hd. apply elem_of_app in Hd as [Hd|Hd].
  - change (map ?f aois) with (f <$> aois) in Hd.
    apply list_elem_of_fmap in Hd as (aoi & -> & _).
    exists (fun f => isPointInAOI (Fixation.x f) (Fixation.y f) aoi). now repeat split.
  - apply list_elem_of_singleton in Hd as ->.
    exists (fun f => negb (existsb (fun aoi => isPointInAOI (Fixation.x f) (Fixation.y f) aoi)
                             aois)).
    now repeat split.
Qed.

End MoreAnalysis.

Section MoreExact.
Variable sq : Qc -> Qc.
Local Hint Extern 0 (JSNumber Qc) => exact (exact sq) : typeclass_instances.

Lemma qsum_nonneg (l : list Qc) : Forall (fun q => (0 <= q)%Qc) l -> (0 <= qsum l)%Qc.
Proof.
  induction 1 as [|q l Hq _ IH]; [apply Qcle_refl|].
  rewrite qsum_cons. rewrite <- (Qcplus_0_r 0). now apply Qcplus_le_compat.
Qed.

Lemma sum_durations_filter_bounds (test : Fixation.t Qc -> bool)
    (fixations : list (Fixation.t Qc)) :
  (forall f, f ∈ fixations -> (0 <= Fixation.duration f)%Qc) ->
  (0 <= sum_durations (List.filter test fixations))%Qc
  /\ (sum_durations (List.filter test fixations) <= sum_durations fixations)%Qc.
Proof.
  rewrite !(sum_durations_qsum sq).
  induction fixations as [|f fixations IH]; intros Hpos; cbn [List.filter map].
  - rewrite qsum_nil. split; apply Qcle_refl.
  - pose proof (Hpos f (list_elem_of_here f fixations)) as Hf.
    destruct (IH (fun g Hg => Hpos g (list_elem_of_further g f fixations Hg))) as [IH0 IHle].
    destruct (test f); cbn [map]; rewrite !qsum_cons.
    + split.
      * rewrite <- (Qcplus_0_r 0). now apply Qcplus_le_compat.
      * apply Qcplus_le_compat; [apply Qcle_refl | exact IHle].
    + split; [exact IH0|].
      rewrite <- (Qcplus_0_l (qsum (map Fixation.duration (List.filter test fixations)))).
      now apply Qcplus_le_compat.
Qed.

Lemma share_bounds (part total : Qc) :
  (0 <= part)%Qc -> (part <= total)%Qc -> (0 < total)%Qc ->
  (0 <= part / total * Qc_of_Z 100)%Qc /\ (part / total * Qc_of_Z 100 <= Qc_of_Z 100)%Qc.
Proof.
  intros Hpart Hle Htotal.
  assert (Hinv : (0 <= / total)%Qc) by now apply Qclt_le_weak, Qcinv_pos.
  assert (H100 : (0 <= Qc_of_Z 100)%Qc) by (rewrite <- Z2Qc_inj_0; now apply Z2Qc_inj_le).
  assert (Hne : total <> 0%Qc) by (intros ->; exact (Qclt_not_le _ _ Htotal (Qcle_refl _))).
  unfold Qcdiv. split.
  - apply Qcmult_nonneg_nonneg; [now apply Qcmult_nonneg_nonneg | exact H100].
  - rewrite <- (Qcmult_1_l (Qc_of_Z 100)) at 2.
    apply Qcmult_le_mono_nonneg_r; [exact H100|].
    rewrite <- (Qcmult_inv_r total Hne).
    now apply Qcmult_le_mono_nonneg_r.
Qed.

End MoreExact.

(** *** The scan path *)

Lemma collapse_cons (a : string) (labels : list string) :
  collapse (a :: labels) = a :: collapse_after (Some a) labels.
Proof.
  revert a. induction labels as [|b labels IH]; intros a; [reflexivity|].
  cbn [collapse_after]. change (collapse (a :: b :: labels))
    with (if bool_decide (a = b) then collapse (b :: labels) else a :: collapse (b :: labels)).
  rewrite IH. destruct (decide (a = b)) as [->|Hab].
  - rewrite bool_decide_true by reflexivity.
    rewrite (bool_decide_false (Some b <> Some b)) by (intros Hn; now apply Hn).
    reflexivity.
  - rewrite bool_decide_false by exact Hab.
    rewrite (bool_decide_true (Some b <> Some a)) by congruence.
    reflexivity.
Qed.

Lemma collapse_after_None (labels : list string) :
  collapse_after None labels = collapse labels.
Proof.
  destruct labels as [|a labels]; [reflexivity|].
  rewrite collapse_cons. cbn [collapse_after].
  now rewrite bool_decide_true by discriminate.
Qed.

Lemma collapse_after_head (last : option string) (labels : list string) (a : string) :
  collapse_after last labels !! 0%nat = Some a -> Some a <> last.
Proof.
  induction labels as [|b labels IH]; cbn [collapse_after]; [discriminate|].
  destruct (decide (Some b <> last)) as [Hb|Hb].
  - rewrite bool_decide_true by exact Hb. intros [= <-]. exact Hb.
  - rewrite bool_decide_false by exact Hb. exact IH.
Qed.

Lemma collapse_after_neighbours (last : option string) (labels : list string)
    (i : nat) (a b : string) :
  collapse_after last labels !! i = Some a ->
  collapse_after last labels !! S i = Some b -> a <> b.
Proof.
  revert last i. induction labels as [|c labels IH]; intros last i; [discriminate|].
  cbn [collapse_after]. destruct (bool_decide (Some c <> last)); [|apply IH].
  destruct i as [|i]; [|apply IH].
  intros [= <-] Hb. apply collapse_after_head in Hb. congruence.
Qed.

Lemma changes_cons (a b : string) (labels : list string) :
  changes (a :: b :: labels)
  = ((if bool_decide (a = b) then 0 else 1) + changes (b :: labels))%nat.
Proof.
  unfold changes. rewrite adjacent_pairs_cons. cbn [List.filter fst snd].
  now destruct (bool_decide (a = b)).
Qed.

Lemma collapse_length (a : string) (labels : list string) :
  length (collapse (a :: labels)) = S (changes (a :: labels)).
Proof.
  revert a. induction labels as [|b labels IH]; intros a; [reflexivity|].
  rewrite changes_cons.
  change (collapse (a :: b :: labels))
    with (if bool_decide (a = b) then collapse (b :: labels) else a :: collapse (b :: labels)).
  destruct (bool_decide (a = b)); cbn [length]; rewrite IH; reflexivity.
Qed.

Section MoreScanpath.
Context {num : Type} `{JSNumber num}.

Lemma sequence_loop_collapse (aois : list (AOI.t num)) (fixations : list (Fixation.t num))
    (aoiSequence : list string) (lastAOI : option string) :
  sequence_loop aois fixations aoiSequence lastAOI
  = aoiSequence ++ collapse_after lastAOI ((fun f => scanpath_label f aois) <$> fixations).
Proof.
  revert aoiSequence lastAOI.
  induction fixations as [|f fixations IH]; intros aoiSequence lastAOI;
    cbn [sequence_loop fmap list_fmap collapse_after]; [now rewrite app_nil_r|].
  cbv zeta. destruct (bool_decide _); rewrite IH; [|reflexivity].
  now rewrite <- app_assoc.
Qed.

Lemma saccade_loop_saccades (prev : Fixation.t num) (rest : list (Fixation.t num))
    (totalLength : num) (saccadeAmplitudes : list num) :
  saccade_loop prev rest totalLength saccadeAmplitudes
  = (fold_left (fun sum a => (sum + a)%js) (saccades (prev :: rest)) totalLength,
     saccadeAmplitudes ++ saccades (prev :: rest)).
Proof.
  revert prev totalLength saccadeAmplitudes.
  induction rest as [|curr rest IH]; intros prev totalLength saccadeAmplitudes;
    cbn [saccade_loop]; [now rewrite app_nil_r|].
  cbv zeta. rewrite IH. unfold saccades. rewrite adjacent_pairs_cons.
  cbn [fmap list_fmap fold_left fst snd]. now rewrite <- app_assoc.
Qed.

Lemma saccades_length (fixations : list (Fixation.t num)) :
  length (saccades fixations) = (length fixations - 1)%nat.
Proof.
  unfold saccades, adjacent_pairs. rewrite length_fmap, length_zip.
  destruct fixations; cbn [tail length]; lia.
Qed.

End MoreScanpath.

(** *** First fixations *)

Lemma filter_length_perm {A} (test : A -> bool) (l l' : list A) :
  l ≡ₚ l' -> length (List.filter test l) = length (List.filter test l').
Proof.
  induction 1 as [|a l l' _ IH|a b l|l l' l'' _ IH _ IH']; cbn [List.filter].
  - reflexivity.
  - destruct (test a); cbn [length]; now rewrite IH.
  - destruct (test a), (test b); reflexivity.
  - now rewrite IH.
Qed.

Lemma filter_elem_of {A} (test : A -> bool) (l : list A) (x : A) :
  x ∈ List.filter test l <-> x ∈ l /\ test x = true.
Proof. rewrite !list_elem_of_In. apply List.filter_In. Qed.

Section MoreFirstFixation.
Context {num : Type} `{JSNumber num}.

Lemma entry_loop_lower (aoi : AOI.t num) (fixations : list (Fixation.t num))
    (entryCount : nat) (wasInAOI : bool) :
  (entryCount <= entry_loop aoi fixations entryCount wasInAOI)%nat.
Proof.
  revert entryCount wasInAOI.
  induction fixations as [|f fixations IH]; intros entryCount wasInAOI;
    cbn [entry_loop]; [lia|].
  cbv zeta. etransitivity; [|apply IH]. destruct (_ && _); lia.
Qed.

Lemma entry_loop_upper (aoi : AOI.t num) (fixations : list (Fixation.t num))
    (entryCount : nat) (wasInAOI : bool) :
  (entry_loop aoi fixations entryCount wasInAOI
   <= entryCount + length (List.filter (inside aoi) fixations))%nat.
Proof.
  revert entryCount wasInAOI.
  induction fixations as [|f fixations IH]; intros entryCount wasInAOI;
    cbn [entry_loop List.filter]; [lia|].
  cbv zeta. etransitivity; [apply IH|]. unfold inside at 2.
  destruct (isPointInAOI _ _ aoi), wasInAOI; cbn [andb negb length]; lia.
Qed.

Lemma entry_loop_enters (aoi : AOI.t num) (fixations : list (Fixation.t num))
    (entryCount : nat) :
  List.filter (inside aoi) fixations <> [] ->
  (entryCount < entry_loop aoi fixations entryCount false)%nat.
Proof.
  revert entryCount.
  induction fixations as [|f fixations IH]; intros entryCount;
    cbn [entry_loop List.filter]; [congruence|].
  cbv zeta. unfold inside at 1.
  destruct (isPointInAOI _ _ aoi); cbn [andb negb].
  - intros _. apply (entry_loop_lower aoi fixations (S entryCount) true).
  - apply IH.
Qed.

Lemma first_fixation_lookup (sortedFixations : list (Fixation.t num))
    (aois : list (AOI.t num)) (videoStartTime : num) (i : nat) (aoi : AOI.t num) :
  aois !! i = Some aoi ->
  first_fixation_of_sorted sortedFixations aois videoStartTime !! i
  = Some (let firstFixation := head (List.filter (inside aoi) sortedFixations) in
          FirstFixationMetrics.mk (AOI.id aoi) (AOI.name aoi)
            (f ← firstFixation;
             Some ((Fixation.startTime f - videoStartTime) * jnat 1000)%js)
            (f ← firstFixation; Some (Fixation.duration f))
            (f ← firstFixation; Some (Fixation.x f))
            (f ← firstFixation; Some (Fixation.y f))
            (entry_loop aoi sortedFixations O false)).
Proof.
  intros Hi. unfold first_fixation_of_sorted.
  change (map ?f aois) with (f <$> aois). rewrite list_lookup_fmap, Hi. reflexivity.
Qed.

Lemma dwell_lookup (fixations : list (Fixation.t num)) (aois : list (AOI.t num))
    (i : nat) (aoi : AOI.t num) :
  aois !! i = Some aoi ->
  exists d, calculateDwellTime fixations aois !! i = Some d
    /\ DwellTimeStats.aoiId d = AOI.id aoi
    /\ DwellTimeStats.fixationCount d = length (List.filter (inside aoi) fixations).
Proof.
  intros Hi. unfold calculateDwellTime. eexists.
  rewrite lookup_app_l by (rewrite length_map; now apply lookup_lt_Some in Hi).
  change (map ?f aois) with (f <$> aois). rewrite list_lookup_fmap, Hi.
  split; [reflexivity|]. split; reflexivity.
Qed.

End MoreFirstFixation.

Section MoreExactOrder.
Variable sq : Qc -> Qc.
Local Hint Extern 0 (JSNumber Qc) => exact (exact sq) : typeclass_instances.

Lemma earliest_of_sorted (test : Fixation.t Qc -> bool) (sorted : list (Fixation.t Qc))
    (f0 : Fixation.t Qc) :
  StronglySorted (fun a b => (Fixation.startTime a <= Fixation.startTime b)%Qc) sorted ->
  head (List.filter test sorted) = Some f0 ->
  f0 ∈ sorted /\ test f0 = true
  /\ forall f, f ∈ sorted -> test f = true ->
       (Fixation.startTime f0 <= Fixation.startTime f)%Qc.
Proof.
  induction 1 as [|a sorted Hsorted IH Ha]; cbn [List.filter]; [discriminate|].
  destruct (test a) eqn:Ea.
  - intros [= <-]. split; [apply list_elem_of_here|]. split; [exact Ea|].
    intros f Hf _. apply elem_of_cons in Hf as [->|Hf]; [apply Qcle_refl|].
    rewrite list.Forall_forall in Ha. now apply Ha.
  - intros Hhead. destruct (IH Hhead) as (Hin & Htest & Hmin).
    split; [now apply list_elem_of_further|]. split; [exact Htest|].
    intros f Hf Hf'. apply elem_of_cons in Hf as [->|Hf]; [congruence|].
    now apply Hmin.
Qed.

End MoreExactOrder.

(** *** Centroids *)

Section MoreExactCentroid.
Variable sq : Qc -> Qc.
Local Hint Extern 0 (JSNumber Qc) => exact (exact sq) : typeclass_instances.

Lemma qsum_between (lo hi : Qc) (l : list Qc) :
  (forall q, q ∈ l -> (lo <= q)%Qc /\ (q <= hi)%Qc) ->
  (Qc_of_Z (Z.of_nat (length l)) * lo <= qsum l)%Qc
  /\ (qsum l <= Qc_of_Z (Z.of_nat (length l)) * hi)%Qc.
Proof.
  induction l as [|q l IH]; intros Hl.
  - cbn [length]. change (Z.of_nat 0) with 0%Z. rewrite Z2Qc_inj_0, qsum_nil, !Qcmult_0_l.
    split; apply Qcle_refl.
  - destruct (Hl q (list_elem_of_here q l)) as [Hlo Hhi].
    destruct (IH (fun r Hr => Hl r (list_elem_of_further r q l Hr))) as [IHlo IHhi].
    cbn [length]. rewrite Nat2Z.inj_succ, <- Z.add_1_l, Z2Qc_inj_add, qsum_cons.
    rewrite Z2Qc_inj_1, !Qcmult_plus_distr_l, !Qcmult_1_l.
    split; now apply Qcplus_le_compat.
Qed.

Lemma mean_between (lo hi : Qc) (l : list Qc) :
  l <> [] ->
  (forall q, q ∈ l -> (lo <= q)%Qc /\ (q <= hi)%Qc) ->
  (lo <= qsum l / Qc_of_Z (Z.of_nat (length l)))%Qc
  /\ (qsum l / Qc_of_Z (Z.of_nat (length l)) <= hi)%Qc.
Proof.
  intros Hne Hl. destruct (qsum_between lo hi l Hl) as [Hlo Hhi].
  set (n := Qc_of_Z (Z.of_nat (length l))) in *.
  assert (Hn : (0 < n)%Qc).
  { subst n. rewrite <- Z2Qc_inj_0. apply (proj1 (Z2Qc_inj_lt _ _)).
    destruct l; [congruence | cbn [length]; lia]. }
  assert (Hn0 : n <> 0%Qc) by (intros E; rewrite E in Hn; exact (Qclt_not_le _ _ Hn (Qcle_refl _))).
  assert (Hinv : (0 <= / n)%Qc) by now apply Qclt_le_weak, Qcinv_pos.
  unfold Qcdiv. split.
  - replace lo with (n * lo * / n)%Qc by (field; exact Hn0).
    now apply Qcmult_le_mono_nonneg_r.
  - replace hi with (n * hi * / n)%Qc by (field; exact Hn0).
    now apply Qcmult_le_mono_nonneg_r.
Qed.

Lemma calculateCentroid_means (points : list (GazePoint.t Qc)) :
  points <> [] ->
  calculateCentroid points
  = ((qsum (map GazePoint.x points) / Qc_of_Z (Z.of_nat (length points)))%Qc,
     (qsum (map GazePoint.y points) / Qc_of_Z (Z.of_nat (length points)))%Qc).
Proof.
  intros Hne. unfold calculateCentroid.
  destruct points as [|p points]; [congruence|].
  cbn [length Nat.eqb]. cbv zeta. rewrite !fold_add_qsum, (exact_zero sq), !Qcplus_0_l.
  reflexivity.
Qed.

Lemma centroid_in_box (points : list (GazePoint.t Qc)) (left right top bottom : Qc) :
  points <> [] ->
  (forall p, p ∈ points ->
     ((left <= GazePoint.x p)%Qc /\ (GazePoint.x p <= right)%Qc)
     /\ (top <= GazePoint.y p)%Qc /\ (GazePoint.y p <= bottom)%Qc) ->
  ((left <= fst (calculateCentroid points))%Qc
   /\ (fst (calculateCentroid points) <= right)%Qc)
  /\ (top <= snd (calculateCentroid points))%Qc
     /\ (snd (calculateCentroid points) <= bottom)%Qc.
Proof.
  intros Hne Hbox. rewrite (calculateCentroid_means points Hne). cbn [fst snd].
  assert (Hx : map GazePoint.x points <> []) by (destruct points; [congruence | discriminate]).
  assert (Hy : map GazePoint.y points <> []) by (destruct points; [congruence | discriminate]).
  pose proof (mean_between left right _ Hx) as Hmx.
  pose proof (mean_between top bottom _ Hy) as Hmy.
  rewrite length_map in Hmx, Hmy.
  split.
  - apply Hmx. intros q Hq.
    change (map ?f ?l) with (f <$> l) in Hq. apply list_elem_of_fmap in Hq as (p & -> & Hp).
    apply (Hbox p Hp).
  - apply Hmy. intros q Hq.
    change (map ?f ?l) with (f <$> l) in Hq. apply list_elem_of_fmap in Hq as (p & -> & Hp).
    apply (Hbox p Hp).
Qed.

End MoreExactCentroid.

(** *** Drawing data *)

Lemma adjacent_pairs_lookup {A} (l : list A) (i : nat) (a b : A) :
  adjacent_pairs l !! i = Some (a, b) <-> l !! i = Some a /\ l !! S i = Some b.
Proof. unfold adjacent_pairs. now rewrite lookup_zip_Some, lookup_tail. Qed.

Lemma adjacent_pairs_length {A} (l : list A) :
  length (adjacent_pairs l) = (length l - 1)%nat.
Proof. unfold adjacent_pairs. rewrite length_zip. destruct l; cbn [tail length]; lia. Qed.

Section MoreDrawing.
Context {num : Type} `{JSNumber num} `{JSMath num}.

Lemma lines_loop_pairs (prev : Fixation.t num) (rest : list (Fixation.t num))
    (lines : list (Line.t num)) :
  lines_loop prev rest lines
  = lines ++ ((fun pc => Line.mk (Fixation.x (fst pc)) (Fixation.y (fst pc))
                                 (Fixation.x (snd pc)) (Fixation.y (snd pc)))
              <$> adjacent_pairs (prev :: rest)).
Proof.
  revert prev lines. induction rest as [|curr rest IH]; intros prev lines;
    cbn [lines_loop]; [now rewrite app_nil_r|].
  rewrite IH, adjacent_pairs_cons. cbn [fmap list_fmap fst snd]. now rewrite <- app_assoc.
Qed.

Lemma drawing_lines (fixations : list (Fixation.t num)) :
  snd (getScanpathDrawingData fixations)
  = (fun pc => Line.mk (Fixation.x (fst pc)) (Fixation.y (fst pc))
                       (Fixation.x (snd pc)) (Fixation.y (snd pc)))
    <$> adjacent_pairs (sort_by_start fixations).
Proof.
  unfold getScanpathDrawingData. cbv zeta. cbn [snd].
  destruct (sort_by_start fixations) as [|first rest]; [reflexivity|].
  now rewrite lines_loop_pairs.
Qed.

End MoreDrawing.

(** *** The AOIs of the video mode *)

Lemma filter_sublist {A} (test : A -> bool) (l : list A) : List.filter test l `sublist_of` l.
Proof.
  induction l as [|a l IH]; cbn [List.filter]; [constructor|].
  destruct (test a); now constructor.
Qed.

Lemma aoi_id_inj (n m : nat) : aoi_id n = aoi_id m -> n = m.
Proof.
  unfold aoi_id. cbn [String.app]. intros [= E]. now apply stdpp.pretty.pretty_nat_inj in E.
Qed.

Section MoreVideoMode.
Context {num : Type} `{JSNumber num} `{JSMath num}.
Variable trim : string -> string.

Lemma updateGazePosition_aois (this : VideoMode.t num) rect currentTime screenX screenY :
  VideoMode.aois (updateGazePosition this rect currentTime screenX screenY)
  = VideoMode.aois this
  /\ VideoMode.nextAoiId (updateGazePosition this rect currentTime screenX screenY)
     = VideoMode.nextAoiId this.
Proof.
  unfold updateGazePosition. cbv zeta.
  destruct (_ && _ && _ && _); [|now split].
  destruct (_ && _); now split.
Qed.

Lemma aois_well_formed_same (this this' : VideoMode.t num) :
  VideoMode.aois this' = VideoMode.aois this ->
  VideoMode.nextAoiId this' = VideoMode.nextAoiId this ->
  aois_well_formed this -> aois_well_formed this'.
Proof. unfold aois_well_formed. intros -> ->. trivial. Qed.

Lemma aois_well_formed_push (this : VideoMode.t num) (aoi : AOI.t num) :
  drawn_size aoi = true ->
  AOI.id aoi = aoi_id (VideoMode.nextAoiId this) ->
  (1 <= VideoMode.nextAoiId this)%nat ->
  aois_well_formed this ->
  aois_well_formed
    (cancelAOIDrawing (set_aois this (VideoMode.aois this ++ [aoi])
                                (S (VideoMode.nextAoiId this)))).
Proof.
  intros Hsize Hid Hnext (Hsizes & Hnodup & Hids). unfold aois_well_formed.
  cbn [cancelAOIDrawing set_drawing set_aois VideoMode.aois VideoMode.nextAoiId].
  split; [|split].
  - intros a Ha. apply elem_of_app in Ha as [Ha|Ha]; [now apply Hsizes|].
    apply list_elem_of_singleton in Ha as ->. exact Hsize.
  - rewrite fmap_app. apply list.NoDup_app. split; [exact Hnodup|].
    split; [|cbn [fmap list_fmap]; apply list.NoDup_singleton].
    intros id Hin Hin'. cbn [fmap list_fmap] in Hin'.
    apply list_elem_of_singleton in Hin'. subst id.
    apply list_elem_of_fmap in Hin as (a & Ea & Ha).
    destruct (Hids a Ha) as (n & Hn & En).
    rewrite Hid, En in Ea. apply aoi_id_inj in Ea. lia.
  - intros a Ha. apply elem_of_app in Ha as [Ha|Ha].
    + destruct (Hids a Ha) as (n & Hn & En). exists n. split; [lia | exact En].
    + apply list_elem_of_singleton in Ha as ->.
      exists (VideoMode.nextAoiId this). split; [lia | exact Hid].
Qed.

Lemma aois_well_formed_delete (this : VideoMode.t num) (id : string) :
  aois_well_formed this -> aois_well_formed (deleteAOI this id).
Proof.
  intros (Hsizes & Hnodup & Hids). unfold aois_well_formed, deleteAOI.
  cbn [set_aois VideoMode.aois VideoMode.nextAoiId].
  split; [|split].
  - intros a Ha. apply filter_elem_of in Ha as [Ha _]. now apply Hsizes.
  - eapply sublist_NoDup; [exact Hnodup|]. apply fmap_sublist, filter_sublist.
  - intros a Ha. apply filter_elem_of in Ha as [Ha _]. now apply Hids.
Qed.

Lemma perform_keeps_counter (this : VideoMode.t num) (a : action) :
  (1 <= VideoMode.nextAoiId this)%nat ->
  (1 <= VideoMode.nextAoiId (perform trim this a))%nat.
Proof.
  intros Hnext. destruct a; cbn [perform]; try exact Hnext.
  - unfold startRecording. now destruct (negb _).
  - unfold pauseRecording. now destruct (negb _).
  - unfold stopRecording. now destruct fullscreenElement.
  - now rewrite (proj2 (updateGazePosition_aois this rect currentTime screenX screenY)).
  - unfold startAOIDrawing. now destruct (bool_decide _).
  - unfold onAOIMouseDown. now destruct (negb _).
  - unfold onAOIMouseUp.
    destruct (VideoMode.isDrawingAOI this); [|exact Hnext].
    destruct (VideoMode.aoiDrawStart this); [|exact Hnext].
    cbv zeta. destruct (_ && _); cbn; lia.
Qed.

Lemma perform_keeps_aois_well_formed (this : VideoMode.t num) (a : action) :
  (1 <= VideoMode.nextAoiId this)%nat ->
  aois_well_formed this -> aois_well_formed (perform trim this a).
Proof.
  intros Hnext Hwf. destruct a; cbn [perform].
  - exact Hwf.
  - unfold startRecording. now destruct (negb _).
  - exact Hwf.
  - exact Hwf.
  - exact Hwf.
  - unfold pauseRecording. now destruct (negb _).
  - unfold stopRecording. now destruct fullscreenElement.
  - destruct (updateGazePosition_aois this rect currentTime screenX screenY) as [Ea En].
    now apply (aois_well_formed_same this).
  - exact Hwf.
  - unfold startAOIDrawing. now destruct (bool_decide _).
  - exact Hwf.
  - unfold onAOIMouseDown. now destruct (negb _).
  - unfold onAOIMouseUp.
    destruct (VideoMode.isDrawingAOI this); [|exact Hwf].
    destruct (VideoMode.aoiDrawStart this) as [aoiDrawStart|]; [|exact Hwf].
    cbv zeta.
    destruct (_ && _) eqn:Esize; [|exact Hwf].
    apply aois_well_formed_push; [exact Esize | reflexivity | exact Hnext | exact Hwf].
  - now apply aois_well_formed_delete.
Qed.

Lemma perform_all_keeps_aois_well_formed (actions : list action) (this : VideoMode.t num) :
  (1 <= VideoMode.nextAoiId this)%nat ->
  aois_well_formed this ->
  (1 <= VideoMode.nextAoiId (perform_all trim this actions))%nat
  /\ aois_well_formed (perform_all trim this actions).
Proof.
  unfold perform_all. revert this.
  induction actions as [|a actions IH]; intros this Hnext Hwf; cbn [fold_left];
    [now split|].
  apply IH; [now apply perform_keeps_counter | now apply perform_keeps_aois_well_formed].
Qed.

End MoreVideoMode.

(** *** Exact arithmetic of the drawing data and the video mode *)

Lemma Qc_eq_Q (a b : Qc) : a = b <-> (this a == this b)%Q.
Proof. split; [now intros -> | apply Qc_is_canon]. Qed.

Lemma Qc_plus_Q (a b : Qc) : (this (a + b)%Qc == this a + this b)%Q.
Proof. apply Qred_correct. Qed.

Lemma Qc_mult_Q (a b : Qc) : (this (a * b)%Qc == this a * this b)%Q.
Proof. apply Qred_correct. Qed.

Lemma Qc_opp_Q (a : Qc) : (this (- a)%Qc == - this a)%Q.
Proof. apply Qred_correct. Qed.

Lemma Qc_minus_Q (a b : Qc) : (this (a - b)%Qc == this a - this b)%Q.
Proof. unfold Qcminus. rewrite Qc_plus_Q, Qc_opp_Q. reflexivity. Qed.

Lemma Qc_of_Z_Q (z : Z) : (this (Qc_of_Z z) == inject_Z z)%Q.
Proof. reflexivity. Qed.

Lemma Qc_div_Q (a b : Qc) : (this (a / b)%Qc == this a / this b)%Q.
Proof.
  unfold Qcdiv. rewrite Qc_mult_Q. unfold Qcinv. cbn [this Q2Qc].
  now rewrite Qred_correct.
Qed.

(** Moves a goal of linear arithmetic on [Qc] to [Q]. *)
Ltac qc_to_q :=
  repeat match goal with
  | H : @eq Qc _ _ |- _ => apply (proj1 (Qc_eq_Q _ _)) in H
  | |- @eq Qc _ _ => apply (proj2 (Qc_eq_Q _ _))
  | |- _ /\ _ => split
  end;
  unfold Qcle, Qclt in *;
  repeat (rewrite ?Qc_plus_Q, ?Qc_minus_Q, ?Qc_mult_Q, ?Qc_opp_Q, ?Qc_div_Q, ?Qc_of_Z_Q in * );
  change (this 0%Qc) with 0%Q in *; change (this 1%Qc) with 1%Q in *;
  unfold inject_Z, Qdiv in *; cbn [Qinv Qnum Qden] in *.

Lemma Qc_pos_nonzero (q : Qc) : (0 < q)%Qc -> q <> 0%Qc.
Proof. intros Hq E. rewrite E in Hq. exact (Qclt_not_le _ _ Hq (Qcle_refl _)). Qed.

Lemma ratio_bounds (a range : Qc) :
  (0 < range)%Qc -> (0 <= a)%Qc -> (a <= range)%Qc ->
  (0 <= a / range)%Qc /\ (a / range <= 1)%Qc.
Proof.
  intros Hrange Ha Hle.
  assert (Hinv : (0 <= / range)%Qc) by now apply Qclt_le_weak, Qcinv_pos.
  unfold Qcdiv. split; [now apply Qcmult_nonneg_nonneg|].
  rewrite <- (Qcmult_inv_r range (Qc_pos_nonzero range Hrange)).
  now apply Qcmult_le_mono_nonneg_r.
Qed.

Lemma ratio_mono (a b range : Qc) :
  (0 < range)%Qc -> (a <= b)%Qc -> (a / range <= b / range)%Qc.
Proof.
  intros Hrange Hab. unfold Qcdiv. apply Qcmult_le_mono_nonneg_r; [|exact Hab].
  now apply Qclt_le_weak, Qcinv_pos.
Qed.

Lemma ratio_below_one (a range : Qc) :
  (0 <= a)%Qc -> (a < range)%Qc ->
  (0 <= a / range)%Qc /\ (a / range < 1)%Qc /\ (a / range * range)%Qc = a.
Proof.
  intros Ha Hlt.
  assert (Hrange : (0 < range)%Qc) by (eapply Qcle_lt_trans; eassumption).
  assert (Hinv : (0 < / range)%Qc) by now apply Qcinv_pos.
  assert (Hne : range <> 0%Qc) by now apply Qc_pos_nonzero.
  unfold Qcdiv. split; [apply Qcmult_nonneg_nonneg; [exact Ha | now apply Qclt_le_weak]|].
  split.
  - rewrite <- (Qcmult_inv_r range Hne). now apply Qcmult_lt_compat_r.
  - now apply test_field.
Qed.

Section MoreExactDrawing.
Variables (sq : Qc -> Qc) (top bottom : Qc).
Local Hint Extern 0 (JSNumber Qc) => exact (exact sq) : typeclass_instances.
Local Hint Extern 0 (JSMath Qc) => exact (exact_math top bottom) : typeclass_instances.

Lemma fold_min_least (rest : list Qc) (v : Qc) :
  let lowest := fold_left (fun lowest q => if bool_decide (q < lowest)%Qc then q else lowest)
                          rest v in
  lowest ∈ v :: rest /\ forall q, q ∈ v :: rest -> (lowest <= q)%Qc.
Proof.
  revert v. induction rest as [|r rest IH]; intros v; cbn [fold_left].
  - split; [apply list_elem_of_here|]. intros q Hq.
    apply list_elem_of_singleton in Hq as ->. apply Qcle_refl.
  - cbv zeta in IH. destruct (IH (if bool_decide (r < v)%Qc then r else v)) as [Hin Hle].
    assert (Hv : ((if bool_decide (r < v)%Qc then r else v) <= v)%Qc
                 /\ ((if bool_decide (r < v)%Qc then r else v) <= r)%Qc).
    { destruct (bool_decide_reflect (r < v)%Qc) as [Hlt|Hge].
      - split; [now apply Qclt_le_weak | apply Qcle_refl].
      - split; [apply Qcle_refl | now apply Qcnot_lt_le]. }
    destruct Hv as [Hv Hr].
    pose proof (Hle _ (list_elem_of_here _ rest)) as Hfirst.
    split.
    + apply elem_of_cons in Hin as [Hin|Hin].
      * rewrite Hin. destruct (bool_decide (r < v)%Qc);
          [apply list_elem_of_further, list_elem_of_here | apply list_elem_of_here].
      * now do 2 apply list_elem_of_further.
    + intros q Hq. apply elem_of_cons in Hq as [->|Hq].
      * eapply Qcle_trans; eassumption.
      * apply elem_of_cons in Hq as [->|Hq].
        -- eapply Qcle_trans; eassumption.
        -- apply Hle. now apply list_elem_of_further.
Qed.

Lemma fold_max_greatest (rest : list Qc) (v : Qc) :
  let highest := fold_left (fun highest q => if bool_decide (highest < q)%Qc then q else highest)
                           rest v in
  highest ∈ v :: rest /\ forall q, q ∈ v :: rest -> (q <= highest)%Qc.
Proof.
  revert v. induction rest as [|r rest IH]; intros v; cbn [fold_left].
  - split; [apply list_elem_of_here|]. intros q Hq.
    apply list_elem_of_singleton in Hq as ->. apply Qcle_refl.
  - cbv zeta in IH. destruct (IH (if bool_decide (v < r)%Qc then r else v)) as [Hin Hle].
    assert (Hv : (v <= (if bool_decide (v < r)%Qc then r else v))%Qc
                 /\ (r <= (if bool_decide (v < r)%Qc then r else v))%Qc).
    { destruct (bool_decide_reflect (v < r)%Qc) as [Hlt|Hge].
      - split; [now apply Qclt_le_weak | apply Qcle_refl].
      - split; [apply Qcle_refl | now apply Qcnot_lt_le]. }
    destruct Hv as [Hv Hr].
    pose proof (Hle _ (list_elem_of_here _ rest)) as Hfirst.
    split.
    + apply elem_of_cons in Hin as [Hin|Hin].
      * rewrite Hin. destruct (bool_decide (v < r)%Qc);
          [apply list_elem_of_further, list_elem_of_here | apply list_elem_of_here].
      * now do 2 apply list_elem_of_further.
    + intros q Hq. apply elem_of_cons in Hq as [->|Hq].
      * eapply Qcle_trans; eassumption.
      * apply elem_of_cons in Hq as [->|Hq].
        -- eapply Qcle_trans; eassumption.
        -- apply Hle. now apply list_elem_of_further.
Qed.

Lemma Math_min_least (values : list Qc) :
  values <> [] ->
  Math_min values ∈ values /\ forall q, q ∈ values -> (Math_min values <= q)%Qc.
Proof. destruct values as [|v rest]; [congruence|]. intros _. apply fold_min_least. Qed.

Lemma Math_max_greatest (values : list Qc) :
  values <> [] ->
  Math_max values ∈ values /\ forall q, q ∈ values -> (q <= Math_max values)%Qc.
Proof. destruct values as [|v rest]; [congruence|]. intros _. apply fold_max_greatest. Qed.

(** The radius [getScanpathDrawingData] gives to a duration, for the
    minimum and the range it has found. *)
Lemma drawing_circles (fixations : list (Fixation.t Qc)) :
  exists minDuration durationRange : Qc,
    fst (getScanpathDrawingData fixations)
    = (fun f => Circle.mk (Fixation.x f) (Fixation.y f)
                  (Qc_of_Z 5 + (Fixation.duration f - minDuration) / durationRange
                               * Qc_of_Z 25)%Qc
                  (Fixation.id f))
      <$> sort_by_start fixations
    /\ (fixations <> [] ->
        (0 < durationRange)%Qc
        /\ (exists f, f ∈ fixations /\ Fixation.duration f = minDuration)
        /\ forall f, f ∈ fixations ->
             (0 <= Fixation.duration f - minDuration)%Qc
             /\ (Fixation.duration f - minDuration <= durationRange)%Qc).
Proof.
  unfold getScanpathDrawingData. cbv zeta. cbn [fst].
  set (durations := map Fixation.duration (sort_by_start fixations)).
  eexists (Math_min durations),
          (if truthy (Math_max durations - Math_min durations)%js
           then (Math_max durations - Math_min durations)%js else jnat 1).
  split; [reflexivity|].
  intros Hne.
  assert (Hperm : sort_by_start fixations ≡ₚ fixations)
    by (unfold sort_by_start; apply sort_perm).
  assert (Hdurations : forall q, q ∈ durations <-> exists f, f ∈ fixations /\ Fixation.duration f = q).
  { intros q. subst durations. change (map ?f ?l) with (f <$> l).
    rewrite list_elem_of_fmap. split; intros (f & Hf & Hf').
    - exists f. rewrite <- Hperm. now split.
    - exists f. rewrite Hperm. now split. }
  assert (Hsome : durations <> []).
  { destruct fixations as [|f fixations]; [congruence|].
    intros E. assert (Hin : Fixation.duration f ∈ durations)
      by (apply Hdurations; exists f; split; [apply list_elem_of_here | reflexivity]).
    rewrite E in Hin. inversion Hin. }
  destruct (Math_min_least durations Hsome) as [Hmin_in Hmin].
  destruct (Math_max_greatest durations Hsome) as [Hmax_in Hmax].
  pose proof (Hmin _ Hmax_in) as Hminmax.
  cbn [truthy exact_math jsub exact].
  destruct (bool_decide_reflect (Math_max durations - Math_min durations = 0)%Qc) as [E0|Hne0];
    cbn [negb].
  - split; [change (@jnat Qc (exact sq) 1) with (Qc_of_Z 1); rewrite Z2Qc_inj_1; reflexivity|].
    split; [now apply Hdurations|].
    intros f Hf.
    assert (Hd : Fixation.duration f ∈ durations) by (apply Hdurations; now exists f).
    pose proof (Hmin _ Hd) as Hlo. pose proof (Hmax _ Hd) as Hhi.
    change (@jnat Qc (exact sq) 1) with (Qc_of_Z 1).
    clear - Hlo Hhi E0. qc_to_q; lra.
  - split.
    { assert (Hne0' : ~ (this (Math_max durations - Math_min durations)%Qc == 0)%Q)
        by (intros E; apply Hne0; now apply Qc_eq_Q).
      clear - Hminmax Hne0'. rewrite Qc_minus_Q in Hne0'. qc_to_q. lra. }
    split; [now apply Hdurations|].
    intros f Hf.
    assert (Hd : Fixation.duration f ∈ durations) by (apply Hdurations; now exists f).
    pose proof (Hmin _ Hd) as Hlo. pose proof (Hmax _ Hd) as Hhi.
    clear - Hlo Hhi. qc_to_q; lra.
Qed.

Lemma radius_in_range (ratio : Qc) :
  (0 <= ratio)%Qc -> (ratio <= 1)%Qc ->
  (Qc_of_Z 5 <= Qc_of_Z 5 + ratio * Qc_of_Z 25)%Qc
  /\ (Qc_of_Z 5 + ratio * Qc_of_Z 25 <= Qc_of_Z 30)%Qc.
Proof. intros H0 H1. qc_to_q; lra. Qed.

Lemma radius_mono (ratio ratio' : Qc) :
  (ratio <= ratio')%Qc ->
  (Qc_of_Z 5 + ratio * Qc_of_Z 25 <= Qc_of_Z 5 + ratio' * Qc_of_Z 25)%Qc.
Proof. intros Hle. qc_to_q; lra. Qed.

End MoreExactDrawing.

Section MoreExactVideoMode.
Variables (sq : Qc -> Qc) (top bottom : Qc).
Local Hint Extern 0 (JSNumber Qc) => exact (exact sq) : typeclass_instances.
Local Hint Extern 0 (JSMath Qc) => exact (exact_math top bottom) : typeclass_instances.

(** The test of [updateGazePosition] for a position inside the content,
    and the normalized coordinates it computes there. *)
Lemma inside_content_normalised (content : DOMRect.t Qc) (screenX screenY : Qc) :
  ((screenX - DOMRect.left content >= jnat 0)
   && (screenX - DOMRect.left content < DOMRect.width content)
   && (screenY - DOMRect.top content >= jnat 0)
   && (screenY - DOMRect.top content < DOMRect.height content))%js = true ->
  let normalizedX := ((screenX - DOMRect.left content) / DOMRect.width content)%Qc in
  let normalizedY := ((screenY - DOMRect.top content) / DOMRect.height content)%Qc in
  ((0 <= normalizedX)%Qc /\ (normalizedX < 1)%Qc)
  /\ ((0 <= normalizedY)%Qc /\ (normalizedY < 1)%Qc)
  /\ (DOMRect.left content + normalizedX * DOMRect.width content)%Qc = screenX
  /\ (DOMRect.top content + normalizedY * DOMRect.height content)%Qc = screenY.
Proof.
  intros Einside normalizedX normalizedY. subst normalizedX normalizedY.
  rewrite !andb_true_iff in Einside. destruct Einside as [[[Hx0 Hxw] Hy0] Hyh].
  apply (exact_le sq) in Hx0, Hy0. apply (exact_lt sq) in Hxw, Hyh.
  rewrite (exact_zero sq) in Hx0, Hy0. cbn [jsub exact] in *.
  destruct (ratio_below_one _ _ Hx0 Hxw) as (Hx1 & Hx2 & Hx3).
  destruct (ratio_below_one _ _ Hy0 Hyh) as (Hy1 & Hy2 & Hy3).
  split; [now split|]. split; [now split|].
  rewrite Hx3, Hy3. split; ring.
Qed.

(** What one action does to the recorded samples. *)
Lemma perform_gazePoints (trim : string -> string) (this : VideoMode.t Qc)
    (a : @action Qc) :
  VideoMode.gazePoints (perform trim this a) = VideoMode.gazePoints this
  \/ VideoMode.gazePoints (perform trim this a) = []
  \/ exists p, VideoMode.gazePoints (perform trim this a) = VideoMode.gazePoints this ++ [p]
       /\ ((0 <= GazePoint.x p)%Qc /\ (GazePoint.x p < 1)%Qc)
       /\ ((0 <= GazePoint.y p)%Qc /\ (GazePoint.y p < 1)%Qc).
Proof.
  destruct a; cbn [perform]; try (left; reflexivity).
  - left. unfold startRecording. now destruct (negb _).
  - left. unfold pauseRecording. now destruct (negb _).
  - left. unfold stopRecording. now destruct fullscreenElement.
  - unfold updateGazePosition. cbv zeta.
    destruct (_ && _ && _ && _) eqn:Einside; [|now left].
    destruct (VideoMode.isRecording this && negb (VideoMode.isPaused this)); [|now left].
    right. right. eexists. split; [reflexivity|].
    destruct (inside_content_normalised _ _ _ Einside) as (Hx & Hy & _).
    split; [exact Hx | exact Hy].
  - right. left. reflexivity.
  - left. unfold startAOIDrawing. now destruct (bool_decide _).
  - left. unfold onAOIMouseDown. now destruct (negb _).
  - left. unfold onAOIMouseUp.
    destruct (VideoMode.isDrawingAOI this); [|reflexivity].
    destruct (VideoMode.aoiDrawStart this); [|reflexivity].
    cbv zeta. now destruct (_ && _).
Qed.

Lemma perform_all_gazePoints (trim : string -> string) (actions : list (@action Qc))
    (this : VideoMode.t Qc) :
  (forall p, p ∈ VideoMode.gazePoints this ->
     ((0 <= GazePoint.x p)%Qc /\ (GazePoint.x p < 1)%Qc)
     /\ (0 <= GazePoint.y p)%Qc /\ (GazePoint.y p < 1)%Qc) ->
  forall p, p ∈ VideoMode.gazePoints (perform_all trim this actions) ->
    ((0 <= GazePoint.x p)%Qc /\ (GazePoint.x p < 1)%Qc)
    /\ (0 <= GazePoint.y p)%Qc /\ (GazePoint.y p < 1)%Qc.
Proof.
  unfold perform_all. revert this.
  induction actions as [|a actions IH]; intros this Hthis; cbn [fold_left]; [exact Hthis|].
  apply IH. intros p Hp.
  destruct (perform_gazePoints trim this a) as [E|[E|(q & E & Hx & Hy)]];
    rewrite E in Hp.
  - now apply Hthis.
  - inversion Hp.
  - apply elem_of_app in Hp as [Hp|Hp]; [now apply Hthis|].
    apply list_elem_of_singleton in Hp as ->. now split.
Qed.

End MoreExactVideoMode.

(** *** The same functions on binary64 *)

Section MoreScenarios.

Let fixation (id : nat) (startTime duration x y : float) : Fixation.t float :=
  Fixation.mk id startTime startTime duration x y 2 [].

Example floor_of_binary64 :
  map Math_floor [2.5; -2.5; 0.75; -0.25; 4503599627370495.5; 7; infinity]%float
  = [2; -3; 0; -1; 4503599627370495; 7; infinity]%float.
Proof. vm_compute. reflexivity. Qed.

Example min_and_max_of_binary64 :
  (Math_min [3; 1; 2], Math_max [3; 1; 2], Math_min [], Math_max [], Math_min [1; nan])%float
  = (1, 3, infinity, neg_infinity, nan)%float.
Proof. vm_compute. reflexivity. Qed.

Example the_size_limit_is_the_literal :
  PrimFloat.eqb (jnat 1 / jnat 100)%js 0x1.47ae147ae147bp-7%float = true.
Proof. vm_compute. reflexivity. Qed.

Example drawing_of_three_fixations :
  getScanpathDrawingData
    [fixation 2 1 400 0.25 0.75; fixation 1 0 100 0.5 0.5; fixation 3 2 250 0.125 0.125]%float
  = ([Circle.mk 0.5 0.5 5 1; Circle.mk 0.25 0.75 30 2; Circle.mk 0.125 0.125 17.5 3]%float,
     [Line.mk 0.5 0.5 0.25 0.75; Line.mk 0.25 0.75 0.125 0.125]%float).
Proof. vm_compute. reflexivity. Qed.

Example drawing_of_equal_durations :
  fst (getScanpathDrawingData [fixation 1 0 100 0.5 0.5; fixation 2 1 100 0.25 0.25]%float)
  = [Circle.mk 0.5 0.5 5 1; Circle.mk 0.25 0.25 5 2]%float.
Proof. vm_compute. reflexivity. Qed.

Example a_sample_recorded_in_a_window :
  VideoMode.gazePoints
    (updateGazePosition
       (VideoMode.mk true false [] 1920%float 1080%float 30%float false [] 1 false None)
       (DOMRect.mk 100 50 800 400)%float 1.5%float 300%float 150%float)
  = [GazePoint.mk 1.5 45 0.25 0.25 300 150]%float.
Proof. vm_compute. reflexivity. Qed.

End MoreScenarios.

(** *** Ids of AOIs over time *)

Section MoreIds.
Context {num : Type} `{JSNumber num} `{JSMath num}.
Variable trim : string -> string.

Lemma extends_same (before this this' : VideoMode.t num) :
  VideoMode.aois this' = VideoMode.aois this ->
  VideoMode.nextAoiId this' = VideoMode.nextAoiId this ->
  extends before this -> extends before this'.
Proof. unfold extends. intros -> ->. trivial. Qed.

Lemma perform_extends (before this : VideoMode.t num) (a : action) :
  extends before this -> extends before (perform trim this a).
Proof.
  intros Hext. destruct a; cbn [perform]; try exact Hext.
  - unfold startRecording. now destruct (negb _).
  - unfold pauseRecording. now destruct (negb _).
  - unfold stopRecording. now destruct fullscreenElement.
  - destruct (updateGazePosition_aois this rect currentTime screenX screenY) as [Ea En].
    now apply (extends_same before this).
  - unfold startAOIDrawing. now destruct (bool_decide _).
  - unfold onAOIMouseDown. now destruct (negb _).
  - unfold onAOIMouseUp.
    destruct (VideoMode.isDrawingAOI this); [|exact Hext].
    destruct (VideoMode.aoiDrawStart this) as [aoiDrawStart|]; [|exact Hext].
    cbv zeta. destruct (_ && _); [|exact Hext].
    destruct Hext as [Hnext Haois]. unfold extends.
    cbn [cancelAOIDrawing set_drawing set_aois VideoMode.aois VideoMode.nextAoiId].
    split; [lia|]. intros aoi Ha. apply elem_of_app in Ha as [Ha|Ha].
    + destruct (Haois aoi Ha) as [Hold|(n & Hn & En)]; [now left|].
      right. exists n. split; [lia | exact En].
    + apply list_elem_of_singleton in Ha as ->. right.
      exists (VideoMode.nextAoiId this). split; [lia | reflexivity].
  - destruct Hext as [Hnext Haois]. unfold extends, deleteAOI.
    cbn [set_aois VideoMode.aois VideoMode.nextAoiId]. split; [exact Hnext|].
    intros aoi Ha. apply filter_elem_of in Ha as [Ha _]. now apply Haois.
Qed.

Lemma perform_all_extends (actions : list action) (before this : VideoMode.t num) :
  extends before this -> extends before (perform_all trim this actions).
Proof.
  unfold perform_all. revert this.
  induction actions as [|a actions IH]; intros this Hext; cbn [fold_left]; [exact Hext|].
  apply IH. now apply perform_extends.
Qed.

End MoreIds.

(** *** Smoothing *)

Section MoreSmoothing.
Context {num : Type} `{JSNumber num}.

Lemma smoothGaze_history (gazeHistory : list (num * num)) (rawX rawY : num) :
  (length gazeHistory <= SMOOTHING_FRAMES)%nat ->
  snd (smoothGaze gazeHistory rawX rawY)
  = drop (length gazeHistory + 1 - SMOOTHING_FRAMES) (gazeHistory ++ [(rawX, rawY)]).
Proof.
  intros Hlen. unfold smoothGaze. cbv zeta. cbn [snd].
  rewrite length_app. cbn [length].
  destruct (SMOOTHING_FRAMES <? length gazeHistory + 1)%nat eqn:Efull.
  - apply Nat.ltb_lt in Efull.
    replace (length gazeHistory + 1 - SMOOTHING_FRAMES)%nat with 1%nat by lia.
    now destruct gazeHistory.
  - apply Nat.ltb_ge in Efull.
    now replace (length gazeHistory + 1 - SMOOTHING_FRAMES)%nat with 0%nat by lia.
Qed.

Lemma history_after_snoc (raws : list (num * num)) (raw : num * num) :
  history_after (raws ++ [raw]) = snd (smoothGaze (history_after raws) (fst raw) (snd raw)).
Proof. unfold history_after. now rewrite fold_left_app. Qed.

Lemma history_after_window (raws : list (num * num)) :
  history_after raws = drop (length raws - SMOOTHING_FRAMES) raws.
Proof.
  induction raws as [|raw raws IH] using rev_ind; [reflexivity|].
  rewrite history_after_snoc, smoothGaze_history, IH.
  - destruct raw as [rawX rawY]. cbn [fst snd].
    rewrite length_drop, length_app. cbn [length].
    rewrite <- (drop_app_le raws [(rawX, rawY)]) by lia.
    rewrite drop_drop. f_equal. unfold SMOOTHING_FRAMES. lia.
  - rewrite IH, length_drop. unfold SMOOTHING_FRAMES. lia.
Qed.

End MoreSmoothing.

Section MoreExactSmoothing.
Variable sq : Qc -> Qc.
Local Hint Extern 0 (JSNumber Qc) => exact (exact sq) : typeclass_instances.

End MoreExactSmoothing.

(** *** Export *)

Section MoreExport.
Context {num : Type} `{JSNumber num}.
Variable toFixed : num -> nat -> string.

Lemma first_fixation_row_unvisited (aoi : AOI.t num) (sortedFixations : list (Fixation.t num))
    (aois : list (AOI.t num)) (videoStartTime : num) (i : nat) :
  aois !! i = Some aoi ->
  List.filter (inside aoi) sortedFixations = [] ->
  first_fixation_row toFixed
  <$> first_fixation_of_sorted sortedFixations aois videoStartTime !! i
  = Some (AOI.id aoi +:+ "," +:+ AOI.name aoi +:+ ",N/A,N/A,N/A,N/A,0").
Proof.
  intros Hi Hnone. rewrite (first_fixation_lookup _ _ _ _ _ Hi). cbv zeta.
  rewrite Hnone. cbn [head mbind option_bind fmap option_fmap option_map].
  pose proof (entry_loop_upper aoi sortedFixations 0 false) as Hupper.
  rewrite Hnone in Hupper. cbn [length] in Hupper.
  replace (entry_loop aoi sortedFixations 0 false) with 0%nat by lia.
  reflexivity.
Qed.

End MoreExport.

(** *** Dispersion *)

Section MoreDispersion.
Context {num : Type} `{JSNumber num}.

Lemma dispersion_against_attained (p : GazePoint.t num) (rest : list (GazePoint.t num))
    (maxDist : num) :
  dispersion_against p rest maxDist = maxDist
  \/ exists q, q ∈ rest
       /\ dispersion_against p rest maxDist
          = distance (GazePoint.x q) (GazePoint.y q) (GazePoint.x p) (GazePoint.y p).
Proof.
  revert maxDist. induction rest as [|r rest IH]; intros maxDist; cbn [dispersion_against];
    [now left|].
  cbv zeta. fold (distance (GazePoint.x r) (GazePoint.y r) (GazePoint.x p) (GazePoint.y p)).
  set (dist := distance _ _ _ _).
  destruct (IH (if (dist > maxDist)%js then dist else maxDist)) as [E|(q & Hq & E)].
  - rewrite E. destruct (dist > maxDist)%js; [|now left].
    right. exists r. split; [apply list_elem_of_here | reflexivity].
  - right. exists q. split; [now apply list_elem_of_further | exact E].
Qed.

Lemma dispersion_pairs_attained (points : list (GazePoint.t num)) (maxDist : num) :
  dispersion_pairs points maxDist = maxDist
  \/ exists i j p q,
       (i < j)%nat /\ points !! i = Some p /\ points !! j = Some q
       /\ dispersion_pairs points maxDist
          = distance (GazePoint.x q) (GazePoint.y q) (GazePoint.x p) (GazePoint.y p).
Proof.
  revert maxDist. induction points as [|r points IH]; intros maxDist; cbn [dispersion_pairs];
    [now left|].
  destruct (IH (dispersion_against r points maxDist)) as [E|(i & j & p & q & Hij & Hp & Hq & E)].
  - rewrite E. destruct (dispersion_against_attained r points maxDist) as [E'|(q & Hq & E')].
    + now left.
    + right. apply list_elem_of_lookup in Hq as [j Hj].
      exists 0%nat, (S j), r, q. split; [lia|]. split; [reflexivity|]. split; [exact Hj | exact E'].
  - right. exists (S i), (S j), p, q. split; [lia|]. now repeat split.
Qed.

Lemma calculateDispersion_attained (points : list (GazePoint.t num)) :
  calculateDispersion points = jnat 0
  \/ exists i j p q,
       (i < j)%nat /\ points !! i = Some p /\ points !! j = Some q
       /\ calculateDispersion points
          = distance (GazePoint.x q) (GazePoint.y q) (GazePoint.x p) (GazePoint.y p).
Proof.
  unfold calculateDispersion. destruct (length points <? 2)%nat; [now left|].
  apply dispersion_pairs_attained.
Qed.

End MoreDispersion.

Section MoreExactDispersion.
Variable sq : Qc -> Qc.
Local Hint Extern 0 (JSNumber Qc) => exact (exact sq) : typeclass_instances.

Lemma calculateDispersion_nonneg (points : list (GazePoint.t Qc)) :
  (0 <= calculateDispersion points)%Qc.
Proof.
  unfold calculateDispersion. rewrite <- (exact_zero sq).
  destruct (length points <? 2)%nat; [apply Qcle_refl|].
  apply (dispersion_pairs_bounds sq).
Qed.

Lemma calculateDispersion_mono (points more : list (GazePoint.t Qc)) :
  (calculateDispersion points <= calculateDispersion (points ++ more))%Qc.
Proof.
  destruct (calculateDispersion_attained points) as [E|(i & j & p & q & Hij & Hp & Hq & E)];
    rewrite E.
  - rewrite (exact_zero sq). apply calculateDispersion_nonneg.
  - apply (calculateDispersion_upper_bound sq _ i j); [exact Hij | |];
      now apply lookup_app_l_Some.
Qed.

End MoreExactDispersion.

(** *** Entries of the transition matrix *)

Lemma count_transition_no_empty_entry (m : gmap string (gmap string nat))
    (prevName currName : string) :
  no_empty_entry m -> no_empty_entry (count_transition m prevName currName).
Proof.
  intros Hm. rewrite count_transition_eq. intros a row Ha.
  destruct (decide (a = prevName)) as [->|Hne].
  - rewrite lookup_insert_eq in Ha. injection Ha as <-.
    split; [apply insert_non_empty|].
    intros b n Hb. destruct (decide (b = currName)) as [->|Hne].
    + rewrite lookup_insert_eq in Hb. injection Hb as <-. lia.
    + rewrite lookup_insert_ne in Hb by congruence.
      destruct (m !! prevName) as [old|] eqn:Eold; cbn [default from_option id] in Hb.
      * exact (proj2 (Hm prevName old Eold) b n Hb).
      * rewrite lookup_empty in Hb. discriminate.
  - rewrite lookup_insert_ne in Ha by congruence. exact (Hm a row Ha).
Qed.

Section MoreTransitions.
Context {num : Type} `{JSNumber num}.

Lemma transition_loop_no_empty_entry (aois : list (AOI.t num)) (prev : Fixation.t num)
    (rest : list (Fixation.t num)) (m : gmap string (gmap string nat)) :
  no_empty_entry m -> no_empty_entry (transition_loop aois prev rest m).
Proof.
  revert prev m. induction rest as [|curr rest IH]; intros prev m Hm; cbn [transition_loop];
    [exact Hm|].
  cbv zeta. apply IH. now apply count_transition_no_empty_entry.
Qed.

Lemma transition_matrix_no_empty_entry (fixations : list (Fixation.t num))
    (aois : list (AOI.t num)) :
  no_empty_entry
    (ScanpathMetrics.aoiTransitionMatrix (calculateScanpathMetrics fixations aois)).
Proof.
  assert (Hempty : no_empty_entry ∅) by (intros a row Ha; rewrite lookup_empty in Ha; discriminate).
  unfold calculateScanpathMetrics.
  destruct fixations as [|f0 fixations]; [exact Hempty|]. cbn [length Nat.eqb].
  unfold scanpath_of_sorted.
  destruct (sort_by_start (f0 :: fixations)) as [|first rest]; [exact Hempty|].
  destruct (saccade_loop first rest (jnat 0) []) as [totalLength saccadeAmplitudes].
  cbn [ScanpathMetrics.aoiTransitionMatrix].
  now apply transition_loop_no_empty_entry.
Qed.

End MoreTransitions.

(** ** Dwell time: every fixation in the records *)

Section Credits.
Context {num : Type} `{JSNumber num}.


End Credits.

(** ** Labels: the first AOI that contains the fixation *)

Section FirstMatch.
Context {num : Type} `{JSNumber num}.

(** The label of a fixation is the name of the first AOI of the list that
    contains it, and "__outside__" when no AOI does. *)
Lemma scanpath_label_first_match (f : Fixation.t num) (before after : list (AOI.t num))
    (aoi : AOI.t num) :
  (forall a, a ∈ before -> isPointInAOI (Fixation.x f) (Fixation.y f) a = false) ->
  isPointInAOI (Fixation.x f) (Fixation.y f) aoi = true ->
  scanpath_label f (before ++ aoi :: after) = AOI.name aoi.
Proof.
  unfold scanpath_label. induction before as [|a before IH]; intros Hbefore Hin;
    cbn [app findAOIForFixation].
  - now rewrite Hin.
  - rewrite (Hbefore a (list_elem_of_here a before)).
    apply IH; [|exact Hin]. intros b Hb. apply Hbefore. now apply list_elem_of_further.
Qed.

Lemma scanpath_label_no_match (f : Fixation.t num) (aois : list (AOI.t num)) :
  (forall a, a ∈ aois -> isPointInAOI (Fixation.x f) (Fixation.y f) a = false) ->
  scanpath_label f aois = "__outside__".
Proof.
  unfold scanpath_label. induction aois as [|a aois IH]; intros Hout;
    cbn [findAOIForFixation]; [reflexivity|].
  rewrite (Hout a (list_elem_of_here a aois)).
  apply IH. intros b Hb. apply Hout. now apply list_elem_of_further.
Qed.

End FirstMatch.


(** ** The properties of the specification *)

(** C1, as the specification states it, fails.  On binary64, under the
    default thresholds, two samples whose [y] is NaN are reported as one
    fixation.  [calculateDispersion] gives 0 for its two points: the
    distance of the pair is NaN, and the test [dist > maxDist] skips it.  Yet
    the points are 0.75 apart in [x], more than the threshold, and their
    distance, as [distance] computes it, is not [<=] the threshold. *)
Lemma nan_distance_is_not_counted :
  let p := GazePoint.mk 0%float 0%float 0.125%float nan 0%float 0%float in
  let q := GazePoint.mk 0.25%float 1%float 0.875%float nan 0%float 0%float in
  exists f,
    detectFixationsIDT [p; q] DEFAULT_DISPERSION_THRESHOLD DEFAULT_MIN_FIXATION_DURATION
    = Normal [f]
    /\ Fixation.points f = [p; q]
    /\ calculateDispersion (Fixation.points f) = 0%float
    /\ (GazePoint.x q - GazePoint.x p)%js = 0.75%float
    /\ (0.75%float <= DEFAULT_DISPERSION_THRESHOLD)%js = false
    /\ (distance (GazePoint.x q) (GazePoint.y q) (GazePoint.x p) (GazePoint.y p)
        <= DEFAULT_DISPERSION_THRESHOLD)%js = false.
Proof.
  intros p q. eexists. split; [vm_compute; reflexivity|].
  repeat split; vm_compute; reflexivity.
Qed.

(** C1, amended: every fixation [detectFixationsIDT] returns has a duration
    of at least [minDuration] and owns points for which the value of
    [calculateDispersion] is at most [dispersionThreshold], and it cannot
    take the sample that follows its points: with that sample the value is
    not within the threshold.  This holds on every number instance, and the
    call always returns.  The value bounds the distance of every two owned
    points that is a number: on binary64 no two owned points have a distance
    above the threshold, and a distance that is not NaN is within it; on
    exact numbers every distance is.  The threshold is inclusive, for the
    first window and for a window that grows: points whose dispersion is the
    threshold itself are reported as one fixation. *)
Theorem fixations_meet_thresholds :
  (forall (num : Type) (N : JSNumber num) (gazePoints : list (GazePoint.t num))
          (dispersionThreshold minDuration : num),
     exists fs,
       detectFixationsIDT gazePoints dispersionThreshold minDuration = Normal fs
       /\ forall f, f ∈ fs ->
            (Fixation.duration f >= minDuration)%js = true
            /\ (calculateDispersion (Fixation.points f) <= dispersionThreshold)%js = true
            /\ exists before after,
                 sort_by_timestamp gazePoints = before ++ Fixation.points f ++ after
                 /\ forall p rest, after = p :: rest ->
                      (calculateDispersion (Fixation.points f ++ [p])
                       <= dispersionThreshold)%js = false)
  /\ (forall (gazePoints : list (GazePoint.t float))
             (dispersionThreshold minDuration : float) fs,
        detectFixationsIDT gazePoints dispersionThreshold minDuration = Normal fs ->
        forall f, f ∈ fs ->
          forall i j p q, (i < j)%nat ->
            Fixation.points f !! i = Some p -> Fixation.points f !! j = Some q ->
            let dist := distance (GazePoint.x q) (GazePoint.y q)
                                 (GazePoint.x p) (GazePoint.y p) in
            (dist > dispersionThreshold)%js = false
            /\ (is_nan dist = false -> (dist <= dispersionThreshold)%js = true))
  /\ (forall (sq : Qc -> Qc) (gazePoints : list (GazePoint.t Qc))
             (dispersionThreshold minDuration : Qc) fs,
        @detectFixationsIDT Qc (exact sq) gazePoints dispersionThreshold minDuration
        = Normal fs ->
        forall f, f ∈ fs ->
          (minDuration <= Fixation.duration f)%Qc
          /\ forall i j p q, (i < j)%nat ->
               Fixation.points f !! i = Some p -> Fixation.points f !! j = Some q ->
               (@distance Qc (exact sq) (GazePoint.x q) (GazePoint.y q)
                          (GazePoint.x p) (GazePoint.y p)
                <= dispersionThreshold)%Qc)
  /\ (forall (num : Type) (N : JSNumber num) (p q : GazePoint.t num)
             (dispersionThreshold minDuration : num),
        (GazePoint.timestamp p - GazePoint.timestamp q > jnat 0)%js = false ->
        ((GazePoint.timestamp p - GazePoint.timestamp p) * jnat 1000 < minDuration)%js = true ->
        ((GazePoint.timestamp q - GazePoint.timestamp p) * jnat 1000 < minDuration)%js = false ->
        ((GazePoint.timestamp q - GazePoint.timestamp p) * jnat 1000 >= minDuration)%js = true ->
        calculateDispersion [p; q] = dispersionThreshold ->
        (dispersionThreshold <= dispersionThreshold)%js = true ->
        exists f,
          detectFixationsIDT [p; q] dispersionThreshold minDuration = Normal [f]
          /\ Fixation.points f = [p; q]
          /\ calculateDispersion (Fixation.points f) = dispersionThreshold)
  /\ (forall (num : Type) (N : JSNumber num) (p q r : GazePoint.t num)
             (dispersionThreshold minDuration : num),
        (GazePoint.timestamp q - GazePoint.timestamp r > jnat 0)%js = false ->
        (GazePoint.timestamp p - GazePoint.timestamp q > jnat 0)%js = false ->
        ((GazePoint.timestamp p - GazePoint.timestamp p) * jnat 1000 < minDuration)%js = true ->
        ((GazePoint.timestamp q - GazePoint.timestamp p) * jnat 1000 < minDuration)%js = false ->
        ((GazePoint.timestamp r - GazePoint.timestamp p) * jnat 1000 >= minDuration)%js = true ->
        (calculateDispersion [p; q] <= dispersionThreshold)%js = true ->
        calculateDispersion [p; q; r] = dispersionThreshold ->
        (dispersionThreshold <= dispersionThreshold)%js = true ->
        exists f,
          detectFixationsIDT [p; q; r] dispersionThreshold minDuration = Normal [f]
          /\ Fixation.points f = [p; q; r]
          /\ calculateDispersion (Fixation.points f) = dispersionThreshold).
Proof.
  assert (Hgen : forall (num : Type) (N : JSNumber num) (gazePoints : list (GazePoint.t num))
                        (dispersionThreshold minDuration : num),
             exists fs,
               detectFixationsIDT gazePoints dispersionThreshold minDuration = Normal fs
               /\ forall f, f ∈ fs ->
                    (Fixation.duration f >= minDuration)%js = true
                    /\ (calculateDispersion (Fixation.points f) <= dispersionThreshold)%js
                       = true
                    /\ exists before after,
                         sort_by_timestamp gazePoints = before ++ Fixation.points f ++ after
                         /\ forall p rest, after = p :: rest ->
                              (calculateDispersion (Fixation.points f ++ [p])
                               <= dispersionThreshold)%js = false).
  { intros num N gazePoints thr md.
    destruct (detectFixationsIDT_returns gazePoints thr md) as (fs & E & Hw & _).
    exists fs. split; [exact E|]. intros f Hf.
    assert (Hguards : (Fixation.duration f >= md)%js = true
                      /\ (calculateDispersion (Fixation.points f) <= thr)%js = true).
    { revert f Hf.
      apply (proj1 (list.Forall_forall
               (fun f => (Fixation.duration f >= md)%js = true
                         /\ (calculateDispersion (Fixation.points f) <= thr)%js = true) fs)).
      eapply windows_below_Forall; [|exact Hw].
      intros g a b Hg. split; apply Hg. }
    split; [apply Hguards|]. split; [apply Hguards|].
    unfold detectFixationsIDT in E.
    destruct (length gazePoints <? 2)%nat; [injection E as <-; inversion Hf|].
    apply idt_loop_stops in E; [|constructor].
    apply (proj1 (list.Forall_forall _ _) E) in Hf as (a & b & Hpoints & Hab & Hstop).
    exists (take a (sort_by_timestamp gazePoints)),
           (drop (b + 1) (sort_by_timestamp gazePoints)).
    split; [rewrite Hpoints; apply slice_decompose; lia|].
    intros p rest Eafter.
    assert (Ep : sort_by_timestamp gazePoints !! (b + 1)%nat = Some p).
    { rewrite <- (Nat.add_0_r (b + 1)), <- lookup_drop, Eafter. reflexivity. }
    rewrite Hpoints, <- (slice_snoc _ a (b + 1) p) by (lia || exact Ep).
    replace (S (b + 1)) with (b + 2)%nat by lia. exact (Hstop p Ep). }
  split; [exact Hgen|].
  split; [|split; [|split; [intros num N; apply threshold_is_inclusive
                           |intros num N; apply extension_is_inclusive]]].
  - intros gazePoints thr md fs E f Hin i j p q Hij Hp Hq dist.
    destruct (Hgen float ieee gazePoints thr md) as (fs' & E' & Hfs).
    rewrite E in E'. injection E' as <-.
    destruct (Hfs f Hin) as (_ & Htight & _).
    assert (Hnumber : is_nan dist = false -> (dist <= thr)%js = true).
    { intros Hdist. eapply float_le_trans; [|exact Htight].
      now apply (binary64_dispersion_covers (Fixation.points f) i j). }
    split; [|exact Hnumber].
    destruct (is_nan dist) eqn:Hdist.
    + destruct (thr < dist)%js eqn:Hlt; [|reflexivity].
      apply float_lt_numbers in Hlt as [_ Hlt]. congruence.
    + now apply float_le_not_lt, Hnumber.
  - intros sq gazePoints thr md fs E f Hin.
    destruct (Hgen Qc (exact sq) gazePoints thr md) as (fs' & E' & Hfs).
    rewrite E in E'. injection E' as <-.
    destruct (Hfs f Hin) as (Hlong & Htight & _).
    split; [now apply (exact_le sq)|].
    intros i j p q Hij Hp Hq.
    eapply Qcle_trans;
      [apply (calculateDispersion_upper_bound sq (Fixation.points f) i j); eassumption|].
    now apply (exact_le sq).
Qed.

(** The inclusive threshold at work on binary64, with the threshold 0.25.
    Two samples 250 ms apart whose distance is 0.25 are one fixation; and a
    window of two samples at one place takes a third sample at the distance
    0.25. *)
Lemma fixations_meet_thresholds_witness :
  let sample t x := GazePoint.mk t 0%float x 0.5%float 0%float 0%float in
  (exists f,
     detectFixationsIDT [sample 0%float 0.5%float; sample 0.25%float 0.25%float]
       0.25%float 100%float = Normal [f]
     /\ Fixation.points f = [sample 0%float 0.5%float; sample 0.25%float 0.25%float]
     /\ calculateDispersion (Fixation.points f) = 0.25%float)
  /\ (exists f,
        detectFixationsIDT
          [sample 0%float 0.5%float; sample 0.125%float 0.5%float;
           sample 0.25%float 0.25%float]
          0.25%float 100%float = Normal [f]
        /\ Fixation.points f =
             [sample 0%float 0.5%float; sample 0.125%float 0.5%float;
              sample 0.25%float 0.25%float]
        /\ calculateDispersion (Fixation.points f) = 0.25%float).
Proof.
  intros sample. split.
  - apply (proj1 (proj2 (proj2 (proj2 fixations_meet_thresholds))) float ieee);
      vm_compute; reflexivity.
  - apply (proj2 (proj2 (proj2 (proj2 fixations_meet_thresholds))) float ieee);
      vm_compute; reflexivity.
Defined.

(** C2, as the specification states it, fails.  On binary64, with a NaN
    timestamp among the samples, the comparator of the sort gives NaN for
    every pair with that sample and the array stays as it is: the samples
    at 5 and 5.25 come before the samples at 0 and 0.25, and the two
    fixations returned start at 5 and then at 0. *)
Lemma nan_timestamp_breaks_the_time_order :
  let sample t x y := GazePoint.mk t 0%float x y 0%float 0%float in
  let gazePoints :=
    [sample 5%float 0.25%float 0.25%float; sample 5.25%float 0.25%float 0.25%float;
     sample nan 0.5%float 0.5%float;
     sample 0%float 0.75%float 0.75%float; sample 0.25%float 0.75%float 0.75%float] in
  sort_by_timestamp gazePoints = gazePoints
  /\ exists f g,
       detectFixationsIDT gazePoints DEFAULT_DISPERSION_THRESHOLD
         DEFAULT_MIN_FIXATION_DURATION = Normal [f; g]
       /\ Fixation.id f = 1%nat /\ Fixation.id g = 2%nat
       /\ Fixation.startTime f = 5%float /\ Fixation.startTime g = 0%float
       /\ (Fixation.startTime f <= Fixation.startTime g)%js = false.
Proof.
  intros sample gazePoints. split; [vm_compute; reflexivity|].
  eexists _, _. split; [vm_compute; reflexivity|].
  repeat split; vm_compute; reflexivity.
Qed.

(** C2, amended: the fixations [detectFixationsIDT] returns carry the ids
    1, 2, 3, ... in the order of the list, so the ids are strictly
    increasing; this holds on every number instance.  When no timestamp is
    NaN, the [startTime] of a fixation is at most the [startTime] of the
    next one: on binary64 for samples whose timestamps are not NaN, and on
    exact numbers, where every timestamp is a number. *)
Theorem ids_sequential_and_start_times_ordered :
  (forall (num : Type) (N : JSNumber num) (gazePoints : list (GazePoint.t num))
          (dispersionThreshold minDuration : num),
     exists fs,
       detectFixationsIDT gazePoints dispersionThreshold minDuration = Normal fs
       /\ Fixation.id <$> fs = seq 1 (length fs)
       /\ forall i j f g, (i < j)%nat -> fs !! i = Some f -> fs !! j = Some g ->
            (Fixation.id f < Fixation.id g)%nat)
  /\ (forall (gazePoints : list (GazePoint.t float))
             (dispersionThreshold minDuration : float),
        (forall p, p ∈ gazePoints -> is_nan (GazePoint.timestamp p) = false) ->
        exists fs,
          detectFixationsIDT gazePoints dispersionThreshold minDuration = Normal fs
          /\ forall i f g, fs !! i = Some f -> fs !! S i = Some g ->
               (Fixation.startTime f <= Fixation.startTime g)%js = true)
  /\ (forall (sq : Qc -> Qc) (gazePoints : list (GazePoint.t Qc))
             (dispersionThreshold minDuration : Qc),
        exists fs,
          @detectFixationsIDT Qc (exact sq) gazePoints dispersionThreshold minDuration
          = Normal fs
          /\ forall i f g, fs !! i = Some f -> fs !! S i = Some g ->
               (Fixation.startTime f <= Fixation.startTime g)%Qc).
Proof.
  split; [|split].
  - intros num N gazePoints thr md.
    destruct (detectFixationsIDT_returns gazePoints thr md) as (fs & E & _ & Hids).
    exists fs. split; [exact E|]. split; [exact Hids|].
    intros i j f g Hij Ef Eg.
    assert (Hi : Fixation.id f = S i).
    { apply (f_equal (fun l => l !! i)) in Hids.
      rewrite list_lookup_fmap, Ef, lookup_seq_lt in Hids
        by (eapply lookup_lt_Some, Ef).
      now injection Hids. }
    assert (Hj : Fixation.id g = S j).
    { apply (f_equal (fun l => l !! j)) in Hids.
      rewrite list_lookup_fmap, Eg, lookup_seq_lt in Hids
        by (eapply lookup_lt_Some, Eg).
      now injection Hids. }
    lia.
  - intros gazePoints thr md Hnumbers.
    destruct (detectFixationsIDT_returns gazePoints thr md) as (fs & E & Hw & _).
    exists fs. split; [exact E|].
    intros i f g Ef Eg.
    destruct (windows_below_consecutive _ _ _ _ _ i f g Hw Ef Eg)
      as (a & b & Hab & Ea & Eb).
    destruct (sort_by_timestamp gazePoints !! a) as [p|] eqn:Ep; [|discriminate].
    destruct (sort_by_timestamp gazePoints !! b) as [q|] eqn:Eq; [|discriminate].
    injection Ea as <-. injection Eb as <-.
    apply (StronglySorted_lookup
             (fun p q => (GazePoint.timestamp p <= GazePoint.timestamp q)%js = true)
             (sort_by_timestamp gazePoints) a b); [|exact Hab | exact Ep | exact Eq].
    apply binary64_sort_sorted, list.Forall_forall, Hnumbers.
  - intros sq gazePoints thr md.
    destruct (@detectFixationsIDT_returns Qc (exact sq) gazePoints thr md)
      as (fs & E & Hw & _).
    exists fs. split; [exact E|].
    intros i f g Ef Eg.
    destruct (@windows_below_consecutive Qc (exact sq) _ _ _ _ _ i f g Hw Ef Eg)
      as (a & b & Hab & Ea & Eb).
    destruct (@sort_by_timestamp Qc (exact sq) gazePoints !! a) as [p|] eqn:Ep;
      [|discriminate].
    destruct (@sort_by_timestamp Qc (exact sq) gazePoints !! b) as [q|] eqn:Eq;
      [|discriminate].
    injection Ea as <-. injection Eb as <-.
    apply (sorted_lookup GazePoint.timestamp
             (@sort_by_timestamp Qc (exact sq) gazePoints) a b);
      [apply (sort_sorted sq) | exact Hab | exact Ep | exact Eq].
Qed.

(** Four samples out of time order on binary64: two fixations, numbered 1
    and 2, the one at 0.5, 0.5 first: it starts at 0, the other one at
    0.5. *)
Lemma ids_sequential_and_start_times_ordered_witness :
  let sample t x y := GazePoint.mk t 0%float x y 0%float 0%float in
  let gazePoints :=
    [sample 0.5%float 0.75%float 0.75%float; sample 0.125%float 0.5%float 0.5%float;
     sample 0.75%float 0.75%float 0.75%float; sample 0%float 0.5%float 0.5%float] in
  exists f g,
    detectFixationsIDT gazePoints DEFAULT_DISPERSION_THRESHOLD DEFAULT_MIN_FIXATION_DURATION
    = Normal [f; g]
    /\ (Fixation.startTime f, Fixation.startTime g) = (0%float, 0.5%float)
    /\ (Fixation.startTime f <= Fixation.startTime g)%js = true.
Proof.
  intros sample gazePoints.
  destruct (proj1 (proj2 ids_sequential_and_start_times_ordered) gazePoints
              DEFAULT_DISPERSION_THRESHOLD DEFAULT_MIN_FIXATION_DURATION)
    as (fs & E & Horder).
  - intros p Hp. subst gazePoints.
    repeat (apply elem_of_cons in Hp as [->|Hp]; [vm_compute; reflexivity|]).
    inversion Hp.
  - assert (E' := E). vm_compute in E'.
    destruct fs as [|f [|g [|? ?]]]; try discriminate.
    exists f, g. split; [exact E|]. split; [|apply (Horder 0%nat); reflexivity].
    injection E' as <- <-. reflexivity.
Defined.

(** C4: when the AOIs "A" then "B" both contain the centroid of a fixation,
    [findAOIForFixation] returns "A", the first of the list, and
    [calculateDwellTime] credits both: on the fixation alone each of the two
    records has [fixationCount] 1 and the outside record 0, and among other
    fixations the fixation adds 1 to each of the two records. *)
Theorem overlap_first_match_but_both_credited :
  forall (num : Type) (N : JSNumber num) (f : Fixation.t num) (A B : AOI.t num),
    isPointInAOI (Fixation.x f) (Fixation.y f) A = true ->
    isPointInAOI (Fixation.x f) (Fixation.y f) B = true ->
    findAOIForFixation f [A; B] = Some A
    /\ DwellTimeStats.fixationCount <$> calculateDwellTime [f] [A; B] = [1; 1; 0]%nat
    /\ DwellTimeStats.aoiName <$> calculateDwellTime [f] [A; B]
       = [AOI.name A; AOI.name B; "Outside AOIs"]
    /\ forall before after,
         DwellTimeStats.fixationCount <$> calculateDwellTime (before ++ f :: after) [A; B]
         = zip_with Nat.add [1; 1; 0]%nat
             (DwellTimeStats.fixationCount <$> calculateDwellTime (before ++ after) [A; B]).
Proof.
  intros num N f A B HA HB.
  split; [cbn [findAOIForFixation]; now rewrite HA|].
  split; [unfold calculateDwellTime; cbn [map fmap list_fmap app List.filter existsb
                                          DwellTimeStats.fixationCount];
          now rewrite HA, HB|].
  split; [reflexivity|].
  intros before after. unfold calculateDwellTime.
  cbn [map fmap list_fmap app DwellTimeStats.fixationCount zip_with existsb].
  rewrite !List.filter_app. cbn [List.filter existsb]. rewrite HA, HB.
  cbn [orb negb]. rewrite !length_app. cbn [length].
  apply (f_equal2 cons); [lia|]. apply (f_equal2 cons); [lia|]. reflexivity.
Qed.

(** The scenario on binary64: a fixation at (0.5, 0.5) and two overlapping
    AOIs around it. *)
Lemma overlap_first_match_but_both_credited_witness :
  let f := Fixation.mk 1 0%float 0.125%float 125%float 0.5%float 0.5%float 2 [] in
  let A := AOI.mk "a" "A" "red" (Bounds.mk 0.25%float 0.25%float 0.5%float 0.5%float) in
  let B := AOI.mk "b" "B" "blue" (Bounds.mk 0.5%float 0.5%float 0.25%float 0.25%float) in
  findAOIForFixation f [A; B] = Some A
  /\ DwellTimeStats.fixationCount <$> calculateDwellTime [f] [A; B] = [1; 1; 0]%nat.
Proof.
  intros f A B.
  destruct (overlap_first_match_but_both_credited float ieee f A B) as (H1 & H2 & _);
    [vm_compute; reflexivity | vm_compute; reflexivity |].
  split; [exact H1 | exact H2].
Defined.

(** C5, as the specification states it, fails: an AOI of width 0 matches
    the point in the middle of its vertical segment, and an AOI of height 0
    the point in the middle of its horizontal segment, on binary64 and on
    exact numbers alike. *)
Lemma degenerate_aoi_matches_segment_point :
  (isPointInAOI 0.5%float 0.5%float
     (AOI.mk "thin" "Thin" "red" (Bounds.mk 0.5%float 0.25%float 0%float 0.5%float))
   = true
   /\ isPointInAOI 0.5%float 0.5%float
        (AOI.mk "flat" "Flat" "red" (Bounds.mk 0.25%float 0.5%float 0.5%float 0%float))
      = true)
  /\ (@isPointInAOI Qc (exact (fun q => q)) (Q2Qc (1 # 2)) (Q2Qc (1 # 2))
        (AOI.mk "thin" "Thin" "red"
           (Bounds.mk (Q2Qc (1 # 2)) (Q2Qc (1 # 4)) (Q2Qc 0) (Q2Qc (1 # 2))))
      = true
      /\ @isPointInAOI Qc (exact (fun q => q)) (Q2Qc (1 # 2)) (Q2Qc (1 # 2))
           (AOI.mk "flat" "Flat" "red"
              (Bounds.mk (Q2Qc (1 # 4)) (Q2Qc (1 # 2)) (Q2Qc (1 # 2)) (Q2Qc 0)))
         = true).
Proof. repeat split; vm_compute; reflexivity. Qed.

(** C5, amended: on exact numbers an AOI of width 0 matches exactly the
    points of its vertical segment ([x] equal to the AOI's [x], [y] between
    the AOI's [y] and [y + height], both ends included), and an AOI of height
    0 exactly the points of its horizontal segment; it matches no other
    point. *)
Theorem degenerate_aoi_matches_exactly_its_segment :
  forall (sq : Qc -> Qc) (x y : Qc) (aoi : AOI.t Qc),
    (Bounds.width (AOI.bounds aoi) = 0%Qc ->
     (@isPointInAOI Qc (exact sq) x y aoi = true <->
      x = Bounds.x (AOI.bounds aoi)
      /\ (Bounds.y (AOI.bounds aoi) <= y)%Qc
      /\ (y <= Bounds.y (AOI.bounds aoi) + Bounds.height (AOI.bounds aoi))%Qc))
    /\ (Bounds.height (AOI.bounds aoi) = 0%Qc ->
        (@isPointInAOI Qc (exact sq) x y aoi = true <->
         y = Bounds.y (AOI.bounds aoi)
         /\ (Bounds.x (AOI.bounds aoi) <= x)%Qc
         /\ (x <= Bounds.x (AOI.bounds aoi) + Bounds.width (AOI.bounds aoi))%Qc)).
Proof.
  intros sq x y [id name color [bx by_ w h]]. cbn [AOI.bounds Bounds.x Bounds.y
                                                  Bounds.width Bounds.height].
  unfold isPointInAOI. cbn [AOI.bounds Bounds.x Bounds.y Bounds.width Bounds.height].
  rewrite !andb_true_iff, !(exact_le sq). cbn [jadd exact].
  split; intros ->; rewrite Qcplus_0_r.
  - split.
    + intros [[[H1 H2] H3] H4]. repeat split; [now apply Qcle_antisym | exact H3 | exact H4].
    + intros (-> & H3 & H4). repeat split; [apply Qcle_refl | apply Qcle_refl | exact H3 | exact H4].
  - split.
    + intros [[[H1 H2] H3] H4]. repeat split; [now apply Qcle_antisym | exact H1 | exact H2].
    + intros (-> & H1 & H2). repeat split; [exact H1 | exact H2 | apply Qcle_refl | apply Qcle_refl].
Qed.

(** An AOI of width 0 and a point of its segment. *)
Lemma degenerate_aoi_matches_exactly_its_segment_witness :
  @isPointInAOI Qc (exact (fun q => q)) (Q2Qc (1 # 2)) (Q2Qc (1 # 2))
    (AOI.mk "thin" "Thin" "red"
       (Bounds.mk (Q2Qc (1 # 2)) (Q2Qc (1 # 4)) 0%Qc (Q2Qc (1 # 2)))) = true.
Proof.
  apply (proj1 (degenerate_aoi_matches_exactly_its_segment (fun q => q)
                  (Q2Qc (1 # 2)) (Q2Qc (1 # 2))
                  (AOI.mk "thin" "Thin" "red"
                     (Bounds.mk (Q2Qc (1 # 2)) (Q2Qc (1 # 4)) 0%Qc (Q2Qc (1 # 2))))));
    [reflexivity|].
  split; [reflexivity|]. split; [vm_compute; discriminate | vm_compute; discriminate].
Defined.




(** C10: for a non-empty list of fixations, the counts stored in the
    [aoiTransitionMatrix] of [calculateScanpathMetrics] add up to
    [fixationCount - 1], where [fixationCount] is the number of fixations;
    and the count stored for a pair of labels is the number of neighbours,
    among the fixations put in the order of the sort by start time, that
    carry these two labels, every fixation taken with its own label, equal
    neighbours included.  The sort keeps every fixation and puts them in
    the order of their start times, on binary64 when no start time is NaN,
    and on exact numbers.  The label of a
    fixation is the name of the first AOI of the list that contains its
    centroid, and "__outside__" when no AOI does. *)
Theorem transition_counts_sum_to_fixations_minus_one :
  (forall (num : Type) (N : JSNumber num) (fixations : list (Fixation.t num))
          (aois : list (AOI.t num)),
     fixations <> [] ->
     let metrics := calculateScanpathMetrics fixations aois in
     matrix_total (ScanpathMetrics.aoiTransitionMatrix metrics)
     = (ScanpathMetrics.fixationCount metrics - 1)%nat
     /\ ScanpathMetrics.fixationCount metrics = length fixations
     /\ sort_by_start fixations ≡ₚ fixations
     /\ forall prevName currName,
          transition_count (ScanpathMetrics.aoiTransitionMatrix metrics) prevName currName
          = count_pairs prevName currName
              (map (fun f => scanpath_label f aois) (sort_by_start fixations)))
  /\ (forall fixations : list (Fixation.t float),
        (forall f, f ∈ fixations -> is_nan (Fixation.startTime f) = false) ->
        StronglySorted (fun f g => (Fixation.startTime f <= Fixation.startTime g)%js = true)
                       (sort_by_start fixations))
  /\ (forall (sq : Qc -> Qc) (fixations : list (Fixation.t Qc)),
        StronglySorted (fun f g => (Fixation.startTime f <= Fixation.startTime g)%Qc)
                       (@sort_by_start Qc (exact sq) fixations))
  /\ (forall (num : Type) (N : JSNumber num) (f : Fixation.t num)
             (before after : list (AOI.t num)) (aoi : AOI.t num),
        (forall a, a ∈ before -> isPointInAOI (Fixation.x f) (Fixation.y f) a = false) ->
        isPointInAOI (Fixation.x f) (Fixation.y f) aoi = true ->
        scanpath_label f (before ++ aoi :: after) = AOI.name aoi)
  /\ (forall (num : Type) (N : JSNumber num) (f : Fixation.t num) (aois : list (AOI.t num)),
        (forall a, a ∈ aois -> isPointInAOI (Fixation.x f) (Fixation.y f) a = false) ->
        scanpath_label f aois = "__outside__").
Proof.
  split; [|split; [intros fixations Hnumbers;
                   apply binary64_sort_sorted, list.Forall_forall, Hnumbers
                  |split; [intros sq fixations; apply (sort_sorted sq)
                          |split; [intros num N; apply scanpath_label_first_match
                                  |intros num N; apply scanpath_label_no_match]]]].
  intros num N fixations aois Hne metrics. subst metrics.
  unfold calculateScanpathMetrics.
  destruct fixations as [|f0 fixations]; [congruence|]. cbn [length Nat.eqb].
  pose proof (sort_length (fun a b => (Fixation.startTime a - Fixation.startTime b)%js)
                (f0 :: fixations)) as Hlen.
  fold (sort_by_start (f0 :: fixations)) in Hlen.
  assert (Hperm : sort_by_start (f0 :: fixations) ≡ₚ f0 :: fixations)
    by apply sort_perm.
  destruct (sort_by_start (f0 :: fixations)) as [|first rest] eqn:Esorted;
    [discriminate|].
  unfold scanpath_of_sorted.
  destruct (saccade_loop first rest (jnat 0) []) as [totalLength saccadeAmplitudes].
  cbn [ScanpathMetrics.aoiTransitionMatrix ScanpathMetrics.fixationCount].
  split; [|split; [exact Hlen|split; [exact Hperm|]]].
  - rewrite transition_loop_total. unfold matrix_total at 1. rewrite map_fold_empty.
    cbn [length]. lia.
  - intros prevName currName. rewrite transition_loop_count.
    unfold transition_count at 1. now rewrite lookup_empty.
Qed.

(** Four fixations on binary64, given out of time order.  In time order
    they lie in "A", in "A" again (and in "B", which comes later in the
    list), in "B" and outside: one transition from "A" to "A", one from "A"
    to "B", one from "B" to "__outside__", and no other. *)
Lemma transition_counts_sum_to_fixations_minus_one_witness :
  let A := AOI.mk "a" "A" "red" (Bounds.mk 0%float 0%float 0.5%float 0.5%float) in
  let B := AOI.mk "b" "B" "blue" (Bounds.mk 0.25%float 0.25%float 0.5%float 0.5%float) in
  let f1 := Fixation.mk 1 0%float 0.125%float 125%float 0.125%float 0.125%float 2 [] in
  let f2 := Fixation.mk 2 0.25%float 0.5%float 250%float 0.375%float 0.375%float 2 [] in
  let f3 := Fixation.mk 3 0.75%float 1%float 250%float 0.625%float 0.625%float 2 [] in
  let f4 := Fixation.mk 4 1.25%float 1.5%float 250%float 0.875%float 0.875%float 2 [] in
  let matrix :=
    ScanpathMetrics.aoiTransitionMatrix (calculateScanpathMetrics [f3; f1; f4; f2] [A; B]) in
  matrix_total matrix = 3%nat
  /\ transition_count matrix "A" "A" = 1%nat
  /\ transition_count matrix "A" "B" = 1%nat
  /\ transition_count matrix "B" "__outside__" = 1%nat
  /\ transition_count matrix "B" "A" = 0%nat
  /\ transition_count matrix "__outside__" "A" = 0%nat
  /\ transition_count matrix "A" "__outside__" = 0%nat.
Proof.
  intros A B f1 f2 f3 f4 matrix. subst matrix.
  destruct (proj1 transition_counts_sum_to_fixations_minus_one
              float ieee [f3; f1; f4; f2] [A; B])
    as (Htotal & Hcount & _ & Hpairs); [discriminate|].
  rewrite Htotal, Hcount, !Hpairs. repeat split; vm_compute; reflexivity.
Defined.

(** C7: for each AOI, in the order of the list, the [entryCount] of the
    record [calculateFirstFixation] returns is the number of rising edges of
    "the centroid is inside this AOI" over the fixations sorted by start
    time, the state before the first fixation being outside; so a first
    fixation inside the AOI counts as an entry. *)
Theorem entry_count_is_number_of_rising_edges :
  forall (num : Type) (N : JSNumber num) (fixations : list (Fixation.t num))
         (aois : list (AOI.t num)) (videoStartTime : num),
    FirstFixationMetrics.entryCount <$> calculateFirstFixation fixations aois videoStartTime
    = (fun aoi =>
         rising_edges
           (map (fun f => isPointInAOI (Fixation.x f) (Fixation.y f) aoi)
                (sort_by_start fixations))) <$> aois
    /\ FirstFixationMetrics.aoiId <$> calculateFirstFixation fixations aois videoStartTime
       = AOI.id <$> aois
    /\ forall aoi first rest,
         sort_by_start fixations = first :: rest ->
         isPointInAOI (Fixation.x first) (Fixation.y first) aoi = true ->
         rising_edge_at
           (map (fun f => isPointInAOI (Fixation.x f) (Fixation.y f) aoi)
                (sort_by_start fixations)) 0 = true.
Proof.
  intros num N fixations aois videoStartTime.
  unfold calculateFirstFixation, first_fixation_of_sorted.
  split; [|split].
  - rewrite <- list_fmap_compose. apply list_fmap_ext. intros _ aoi _.
    cbn [compose FirstFixationMetrics.entryCount].
    rewrite entry_loop_edges. unfold rising_edges. now rewrite length_map.
  - rewrite <- list_fmap_compose. now apply list_fmap_ext.
  - intros aoi first rest -> Hin. unfold rising_edge_at. cbn [map nth]. now rewrite Hin.
Qed.

(** Fixations inside, outside and inside an AOI again, given out of time
    order: two entries, the first one at the first fixation. *)
Lemma entry_count_is_number_of_rising_edges_witness :
  let A := AOI.mk "a" "A" "red" (Bounds.mk 0.25%float 0.25%float 0.5%float 0.5%float) in
  let f1 := Fixation.mk 1 0%float 0.125%float 125%float 0.5%float 0.5%float 2 [] in
  let f2 := Fixation.mk 2 0.25%float 0.5%float 250%float 0.875%float 0.5%float 2 [] in
  let f3 := Fixation.mk 3 0.75%float 1%float 250%float 0.25%float 0.25%float 2 [] in
  FirstFixationMetrics.entryCount <$> calculateFirstFixation [f3; f1; f2] [A] 0%float
  = [2%nat].
Proof.
  intros A f1 f2 f3.
  rewrite (proj1 (entry_count_is_number_of_rising_edges float ieee [f3; f1; f2] [A] 0%float)).
  vm_compute. reflexivity.
Defined.

(** C6, as the specification states it, fails: on binary64, with an AOI of
    width -0.5 in the list, [analyzeGazeData] raises nothing and returns a
    result; in it the AOI has no fixation, although the fixation lies
    between its two vertical edges. *)
Lemma negative_width_is_not_rejected :
  let sample t x y := GazePoint.mk t 0%float x y 0%float 0%float in
  let gazePoints :=
    [sample 0%float 0.5%float 0.5%float; sample 0.125%float 0.5%float 0.5%float] in
  let bad := AOI.mk "bad" "Bad" "red" (Bounds.mk 0.75%float 0.25%float (-0.5)%float 0.5%float) in
  analyzeGazeData gazePoints [bad] (Options.mk None None None) <> Throw InvalidAOI
  /\ exists r,
       analyzeGazeData gazePoints [bad] (Options.mk None None None) = Normal r
       /\ length (AnalysisResult.fixations r) = 1%nat
       /\ DwellTimeStats.fixationCount <$> AnalysisResult.dwellTimeStats r = [0; 1]%nat.
Proof.
  intros sample gazePoints bad.
  assert (E : exists r,
             analyzeGazeData gazePoints [bad] (Options.mk None None None) = Normal r
             /\ length (AnalysisResult.fixations r) = 1%nat
             /\ DwellTimeStats.fixationCount <$> AnalysisResult.dwellTimeStats r = [0; 1]%nat).
  { eexists. split; [vm_compute; reflexivity|]. split; vm_compute; reflexivity. }
  split; [|exact E]. destruct E as (r & -> & _). discriminate.
Qed.

(** C6, amended: [analyzeGazeData] checks no AOI and rejects no input: on
    every number instance and for every input, an AOI of negative width or
    height in the list or not, it returns a result and raises no error. *)
Theorem analysis_accepts_every_aoi :
  forall (num : Type) (N : JSNumber num) (gazePoints : list (GazePoint.t num))
         (aois : list (AOI.t num)) (options : Options.t num),
    exists r,
      analyzeGazeData gazePoints aois options = Normal r
      /\ forall e, analyzeGazeData gazePoints aois options <> Throw e.
Proof.
  intros num N gazePoints aois options.
  destruct (analyzeGazeData_returns gazePoints aois options) as [r E].
  exists r. split; [exact E|]. intros e. rewrite E. discriminate.
Qed.

(** C8, as the specification states it, fails: for one analysis on binary64
    with two fixations outside the only AOI, the outside record of the
    dwell-time statistics is named "Outside AOIs", the scanpath sequence and
    the transition matrix use "__outside__", and the [aoi] column of the
    fixations CSV holds "outside": three different strings. *)
Lemma outside_sentinel_has_three_spellings :
  let sample t x y := GazePoint.mk t 0%float x y 0%float 0%float in
  let gazePoints :=
    [sample 0%float 0.5%float 0.5%float; sample 0.125%float 0.5%float 0.5%float;
     sample 0.5%float 0.75%float 0.75%float; sample 0.75%float 0.75%float 0.75%float] in
  let A := AOI.mk "a" "A" "red" (Bounds.mk 0%float 0%float 0.125%float 0.125%float) in
  exists r dwellName scanpathName csvName,
    analyzeGazeData gazePoints [A] (Options.mk None None None) = Normal r
    /\ DwellTimeStats.aoiName <$> list.last (AnalysisResult.dwellTimeStats r) = Some dwellName
    /\ ScanpathMetrics.aoiSequence (AnalysisResult.scanpathMetrics r) = [scanpathName]
    /\ transition_count
         (ScanpathMetrics.aoiTransitionMatrix (AnalysisResult.scanpathMetrics r))
         scanpathName scanpathName = 1%nat
    /\ fixations_csv_aoi_column r [A] = [csvName; csvName]
    /\ dwellName <> scanpathName /\ scanpathName <> csvName /\ dwellName <> csvName.
Proof.
  intros sample gazePoints A.
  eexists _, "Outside AOIs", "__outside__", "outside".
  split; [vm_compute; reflexivity|].
  repeat split; try (vm_compute; reflexivity); discriminate.
Qed.

(** C8, amended: each output has a spelling of its own for the fixations
    outside every AOI, and keeps to it.  In every analysis the last record of
    the dwell-time statistics has [aoiId] "__outside__" and [aoiName]
    "Outside AOIs"; a fixation outside every AOI has the scanpath label
    "__outside__", which is then an element of [aoiSequence], and the value
    "outside" in the [aoi] column of the fixations CSV; and the transition
    matrix counts the pairs of consecutive scanpath labels. *)
Theorem outside_sentinel_per_output :
  forall (num : Type) (N : JSNumber num) (gazePoints : list (GazePoint.t num))
         (aois : list (AOI.t num)) (options : Options.t num),
    exists r,
      analyzeGazeData gazePoints aois options = Normal r
      /\ (exists d,
            list.last (AnalysisResult.dwellTimeStats r) = Some d
            /\ DwellTimeStats.aoiId d = "__outside__"
            /\ DwellTimeStats.aoiName d = "Outside AOIs")
      /\ (forall i f,
            AnalysisResult.fixations r !! i = Some f ->
            findAOIForFixation f aois = None ->
            scanpath_label f aois = "__outside__"
            /\ "__outside__"
               ∈ ScanpathMetrics.aoiSequence (AnalysisResult.scanpathMetrics r)
            /\ fixations_csv_aoi_column r aois !! i = Some "outside")
      /\ (forall prevName currName,
            transition_count
              (ScanpathMetrics.aoiTransitionMatrix (AnalysisResult.scanpathMetrics r))
              prevName currName
            = count_pairs prevName currName
                (map (fun f => scanpath_label f aois)
                     (sort_by_start (AnalysisResult.fixations r)))).
Proof.
  intros num N gazePoints aois options.
  destruct (analyzeGazeData_returns gazePoints aois options) as [r Er].
  exists r. split; [exact Er|].
  unfold analyzeGazeData in Er.
  destruct (detectFixationsIDT gazePoints _ _) as [fs| |]; [|discriminate..].
  rewrite bind_Normal in Er. injection Er as <-.
  cbn [AnalysisResult.dwellTimeStats AnalysisResult.scanpathMetrics
       AnalysisResult.fixations].
  split; [|split].
  - unfold calculateDwellTime. rewrite list.last_snoc. eexists. split; [reflexivity|].
    split; reflexivity.
  - intros i f Ef Hout.
    assert (Hlabel : scanpath_label f aois = "__outside__")
      by (unfold scanpath_label; now rewrite Hout).
    split; [exact Hlabel|]. split.
    + rewrite <- Hlabel. apply aoiSequence_contains_labels.
      eapply list_elem_of_lookup_2, Ef.
    + unfold fixations_csv_aoi_column. cbn [AnalysisResult.fixations].
      change (map ?g fs) with (g <$> fs). rewrite list_lookup_fmap, Ef.
      cbn [fmap option_fmap option_map]. unfold fixation_row_aoi.
      now rewrite <- findAOIForFixation_find, Hout.
  - apply transition_matrix_counts_pairs.
Qed.

(** An analysis on binary64 whose only fixation is outside the AOI. *)
Lemma outside_sentinel_per_output_witness :
  let sample t := GazePoint.mk t 0%float 0.5%float 0.5%float 0%float 0%float in
  let A := AOI.mk "a" "A" "red" (Bounds.mk 0%float 0%float 0.125%float 0.125%float) in
  exists r,
    analyzeGazeData [sample 0%float; sample 0.125%float] [A] (Options.mk None None None)
    = Normal r
    /\ "__outside__" ∈ ScanpathMetrics.aoiSequence (AnalysisResult.scanpathMetrics r)
    /\ fixations_csv_aoi_column r [A] !! 0%nat = Some "outside".
Proof.
  intros sample A.
  destruct (outside_sentinel_per_output float ieee [sample 0%float; sample 0.125%float] [A]
              (Options.mk None None None)) as (r & Er & _ & Hout & _).
  exists r. split; [exact Er|].
  assert (Er' := Er). vm_compute in Er'. injection Er' as Er'.
  destruct (AnalysisResult.fixations r) as [|f fs] eqn:Ef;
    [rewrite <- Er' in Ef; discriminate|].
  destruct (Hout 0%nat f) as (_ & Hseq & Hcsv);
    [reflexivity | rewrite <- Er' in Ef; injection Ef as <- _; vm_compute; reflexivity |].
  split; [exact Hseq | exact Hcsv].
Defined.

(** C9: [analyzeGazeData], run on references to the caller's arrays,
    returns the result computed from their elements and leaves the two
    arrays, and every other array the heap held before the call, with the
    same elements in the same order: the arrays it sorts are copies it
    allocated. *)
Theorem analysis_leaves_its_arguments_unchanged :
  forall (num : Type) (N : JSNumber num) (h : gmap loc (array num))
         (gazePoints aois : loc) (elements : list (GazePoint.t num))
         (rects : list (AOI.t num)) (options : Options.t num),
    h !! gazePoints = Some (GazeArray elements) ->
    h !! aois = Some (AOIArray rects) ->
    exists r h',
      analyzeGazeData_run gazePoints aois options h = (Normal r, h')
      /\ analyzeGazeData elements rects options = Normal r
      /\ h' !! gazePoints = Some (GazeArray elements)
      /\ h' !! aois = Some (AOIArray rects)
      /\ forall l a, h !! l = Some a -> h' !! l = Some a.
Proof.
  intros num N h gazePoints aois elements rects options Eg Ea.
  destruct (analyzeGazeData_run_spec h gazePoints aois elements rects options Eg Ea)
    as (r & h' & Erun & Er & Hsub).
  exists r, h'. split; [exact Erun|]. split; [exact Er|].
  split; [apply (lookup_weaken _ _ _ _ Eg Hsub)|].
  split; [apply (lookup_weaken _ _ _ _ Ea Hsub)|].
  intros l a El. apply (lookup_weaken _ _ _ _ El Hsub).
Qed.

(** A heap with an array of three samples out of time order and an array
    of one AOI: after the analysis the samples are still in the caller's
    order. *)
Lemma analysis_leaves_its_arguments_unchanged_witness :
  let sample t x y := GazePoint.mk t 0%float x y 0%float 0%float in
  let elements :=
    [sample 0.125%float 0.5%float 0.5%float; sample 0.5%float 0.75%float 0.75%float;
     sample 0%float 0.5%float 0.5%float] in
  let rects := [AOI.mk "a" "A" "red" (Bounds.mk 0.25%float 0.25%float 0.5%float 0.5%float)] in
  let h : gmap loc (array float) := {[ 1%positive := GazeArray elements;
                                       2%positive := AOIArray rects ]} in
  exists r h',
    analyzeGazeData_run 1%positive 2%positive (Options.mk None None None) h = (Normal r, h')
    /\ h' !! 1%positive = Some (GazeArray elements)
    /\ h' !! 2%positive = Some (AOIArray rects).
Proof.
  intros sample elements rects h.
  destruct (analysis_leaves_its_arguments_unchanged float ieee h 1%positive 2%positive
              elements rects (Options.mk None None None))
    as (r & h' & Erun & _ & Eg & Ea & _); [reflexivity | reflexivity |].
  exists r, h'. split; [exact Erun|]. split; [exact Eg | exact Ea].
Defined.

(** ** Further properties of the code *)

(** X1: the record of every fixation [detectFixationsIDT] returns describes
    its own points: the points are a non-empty run of neighbours of the
    samples sorted by timestamp, [pointCount] is their number, [startTime]
    and [endTime] are the timestamps of the first and the last of them,
    [duration] is [(endTime - startTime) * 1000] and [(x, y)] is their
    centroid. *)
Theorem fixation_record_describes_its_points :
  forall (num : Type) (N : JSNumber num) (gazePoints : list (GazePoint.t num))
         (dispersionThreshold minDuration : num),
    exists fs,
      detectFixationsIDT gazePoints dispersionThreshold minDuration = Normal fs
      /\ forall f, f ∈ fs ->
           Fixation.points f <> []
           /\ Fixation.pointCount f = length (Fixation.points f)
           /\ (exists before after,
                 sort_by_timestamp gazePoints = before ++ Fixation.points f ++ after)
           /\ GazePoint.timestamp <$> Fixation.points f !! 0%nat
              = Some (Fixation.startTime f)
           /\ GazePoint.timestamp <$> list.last (Fixation.points f)
              = Some (Fixation.endTime f)
           /\ Fixation.duration f
              = ((Fixation.endTime f - Fixation.startTime f) * jnat 1000)%js
           /\ (Fixation.x f, Fixation.y f) = calculateCentroid (Fixation.points f).
Proof.
  intros num N gazePoints thr md.
  destruct (detectFixationsIDT_returns gazePoints thr md) as (fs & E & Hw & _).
  exists fs. split; [exact E|]. intros f Hf.
  destruct (windows_below_window _ _ _ _ _ f Hw Hf) as (a & b & Hwin & _).
  destruct (window_fixation_describes_points _ _ _ f a b Hwin)
    as (Hne & Hcount & Hrun & Hstart & Hend).
  split; [exact Hne|]. split; [exact Hcount|].
  split; [eexists _, _; exact Hrun|].
  split; [exact Hstart|]. split; [exact Hend|].
  split; apply Hwin.
Qed.

(** X2: the fixations share no sample: their points, one fixation after the
    other, are samples of the sorted input in the order of that input, each
    taken at most once; so the [pointCount]s add up to at most the number of
    samples. *)
Theorem fixations_share_no_sample :
  forall (num : Type) (N : JSNumber num) (gazePoints : list (GazePoint.t num))
         (dispersionThreshold minDuration : num),
    exists fs,
      detectFixationsIDT gazePoints dispersionThreshold minDuration = Normal fs
      /\ concat (Fixation.points <$> fs) `sublist_of` sort_by_timestamp gazePoints
      /\ (sum_list (Fixation.pointCount <$> fs) <= length gazePoints)%nat.
Proof.
  intros num N gazePoints thr md.
  destruct (detectFixationsIDT_returns gazePoints thr md) as (fs & E & Hw & _).
  exists fs. split; [exact E|].
  assert (Hsub : concat (Fixation.points <$> fs) `sublist_of` sort_by_timestamp gazePoints).
  { etransitivity; [apply (windows_below_sublist _ _ _ _ _ Hw) | apply sublist_take]. }
  split; [exact Hsub|].
  apply sublist_length in Hsub. unfold sort_by_timestamp in Hsub.
  rewrite sort_length in Hsub.
  enough (Hsum : sum_list (Fixation.pointCount <$> fs)
                 = length (concat (Fixation.points <$> fs))) by lia.
  clear Hsub E.
  assert (Hcount : Forall (fun f => Fixation.pointCount f = length (Fixation.points f)) fs).
  { apply list.Forall_forall. intros f Hf.
    destruct (windows_below_window _ _ _ _ _ f Hw Hf) as (a & b & Hwin & _).
    now destruct (window_fixation_describes_points _ _ _ f a b Hwin) as (_ & Hc & _). }
  clear Hw. induction Hcount as [|f fs Hf _ IH]; [reflexivity|].
  cbn [fmap list_fmap sum_list sum_list_with concat]. rewrite length_app.
  unfold sum_list in IH. cbn [fmap list_fmap] in IH. rewrite Hf. f_equal. exact IH.
Qed.

(** X3: on exact numbers the fixations follow one another in time without
    overlap: every fixation ends no earlier than it starts, and no later than
    the next one starts. *)
Theorem fixations_do_not_overlap_in_time :
  forall (sq : Qc -> Qc) (gazePoints : list (GazePoint.t Qc))
         (dispersionThreshold minDuration : Qc),
    exists fs,
      @detectFixationsIDT Qc (exact sq) gazePoints dispersionThreshold minDuration
      = Normal fs
      /\ (forall f, f ∈ fs -> (Fixation.startTime f <= Fixation.endTime f)%Qc)
      /\ (forall i f g, fs !! i = Some f -> fs !! S i = Some g ->
            (Fixation.endTime f <= Fixation.startTime g)%Qc).
Proof.
  intros sq gazePoints thr md.
  destruct (@detectFixationsIDT_returns Qc (exact sq) gazePoints thr md)
    as (fs & E & Hw & _).
  exists fs. split; [exact E|].
  pose proof (sort_sorted sq GazePoint.timestamp gazePoints) as Hsorted.
  fold (@sort_by_timestamp Qc (exact sq) gazePoints) in Hsorted.
  assert (Hle : forall a b s e,
             (a <= b)%nat ->
             GazePoint.timestamp <$> @sort_by_timestamp Qc (exact sq) gazePoints !! a = Some s ->
             GazePoint.timestamp <$> @sort_by_timestamp Qc (exact sq) gazePoints !! b = Some e ->
             (s <= e)%Qc).
  { intros a b s e Hab Ea Eb.
    destruct (@sort_by_timestamp Qc (exact sq) gazePoints !! a) as [p|] eqn:Ep;
      [|discriminate].
    destruct (@sort_by_timestamp Qc (exact sq) gazePoints !! b) as [q|] eqn:Eq;
      [|discriminate].
    injection Ea as <-. injection Eb as <-.
    destruct (decide (a = b)) as [->|Hne].
    - rewrite Ep in Eq. injection Eq as <-. apply Qcle_refl.
    - apply (sorted_lookup GazePoint.timestamp _ a b _ _ Hsorted); [lia | exact Ep | exact Eq]. }
  split.
  - intros f Hf.
    destruct (@windows_below_window Qc (exact sq) _ _ _ _ _ f Hw Hf) as (a & b & Hwin & _).
    apply (Hle a b); [apply Hwin | apply Hwin | apply Hwin].
  - intros i f g Ef Eg.
    destruct (@windows_below_apart Qc (exact sq) _ _ _ _ _ i f g Hw Ef Eg)
      as (a & b & a' & b' & Hf & Hg & Hlt).
    apply (Hle b a'); [lia | apply Hf | apply Hg].
Qed.

(** X4: a fixation is as long as the threshold allows: when a sample
    follows the points of a returned fixation in the sorted input, the
    dispersion of the points together with that sample is not within the
    threshold. *)
Theorem fixation_stops_at_first_violation :
  forall (num : Type) (N : JSNumber num) (gazePoints : list (GazePoint.t num))
         (dispersionThreshold minDuration : num),
    exists fs,
      detectFixationsIDT gazePoints dispersionThreshold minDuration = Normal fs
      /\ forall f, f ∈ fs ->
           exists before after,
             sort_by_timestamp gazePoints = before ++ Fixation.points f ++ after
             /\ forall p rest, after = p :: rest ->
                  (calculateDispersion (Fixation.points f ++ [p]) <= dispersionThreshold)%js
                  = false.
Proof.
  intros num N gazePoints thr md.
  destruct (detectFixationsIDT_returns gazePoints thr md) as (fs & E & _).
  exists fs. split; [exact E|].
  unfold detectFixationsIDT in E.
  destruct (length gazePoints <? 2)%nat; [injection E as <-; intros f Hf; inversion Hf|].
  apply idt_loop_stops in E; [|constructor].
  intros f Hf. apply (proj1 (list.Forall_forall _ _) E) in Hf as (a & b & Hpoints & Hab & Hstop).
  exists (take a (sort_by_timestamp gazePoints)), (drop (b + 1) (sort_by_timestamp gazePoints)).
  split; [rewrite Hpoints; apply slice_decompose; lia|].
  intros p rest Eafter.
  assert (Ep : sort_by_timestamp gazePoints !! (b + 1)%nat = Some p).
  { rewrite <- (Nat.add_0_r (b + 1)), <- lookup_drop, Eafter. reflexivity. }
  rewrite Hpoints, <- (slice_snoc _ a (b + 1) p) by (lia || exact Ep).
  replace (S (b + 1)) with (b + 2)%nat by lia. exact (Hstop p Ep).
Qed.

(** X5: on exact numbers the order in which the samples are given does not
    matter when their timestamps are pairwise different: a permutation of
    the samples gives the same fixations. *)
Theorem detection_ignores_the_order_of_the_samples :
  forall (sq : Qc -> Qc) (gazePoints gazePoints' : list (GazePoint.t Qc))
         (dispersionThreshold minDuration : Qc),
    gazePoints ≡ₚ gazePoints' ->
    NoDup (GazePoint.timestamp <$> gazePoints) ->
    @detectFixationsIDT Qc (exact sq) gazePoints dispersionThreshold minDuration
    = @detectFixationsIDT Qc (exact sq) gazePoints' dispersionThreshold minDuration.
Proof.
  intros sq gazePoints gazePoints' thr md Hperm Hnd. unfold detectFixationsIDT.
  rewrite <- (Permutation_length Hperm).
  now rewrite (sort_by_timestamp_of_permutation sq gazePoints gazePoints' Hperm Hnd).
Qed.

(** Three samples given in two different orders. *)
Lemma detection_ignores_the_order_of_the_samples_witness :
  let half := Q2Qc (1 # 2) in
  let sample t := GazePoint.mk t 0%Qc half half 0%Qc 0%Qc in
  @detectFixationsIDT Qc (exact (fun q => q))
    [sample (Q2Qc (1 # 8)); sample 0%Qc; sample (Q2Qc (1 # 4))]
    (Q2Qc (3 # 100)) (Q2Qc 100)
  = @detectFixationsIDT Qc (exact (fun q => q))
      [sample 0%Qc; sample (Q2Qc (1 # 4)); sample (Q2Qc (1 # 8))]
      (Q2Qc (3 # 100)) (Q2Qc 100).
Proof.
  intros half sample. apply detection_ignores_the_order_of_the_samples.
  - etransitivity; [apply Permutation_swap|]. apply perm_skip, Permutation_swap.
  - cbn [fmap list_fmap sample GazePoint.timestamp].
    repeat (apply list.NoDup_cons; split; [rewrite ?elem_of_cons, elem_of_nil;
                                      intros H; repeat destruct H as [H|H];
                                      (discriminate || exact H)|]).
    constructor.
Defined.

(** X6: [calculateDwellTime] returns one record per AOI, in the order of
    the AOIs, and the outside record last.  The record of an AOI counts the
    fixations inside it, the outside record counts the fixations for which
    [findAOIForFixation] finds no AOI; so every fixation is counted at least
    once, and exactly once when no fixation lies in two AOIs. *)
Theorem dwell_records_count_every_fixation :
  forall (num : Type) (N : JSNumber num) (fixations : list (Fixation.t num))
         (aois : list (AOI.t num)),
    DwellTimeStats.aoiId <$> calculateDwellTime fixations aois
    = (AOI.id <$> aois) ++ ["__outside__"]
    /\ DwellTimeStats.fixationCount <$> calculateDwellTime fixations aois
       = ((fun aoi => length (List.filter (inside aoi) fixations)) <$> aois)
         ++ [length (List.filter (unmatched aois) fixations)]
    /\ (length fixations
        <= sum_list (DwellTimeStats.fixationCount <$> calculateDwellTime fixations aois))%nat
    /\ ((forall f, f ∈ fixations -> (length (matching_aois f aois) <= 1)%nat) ->
        sum_list (DwellTimeStats.fixationCount <$> calculateDwellTime fixations aois)
        = length fixations).
Proof.
  intros num N fixations aois.
  assert (Hcounts : DwellTimeStats.fixationCount <$> calculateDwellTime fixations aois
                    = ((fun aoi => length (List.filter (inside aoi) fixations)) <$> aois)
                      ++ [length (List.filter (unmatched aois) fixations)]).
  { unfold calculateDwellTime. rewrite fmap_app. f_equal.
    - change (map ?f aois) with (f <$> aois). rewrite <- list_fmap_compose.
      now apply list_fmap_ext.
    - cbn [fmap list_fmap DwellTimeStats.fixationCount]. do 2 f_equal.
      apply List.filter_ext. intros f. apply existsb_unmatched. }
  split.
  { unfold calculateDwellTime. rewrite fmap_app. f_equal.
    change (map ?f aois) with (f <$> aois). rewrite <- list_fmap_compose.
    now apply list_fmap_ext. }
  split; [exact Hcounts|].
  rewrite Hcounts, sum_list_app.
  change (sum_list [?a]) with (a + 0)%nat. rewrite Nat.add_0_r.
  change (?f <$> aois) with (map f aois). rewrite count_by_aoi_or_by_fixation.
  apply sum_counts_lower_bound.
Qed.

(** X7: on exact numbers, when no fixation has a negative duration, every
    record of [calculateDwellTime] has a [totalDwellTime] between 0 and the
    total viewing time and a [percentOfTotal] between 0 and 100. *)
Theorem dwell_record_is_consistent :
  forall (sq : Qc -> Qc) (fixations : list (Fixation.t Qc)) (aois : list (AOI.t Qc))
         (d : DwellTimeStats.t Qc),
    d ∈ @calculateDwellTime Qc (exact sq) fixations aois ->
    (forall f, f ∈ fixations -> (0 <= Fixation.duration f)%Qc) ->
    (0 <= DwellTimeStats.totalDwellTime d)%Qc
    /\ (DwellTimeStats.totalDwellTime d <= @sum_durations Qc (exact sq) fixations)%Qc
    /\ (0 <= DwellTimeStats.percentOfTotal d)%Qc
    /\ (DwellTimeStats.percentOfTotal d <= Qc_of_Z 100)%Qc.
Proof.
  intros sq fixations aois d Hd Hpos.
  destruct (@dwell_record_of_filter Qc (exact sq) fixations aois d Hd)
    as (test & Htotal & _ & _ & Hpercent).
  cbv zeta in Htotal, Hpercent.
  destruct (sum_durations_filter_bounds sq test fixations Hpos) as [H0 Hle].
  rewrite Htotal, Hpercent. split; [exact H0|]. split; [exact Hle|].
  destruct (jlt _ _) eqn:Elt.
  - apply (exact_lt sq) in Elt. rewrite (exact_zero sq) in Elt.
    change (@jnat Qc (exact sq) 100) with (Qc_of_Z 100). cbn [jmul jdiv exact].
    now apply share_bounds.
  - rewrite (exact_zero sq). split; [apply Qcle_refl|].
    rewrite <- Z2Qc_inj_0. now apply Z2Qc_inj_le.
Qed.

(** The record of an AOI holding one of two fixations. *)
Lemma dwell_record_is_consistent_witness :
  let half := Q2Qc (1 # 2) in
  let f1 := Fixation.mk 1 0%Qc (Q2Qc (1 # 8)) (Q2Qc 125) half half 2 [] in
  let f2 := Fixation.mk 2 (Q2Qc (1 # 4)) half (Q2Qc 250) 0%Qc 0%Qc 2 [] in
  let A := AOI.mk "a" "A" "red" (Bounds.mk (Q2Qc (1 # 4)) (Q2Qc (1 # 4)) half half) in
  let d := DwellTimeStats.mk "a" "A" (Q2Qc 125) 1 (Q2Qc 125) (Q2Qc (100 # 3)) in
  (0 <= DwellTimeStats.totalDwellTime d)%Qc
  /\ (DwellTimeStats.totalDwellTime d
      <= @sum_durations Qc (exact (fun q => q)) [f1; f2])%Qc
  /\ (0 <= DwellTimeStats.percentOfTotal d)%Qc
  /\ (DwellTimeStats.percentOfTotal d <= Qc_of_Z 100)%Qc.
Proof.
  intros half f1 f2 A d.
  apply (dwell_record_is_consistent (fun q => q) [f1; f2] [A] d).
  - apply list_elem_of_here.
  - intros f Hf. apply elem_of_cons in Hf as [->|Hf]; [discriminate|].
    apply list_elem_of_singleton in Hf as ->. discriminate.
Defined.

(** X8: the [aoiSequence] of [calculateScanpathMetrics] is the list of the
    labels of the fixations, in the order of their start times, with every
    run of equal neighbours reduced to one entry: no two neighbours of the
    sequence are equal, and its length is one more than the number of
    places where the label changes (zero for no fixation). *)
Theorem aoi_sequence_is_the_collapsed_label_list :
  forall (num : Type) (N : JSNumber num) (fixations : list (Fixation.t num))
         (aois : list (AOI.t num)),
    let labels := (fun f => scanpath_label f aois) <$> sort_by_start fixations in
    let aoiSequence := ScanpathMetrics.aoiSequence (calculateScanpathMetrics fixations aois) in
    aoiSequence = collapse labels
    /\ (forall i a b, aoiSequence !! i = Some a -> aoiSequence !! S i = Some b -> a <> b)
    /\ length aoiSequence
       = match fixations with [] => 0%nat | _ :: _ => S (changes labels) end.
Proof.
  intros num N fixations aois labels aoiSequence.
  assert (E : aoiSequence = collapse_after None labels).
  { subst aoiSequence labels. unfold calculateScanpathMetrics.
    destruct fixations as [|f fixations]; [reflexivity|].
    cbn [length Nat.eqb]. unfold scanpath_of_sorted.
    destruct (match sort_by_start (f :: fixations) with
              | [] => _ | first :: rest => _ end) as [totalLength saccadeAmplitudes].
    cbn [ScanpathMetrics.aoiSequence]. now rewrite sequence_loop_collapse. }
  split; [now rewrite E, collapse_after_None|].
  split; [rewrite E; apply collapse_after_neighbours|].
  rewrite E, collapse_after_None. subst labels.
  destruct fixations as [|f fixations]; [reflexivity|].
  destruct (sort_by_start (f :: fixations)) as [|g sorted] eqn:Es.
  - apply (f_equal length) in Es. unfold sort_by_start in Es.
    rewrite sort_length in Es. discriminate.
  - cbn [fmap list_fmap]. apply collapse_length.
Qed.

(** X9: the path length of [calculateScanpathMetrics] is the sum, from the
    left and starting at 0, of the distances between neighbours of the
    fixations in the order of their start times; [fixationCount] is the
    number of fixations; [meanSaccadeAmplitude] is that same path length
    divided by [fixationCount - 1], and 0 for fewer than two fixations. *)
Theorem path_length_adds_neighbour_distances :
  forall (num : Type) (N : JSNumber num) (fixations : list (Fixation.t num))
         (aois : list (AOI.t num)),
    let metrics := calculateScanpathMetrics fixations aois in
    ScanpathMetrics.totalLength metrics
    = fold_left (fun sum a => (sum + a)%js) (saccades (sort_by_start fixations)) (jnat 0)
    /\ ScanpathMetrics.fixationCount metrics = length fixations
    /\ ScanpathMetrics.meanSaccadeAmplitude metrics
       = (if (1 <? length fixations)%nat
          then (ScanpathMetrics.totalLength metrics / jnat (length fixations - 1))%js
          else jnat 0).
Proof.
  intros num N fixations aois metrics. subst metrics. unfold calculateScanpathMetrics.
  destruct fixations as [|f fixations]; [now repeat split|].
  cbn [length Nat.eqb]. unfold scanpath_of_sorted.
  assert (Hlen : length (sort_by_start (f :: fixations)) = S (length fixations))
    by (unfold sort_by_start; now rewrite sort_length).
  destruct (sort_by_start (f :: fixations)) as [|g sorted] eqn:Es; [discriminate|].
  rewrite saccade_loop_saccades. cbn [app].
  cbn [ScanpathMetrics.totalLength ScanpathMetrics.fixationCount
       ScanpathMetrics.meanSaccadeAmplitude].
  split; [reflexivity|]. split; [exact Hlen|].
  rewrite saccades_length, Hlen.
  replace (S (length fixations) - 1)%nat with (length fixations) by lia.
  destruct (length fixations); reflexivity.
Qed.

(** X10: the dwell record and the first-fixation record of an AOI agree:
    both carry the id of the AOI at the same position; the AOI is entered
    at most as often as it holds fixations; and it has no entry, and no
    first fixation, exactly when it holds no fixation. *)
Theorem first_fixation_agrees_with_dwell :
  forall (num : Type) (N : JSNumber num) (fixations : list (Fixation.t num))
         (aois : list (AOI.t num)) (videoStartTime : num) (i : nat) (aoi : AOI.t num),
    aois !! i = Some aoi ->
    exists d m,
      calculateDwellTime fixations aois !! i = Some d
      /\ calculateFirstFixation fixations aois videoStartTime !! i = Some m
      /\ DwellTimeStats.aoiId d = AOI.id aoi
      /\ FirstFixationMetrics.aoiId m = AOI.id aoi
      /\ (FirstFixationMetrics.entryCount m <= DwellTimeStats.fixationCount d)%nat
      /\ (FirstFixationMetrics.entryCount m = 0%nat <-> DwellTimeStats.fixationCount d = 0%nat)
      /\ (FirstFixationMetrics.timeToFirstFixation m = None
          <-> DwellTimeStats.fixationCount d = 0%nat)
      /\ (FirstFixationMetrics.firstFixationDuration m = None
          <-> DwellTimeStats.fixationCount d = 0%nat).
Proof.
  intros num N fixations aois videoStartTime i aoi Hi.
  destruct (dwell_lookup fixations aois i aoi Hi) as (d & Hd & Hid & Hcount).
  exists d. eexists. split; [exact Hd|].
  unfold calculateFirstFixation.
  split; [apply (first_fixation_lookup _ _ _ _ _ Hi)|].
  cbv zeta. cbn [FirstFixationMetrics.aoiId FirstFixationMetrics.entryCount
                 FirstFixationMetrics.timeToFirstFixation
                 FirstFixationMetrics.firstFixationDuration].
  split; [exact Hid|]. split; [reflexivity|].
  assert (Hlen : length (List.filter (inside aoi) (sort_by_start fixations))
                 = DwellTimeStats.fixationCount d).
  { rewrite Hcount. apply filter_length_perm. unfold sort_by_start. apply sort_perm. }
  pose proof (entry_loop_upper aoi (sort_by_start fixations) 0 false) as Hupper.
  pose proof (entry_loop_enters aoi (sort_by_start fixations) 0) as Henters.
  rewrite Hlen in Hupper. rewrite <- Hlen.
  destruct (List.filter (inside aoi) (sort_by_start fixations)) as [|f0 inAOI] eqn:Ef.
  - cbn [length] in *. cbn [head mbind option_bind]. repeat split; intros; lia || reflexivity.
  - specialize (Henters ltac:(discriminate)). cbn [length] in *.
    cbn [head mbind option_bind]. repeat split; intros; lia || discriminate.
Qed.

(** An AOI that holds the second of two fixations. *)
Lemma first_fixation_agrees_with_dwell_witness :
  let half := Q2Qc (1 # 2) in
  let f1 := Fixation.mk 1 0%Qc (Q2Qc (1 # 8)) (Q2Qc 125) 0%Qc 0%Qc 2 [] in
  let f2 := Fixation.mk 2 (Q2Qc (1 # 4)) half (Q2Qc 250) half half 2 [] in
  let A := AOI.mk "a" "A" "red" (Bounds.mk (Q2Qc (1 # 4)) (Q2Qc (1 # 4)) half half) in
  exists d m,
    @calculateDwellTime Qc (exact (fun q => q)) [f1; f2] [A] !! 0%nat = Some d
    /\ @calculateFirstFixation Qc (exact (fun q => q)) [f1; f2] [A] 0%Qc !! 0%nat = Some m
    /\ DwellTimeStats.aoiId d = "a"
    /\ FirstFixationMetrics.aoiId m = "a"
    /\ (FirstFixationMetrics.entryCount m <= DwellTimeStats.fixationCount d)%nat
    /\ (FirstFixationMetrics.entryCount m = 0%nat <-> DwellTimeStats.fixationCount d = 0%nat)
    /\ (FirstFixationMetrics.timeToFirstFixation m = None
        <-> DwellTimeStats.fixationCount d = 0%nat)
    /\ (FirstFixationMetrics.firstFixationDuration m = None
        <-> DwellTimeStats.fixationCount d = 0%nat).
Proof.
  intros half f1 f2 A.
  apply (first_fixation_agrees_with_dwell Qc (exact (fun q => q)) [f1; f2] [A] 0%Qc 0 A).
  reflexivity.
Defined.

(** X11: on exact numbers the first-fixation record of an AOI is taken
    from one fixation inside the AOI that starts no later than every
    fixation inside the AOI, whatever the order of the input array; when
    no fixation is inside the AOI, every metric is null and the entry
    count is 0. *)
Theorem first_fixation_is_the_earliest_inside :
  forall (sq : Qc -> Qc) (fixations : list (Fixation.t Qc)) (aois : list (AOI.t Qc))
         (videoStartTime : Qc) (i : nat) (aoi : AOI.t Qc),
    aois !! i = Some aoi ->
    exists m,
      @calculateFirstFixation Qc (exact sq) fixations aois videoStartTime !! i = Some m
      /\ (((forall f, f ∈ fixations -> @inside Qc (exact sq) aoi f = false)
           /\ FirstFixationMetrics.timeToFirstFixation m = None
           /\ FirstFixationMetrics.firstFixationDuration m = None
           /\ FirstFixationMetrics.firstFixationX m = None
           /\ FirstFixationMetrics.firstFixationY m = None
           /\ FirstFixationMetrics.entryCount m = 0%nat)
          \/ (exists f0,
                f0 ∈ fixations /\ @inside Qc (exact sq) aoi f0 = true
                /\ FirstFixationMetrics.timeToFirstFixation m
                   = Some ((Fixation.startTime f0 - videoStartTime) * Qc_of_Z 1000)%Qc
                /\ FirstFixationMetrics.firstFixationDuration m = Some (Fixation.duration f0)
                /\ FirstFixationMetrics.firstFixationX m = Some (Fixation.x f0)
                /\ FirstFixationMetrics.firstFixationY m = Some (Fixation.y f0)
                /\ forall f, f ∈ fixations -> @inside Qc (exact sq) aoi f = true ->
                     (Fixation.startTime f0 <= Fixation.startTime f)%Qc)).
Proof.
  intros sq fixations aois videoStartTime i aoi Hi.
  eexists. unfold calculateFirstFixation.
  split; [apply (@first_fixation_lookup Qc (exact sq) _ _ _ _ _ Hi)|].
  cbv zeta. cbn [FirstFixationMetrics.entryCount FirstFixationMetrics.timeToFirstFixation
                 FirstFixationMetrics.firstFixationDuration
                 FirstFixationMetrics.firstFixationX FirstFixationMetrics.firstFixationY].
  assert (Hperm : @sort_by_start Qc (exact sq) fixations ≡ₚ fixations)
    by (unfold sort_by_start; apply sort_perm).
  destruct (head (List.filter (@inside Qc (exact sq) aoi)
                    (@sort_by_start Qc (exact sq) fixations))) as [f0|] eqn:Ehead.
  - right. exists f0.
    destruct (earliest_of_sorted (@inside Qc (exact sq) aoi) _ f0
                (sort_sorted sq Fixation.startTime fixations) Ehead)
      as (Hin & Hinside & Hmin).
    split; [now rewrite <- Hperm|]. split; [exact Hinside|].
    cbn [mbind option_bind]. repeat split.
    intros f Hf Hf'. apply Hmin; [now rewrite Hperm | exact Hf'].
  - left.
    assert (Hnone : forall f, f ∈ fixations -> @inside Qc (exact sq) aoi f = false).
    { intros f Hf. destruct (@inside Qc (exact sq) aoi f) eqn:Ein; [|reflexivity].
      assert (Hf' : f ∈ List.filter (@inside Qc (exact sq) aoi)
                        (@sort_by_start Qc (exact sq) fixations))
        by (apply filter_elem_of; split; [now rewrite Hperm | exact Ein]).
      destruct (List.filter _ _); [inversion Hf' | discriminate]. }
    split; [exact Hnone|]. cbn [mbind option_bind]. repeat split.
    pose proof (@entry_loop_upper Qc (exact sq) aoi
                  (@sort_by_start Qc (exact sq) fixations) 0 false) as Hupper.
    destruct (List.filter _ _); [cbn [length] in Hupper; lia | discriminate].
Qed.

(** The fixation that starts first is the second of the array. *)
Lemma first_fixation_is_the_earliest_inside_witness :
  let half := Q2Qc (1 # 2) in
  let f1 := Fixation.mk 1 (Q2Qc (1 # 4)) half (Q2Qc 250) half half 2 [] in
  let f2 := Fixation.mk 2 0%Qc (Q2Qc (1 # 8)) (Q2Qc 125) half half 2 [] in
  let A := AOI.mk "a" "A" "red" (Bounds.mk (Q2Qc (1 # 4)) (Q2Qc (1 # 4)) half half) in
  exists m,
    @calculateFirstFixation Qc (exact (fun q => q)) [f1; f2] [A] 0%Qc !! 0%nat = Some m
    /\ FirstFixationMetrics.firstFixationDuration m = Some (Q2Qc 125).
Proof.
  intros half f1 f2 A.
  destruct (first_fixation_is_the_earliest_inside (fun q => q) [f1; f2] [A] 0%Qc 0 A
              eq_refl) as (m & Hm & Hcases).
  exists m. split; [exact Hm|].
  injection Hm as <-. reflexivity.
Defined.

(** X13: an analysis of fewer than two samples, on binary64 numbers,
    returns without an error and reports nothing: no fixation, the scan
    path of no fixation, a dwell record of zeros for every AOI and for the
    outside (the percentage is 0, not the NaN of 0 / 0), and a
    first-fixation record of nulls and no entry for every AOI. *)
Theorem analysis_of_fewer_than_two_samples :
  forall (gazePoints : list (GazePoint.t float)) (aois : list (AOI.t float))
         (options : Options.t float),
    (length gazePoints < 2)%nat ->
    exists result,
      analyzeGazeData gazePoints aois options = Normal result
      /\ AnalysisResult.fixations result = []
      /\ AnalysisResult.scanpathMetrics result = empty_scanpath
      /\ length (AnalysisResult.dwellTimeStats result) = S (length aois)
      /\ (forall d, d ∈ AnalysisResult.dwellTimeStats result ->
            DwellTimeStats.totalDwellTime d = 0%float
            /\ DwellTimeStats.fixationCount d = 0%nat
            /\ DwellTimeStats.meanFixationDuration d = 0%float
            /\ DwellTimeStats.percentOfTotal d = 0%float)
      /\ length (AnalysisResult.firstFixationMetrics result) = length aois
      /\ (forall m, m ∈ AnalysisResult.firstFixationMetrics result ->
            FirstFixationMetrics.timeToFirstFixation m = None
            /\ FirstFixationMetrics.firstFixationDuration m = None
            /\ FirstFixationMetrics.firstFixationX m = None
            /\ FirstFixationMetrics.firstFixationY m = None
            /\ FirstFixationMetrics.entryCount m = 0%nat).
Proof.
  intros gazePoints aois options Hlen.
  unfold analyzeGazeData. cbv zeta. unfold detectFixationsIDT.
  apply Nat.ltb_lt in Hlen. rewrite Hlen, bind_Normal.
  eexists. split; [reflexivity|].
  cbn [AnalysisResult.fixations AnalysisResult.scanpathMetrics
       AnalysisResult.dwellTimeStats AnalysisResult.firstFixationMetrics].
  split; [reflexivity|]. split; [reflexivity|].
  split; [unfold calculateDwellTime; rewrite length_app, length_map; cbn [length]; lia|].
  split.
  - intros d Hd.
    destruct (dwell_record_of_filter [] aois d Hd) as (test & Htotal & Hcount & Hmean & Hpct).
    cbn [List.filter length Nat.ltb Nat.leb] in Htotal, Hcount, Hmean, Hpct.
    rewrite Htotal, Hcount, Hmean, Hpct. repeat split.
  - split; [unfold calculateFirstFixation, first_fixation_of_sorted; apply length_map|].
    intros m Hm. unfold calculateFirstFixation, first_fixation_of_sorted in Hm.
    change (map ?f aois) with (f <$> aois) in Hm.
    apply list_elem_of_fmap in Hm as (aoi & -> & _). repeat split.
Qed.

(** One sample and one AOI. *)
Lemma analysis_of_fewer_than_two_samples_witness :
  exists result,
    analyzeGazeData [GazePoint.mk 0%float 0%float 0.5%float 0.5%float 0%float 0%float]
      [AOI.mk "a" "A" "red" (Bounds.mk 0%float 0%float 1%float 1%float)]
      (Options.mk None None None)
    = Normal result
    /\ AnalysisResult.fixations result = [].
Proof.
  destruct (analysis_of_fewer_than_two_samples
              [GazePoint.mk 0%float 0%float 0.5%float 0.5%float 0%float 0%float]
              [AOI.mk "a" "A" "red" (Bounds.mk 0%float 0%float 1%float 1%float)]
              (Options.mk None None None))
    as (result & Hresult & Hnone & _).
  - cbn [length]. lia.
  - exists result. split; [exact Hresult | exact Hnone].
Defined.

(** X15: [getScanpathDrawingData] gives one circle per fixation, in the
    order of the start times, with the id and the centre of its fixation,
    and one line less than circles; line [i] runs from the centre of
    circle [i] to the centre of circle [i + 1]. *)
Theorem drawing_lines_join_neighbouring_circles :
  forall (num : Type) (N : JSNumber num) (M : JSMath num) (fixations : list (Fixation.t num)),
    let circles := fst (getScanpathDrawingData fixations) in
    let lines := snd (getScanpathDrawingData fixations) in
    (fun c => (Circle.id c, Circle.x c, Circle.y c)) <$> circles
    = (fun f => (Fixation.id f, Fixation.x f, Fixation.y f)) <$> sort_by_start fixations
    /\ length circles = length fixations
    /\ length lines = (length fixations - 1)%nat
    /\ forall i l, lines !! i = Some l ->
         exists c c',
           circles !! i = Some c /\ circles !! S i = Some c'
           /\ (Line.x1 l, Line.y1 l) = (Circle.x c, Circle.y c)
           /\ (Line.x2 l, Line.y2 l) = (Circle.x c', Circle.y c').
Proof.
  intros num N M fixations circles lines.
  subst circles lines. rewrite drawing_lines.
  unfold getScanpathDrawingData. cbv zeta. cbn [fst].
  change (map ?f ?l) with (f <$> l).
  split; [rewrite <- list_fmap_compose; now apply list_fmap_ext|].
  split; [rewrite length_fmap; unfold sort_by_start; apply sort_length|].
  split.
  { rewrite length_fmap, adjacent_pairs_length. unfold sort_by_start. now rewrite sort_length. }
  intros i l Hl. rewrite list_lookup_fmap in Hl.
  destruct (adjacent_pairs (sort_by_start fixations) !! i) as [[f g]|] eqn:Epair;
    [|discriminate].
  injection Hl as <-. apply adjacent_pairs_lookup in Epair as [Ef Eg].
  eexists _, _. rewrite !list_lookup_fmap, Ef, Eg. cbn [fmap option_fmap option_map].
  split; [reflexivity|]. split; [reflexivity|]. split; reflexivity.
Qed.

(** X19: whatever is done in the video mode, in whatever order, every AOI
    it holds is larger than 0.01 in both directions, no two AOIs have the
    same id, and every id is ["aoi-"] followed by a number that the counter
    has passed. *)
Theorem video_mode_aois_are_well_formed :
  forall (num : Type) (N : JSNumber num) (M : JSMath num) (trim : string -> string)
         (actions : list (@action num)),
    let this := perform_all trim new_VideoMode actions in
    (forall aoi, aoi ∈ VideoMode.aois this -> drawn_size aoi = true)
    /\ NoDup (AOI.id <$> VideoMode.aois this)
    /\ (forall aoi, aoi ∈ VideoMode.aois this ->
          exists n, (1 <= n < VideoMode.nextAoiId this)%nat /\ AOI.id aoi = aoi_id n).
Proof.
  intros num N M trim actions this. subst this.
  apply (perform_all_keeps_aois_well_formed trim actions new_VideoMode).
  - cbn [new_VideoMode VideoMode.nextAoiId]. lia.
  - unfold aois_well_formed. cbn [new_VideoMode VideoMode.aois].
    split; [intros aoi Ha; inversion Ha|].
    split; [constructor | intros aoi Ha; inversion Ha].
Qed.

(** X16: on exact numbers every circle of [getScanpathDrawingData] has a
    radius from 5 to 30; a fixation that is not shorter than another one
    gets a circle that is not smaller; and some circle has radius 5. *)
Theorem circle_radius_is_between_5_and_30 :
  forall (sq : Qc -> Qc) (top bottom : Qc) (fixations : list (Fixation.t Qc)),
    let sorted := @sort_by_start Qc (exact sq) fixations in
    let circles :=
      fst (@getScanpathDrawingData Qc (exact sq) (exact_math top bottom) fixations) in
    (forall c, c ∈ circles ->
       (Qc_of_Z 5 <= Circle.radius c)%Qc /\ (Circle.radius c <= Qc_of_Z 30)%Qc)
    /\ (forall i j f g c c',
          sorted !! i = Some f -> sorted !! j = Some g ->
          circles !! i = Some c -> circles !! j = Some c' ->
          (Fixation.duration f <= Fixation.duration g)%Qc ->
          (Circle.radius c <= Circle.radius c')%Qc)
    /\ match fixations with
       | [] => circles = []
       | _ :: _ => exists c, c ∈ circles /\ Circle.radius c = Qc_of_Z 5
       end.
Proof.
  intros sq top bottom fixations sorted circles.
  destruct (drawing_circles sq top bottom fixations)
    as (minDuration & durationRange & Hcircles & Hrange).
  fold circles in Hcircles. fold sorted in Hcircles.
  assert (Hperm : sorted ≡ₚ fixations) by (unfold sorted, sort_by_start; apply sort_perm).
  assert (Hsome : forall f, f ∈ sorted -> fixations <> []).
  { intros f Hf E. rewrite Hperm, E in Hf. inversion Hf. }
  split; [|split].
  - intros c Hc. rewrite Hcircles in Hc. apply list_elem_of_fmap in Hc as (f & -> & Hf).
    destruct (Hrange (Hsome f Hf)) as (Hpos & _ & Hbounds).
    destruct (Hbounds f) as [Hlo Hhi]; [now rewrite <- Hperm|].
    cbn [Circle.radius]. apply radius_in_range; now apply ratio_bounds.
  - intros i j f g c c' Hf Hg Hc Hc' Hle.
    rewrite Hcircles, list_lookup_fmap in Hc, Hc'. rewrite Hf in Hc. rewrite Hg in Hc'.
    injection Hc as <-. injection Hc' as <-. cbn [Circle.radius].
    destruct (Hrange (Hsome f (list_elem_of_lookup_2 _ _ _ Hf))) as (Hpos & _ & _).
    apply radius_mono, ratio_mono; [exact Hpos|].
    clear - Hle. qc_to_q; lra.
  - destruct fixations as [|f0 others].
    + rewrite Hcircles. subst sorted. reflexivity.
    + destruct (Hrange ltac:(discriminate)) as (Hpos & (f & Hf & Hmin) & _).
      exists (Circle.mk (Fixation.x f) (Fixation.y f)
                (Qc_of_Z 5 + (Fixation.duration f - minDuration) / durationRange
                             * Qc_of_Z 25)%Qc (Fixation.id f)).
      split.
      * rewrite Hcircles. apply list_elem_of_fmap. exists f. split; [reflexivity|].
        now rewrite Hperm.
      * cbn [Circle.radius]. rewrite Hmin.
        replace (minDuration - minDuration)%Qc with 0%Qc by ring.
        unfold Qcdiv. rewrite Qcmult_0_l, Qcmult_0_l. ring.
Qed.

(** X17: on exact numbers a call of [updateGazePosition] either leaves
    every field as it is, or the mode is recording and not paused and the
    call appends one sample: its timestamp is the current time of the
    video, its [screenX] and [screenY] are the arguments, and its [x] and
    [y] are at least 0 and below 1. *)
Theorem recorded_sample_is_normalised :
  forall (sq : Qc -> Qc) (top bottom : Qc) (this : VideoMode.t Qc) (rect : DOMRect.t Qc)
         (currentTime screenX screenY : Qc),
    let this' := @updateGazePosition Qc (exact sq) (exact_math top bottom)
                   this rect currentTime screenX screenY in
    this' = this
    \/ (VideoMode.isRecording this = true /\ VideoMode.isPaused this = false
        /\ exists p,
             this' = set_gazePoints this (VideoMode.gazePoints this ++ [p])
             /\ GazePoint.timestamp p = currentTime
             /\ GazePoint.screenX p = screenX /\ GazePoint.screenY p = screenY
             /\ ((0 <= GazePoint.x p)%Qc /\ (GazePoint.x p < 1)%Qc)
             /\ ((0 <= GazePoint.y p)%Qc /\ (GazePoint.y p < 1)%Qc)).
Proof.
  intros sq top bottom this rect currentTime screenX screenY this'.
  subst this'. unfold updateGazePosition. cbv zeta.
  set (content := @getVideoContentRect Qc (exact sq) (exact_math top bottom) this rect).
  destruct (_ && _ && _ && _) eqn:Einside; [|now left].
  destruct (VideoMode.isRecording this) eqn:Erecording; [|now left].
  destruct (VideoMode.isPaused this) eqn:Epaused; [now left|].
  cbn [andb negb]. right. split; [reflexivity|]. split; [reflexivity|].
  eexists. split; [reflexivity|].
  cbn [GazePoint.timestamp GazePoint.screenX GazePoint.screenY GazePoint.x GazePoint.y].
  split; [reflexivity|]. split; [reflexivity|]. split; [reflexivity|].
  destruct (inside_content_normalised sq content screenX screenY Einside)
    as (Hx & Hy & _).
  split; [exact Hx | exact Hy].
Qed.

(** X21: on exact numbers, whatever is done in the video mode, every
    sample it holds has [x] and [y] at least 0 and below 1; so every
    fixation that [detectFixationsIDT] finds in these samples has its
    centre in the unit square, the square of the AOI coordinates. *)
Theorem recorded_samples_stay_in_the_unit_square :
  forall (sq : Qc -> Qc) (top bottom : Qc) (trim : string -> string)
         (actions : list (@action Qc)),
    let this := @perform_all Qc (exact sq) (exact_math top bottom) trim
                  (@new_VideoMode Qc (exact sq)) actions in
    (forall p, p ∈ VideoMode.gazePoints this ->
       ((0 <= GazePoint.x p)%Qc /\ (GazePoint.x p < 1)%Qc)
       /\ (0 <= GazePoint.y p)%Qc /\ (GazePoint.y p < 1)%Qc)
    /\ forall dispersionThreshold minDuration : Qc,
         exists fs,
           @detectFixationsIDT Qc (exact sq) (VideoMode.gazePoints this)
             dispersionThreshold minDuration = Normal fs
           /\ forall f, f ∈ fs ->
                ((0 <= Fixation.x f)%Qc /\ (Fixation.x f <= 1)%Qc)
                /\ (0 <= Fixation.y f)%Qc /\ (Fixation.y f <= 1)%Qc.
Proof.
  intros sq top bottom trim actions this.
  assert (Hsamples : forall p, p ∈ VideoMode.gazePoints this ->
            ((0 <= GazePoint.x p)%Qc /\ (GazePoint.x p < 1)%Qc)
            /\ (0 <= GazePoint.y p)%Qc /\ (GazePoint.y p < 1)%Qc).
  { subst this. apply perform_all_gazePoints. intros p Hp. inversion Hp. }
  split; [exact Hsamples|].
  intros thr md.
  destruct (@detectFixationsIDT_returns Qc (exact sq) (VideoMode.gazePoints this) thr md)
    as (fs & E & Hw & _).
  exists fs. split; [exact E|]. intros f Hf.
  destruct (windows_below_window _ _ _ _ _ f Hw Hf) as (a & b & Hwin & _).
  destruct (window_fixation_describes_points _ _ _ f a b Hwin) as (Hne & _ & Hrun & _).
  assert (Hcentre : (Fixation.x f, Fixation.y f)
                    = @calculateCentroid Qc (exact sq) (Fixation.points f)) by apply Hwin.
  pose proof (centroid_in_box sq (Fixation.points f) 0%Qc 1%Qc 0%Qc 1%Qc Hne) as Hbox.
  rewrite <- Hcentre in Hbox. apply Hbox.
  intros p Hp.
  assert (Hin : p ∈ VideoMode.gazePoints this).
  { assert (Hsorted : p ∈ @sort_by_timestamp Qc (exact sq) (VideoMode.gazePoints this)).
    { rewrite Hrun. apply elem_of_app. right. apply elem_of_app. now left. }
    unfold sort_by_timestamp in Hsorted. now rewrite sort_perm in Hsorted. }
  destruct (Hsamples p Hin) as [[Hx0 Hx1] [Hy0 Hy1]].
  repeat split; try assumption; now apply Qclt_le_weak.
Qed.

(** X22: an id is never given twice in the video mode: when an AOI that
    exists at one time and an AOI that exists at a later time have the same
    id, they are the same AOI, with the same name, colour and bounds,
    whatever was drawn and deleted in between. *)
Theorem aoi_id_is_never_reused :
  forall (num : Type) (N : JSNumber num) (M : JSMath num) (trim : string -> string)
         (earlier later : list (@action num)) (aoi aoi' : AOI.t num),
    aoi ∈ VideoMode.aois (perform_all trim new_VideoMode earlier) ->
    aoi' ∈ VideoMode.aois (perform_all trim new_VideoMode (earlier ++ later)) ->
    AOI.id aoi = AOI.id aoi' ->
    aoi = aoi'.
Proof.
  intros num N M trim earlier later aoi aoi' Ha Ha' Eid.
  unfold perform_all in Ha'. rewrite fold_left_app in Ha'.
  fold (perform_all trim new_VideoMode earlier) in Ha'.
  set (this := perform_all trim new_VideoMode earlier) in *.
  fold (perform_all trim this later) in Ha'.
  assert (Hwf : aois_well_formed this).
  { apply (perform_all_keeps_aois_well_formed trim earlier new_VideoMode).
    - cbn [new_VideoMode VideoMode.nextAoiId]. lia.
    - unfold aois_well_formed. cbn [new_VideoMode VideoMode.aois].
      split; [intros a Hin; inversion Hin|].
      split; [constructor | intros a Hin; inversion Hin]. }
  destruct Hwf as (_ & Hnodup & Hids).
  assert (Hext : extends this (perform_all trim this later)).
  { apply perform_all_extends. split; [lia|]. intros a Hin. now left. }
  destruct Hext as [_ Hlater].
  destruct (Hlater aoi' Ha') as [Hold|(n & Hn & En)].
  - now apply (NoDup_fmap_elem_inj AOI.id (VideoMode.aois this)).
  - destruct (Hids aoi Ha) as (m & Hm & Em).
    rewrite Em, En in Eid. apply aoi_id_inj in Eid. lia.
Qed.

(** Two AOIs are drawn, the first is deleted, and a third is drawn: the
    AOI with id ["aoi-2"] is there before and after. *)
Lemma aoi_id_is_never_reused_witness :
  let rect := DOMRect.mk 0%Qc 0%Qc 1%Qc 1%Qc in
  let drag :=
    [StartAOIDrawing "A"; AOIMouseDown (MouseEvent.mk 0%Qc 0%Qc) rect;
     AOIMouseUp (MouseEvent.mk (Q2Qc (1 # 2)) (Q2Qc (1 # 2))) rect "A" "red"] in
  let second :=
    AOI.mk "aoi-2" "A" "red" (Bounds.mk 0%Qc 0%Qc (Q2Qc (1 # 2)) (Q2Qc (1 # 2))) in
  let before :=
    @perform_all Qc (exact (fun q => q)) (exact_math 0%Qc 0%Qc) (fun s => s)
      (@new_VideoMode Qc (exact (fun q => q))) (drag ++ drag) in
  let after :=
    @perform_all Qc (exact (fun q => q)) (exact_math 0%Qc 0%Qc) (fun s => s)
      (@new_VideoMode Qc (exact (fun q => q)))
      ((drag ++ drag) ++ DeleteAOI "aoi-1" :: drag) in
  second ∈ VideoMode.aois before
  /\ VideoMode.aois after !! 0%nat = Some second
  /\ second = second.
Proof.
  intros rect drag second before after.
  assert (Hbefore : second ∈ VideoMode.aois before)
    by (vm_compute; apply list_elem_of_further, list_elem_of_here).
  assert (Hafter : VideoMode.aois after !! 0%nat = Some second) by (vm_compute; reflexivity).
  split; [exact Hbefore|]. split; [exact Hafter|].
  apply (aoi_id_is_never_reused Qc (exact (fun q => q)) (exact_math 0%Qc 0%Qc) (fun s => s)
           (drag ++ drag) (DeleteAOI "aoi-1" :: drag) second second).
  - exact Hbefore.
  - apply (list_elem_of_lookup_2 _ 0%nat). exact Hafter.
  - reflexivity.
Defined.

(** X23: [smoothGaze] keeps the last five raw samples at most, and returns
    their mean: after it has been called on a list of raw samples, a call
    on one more sample leaves in [gazeHistory] the last five samples of the
    extended list, all of them if there are fewer, in the order they came,
    and returns the sums of their [x] and of their [y], added up from the
    left starting at 0, divided by their number. *)
Theorem smoothed_gaze_is_the_mean_of_the_last_five :
  forall (num : Type) (N : JSNumber num) (raws : list (num * num)) (rawX rawY : num),
    let samples := raws ++ [(rawX, rawY)] in
    let window := drop (length samples - 5) samples in
    smoothGaze (history_after raws) rawX rawY
    = (((fold_left (fun sum p => sum + fst p) window (jnat 0) / jnat (length window))%js,
        (fold_left (fun sum p => sum + snd p) window (jnat 0) / jnat (length window))%js),
       window)
    /\ length window = Nat.min 5 (length samples)
    /\ history_after samples = window.
Proof.
  intros num N raws rawX rawY samples window.
  assert (Hhistory : snd (smoothGaze (history_after raws) rawX rawY) = window).
  { change (snd (smoothGaze (history_after raws) rawX rawY))
      with (snd (smoothGaze (history_after raws) (fst (rawX, rawY)) (snd (rawX, rawY)))).
    rewrite <- history_after_snoc. apply history_after_window. }
  split; [|split].
  - rewrite <- Hhistory. reflexivity.
  - subst window. rewrite length_drop. lia.
  - subst samples. rewrite history_after_snoc. exact Hhistory.
Qed.

(** X25: the first-fixation table of [analysisToCSV], for the result of
    [analyzeGazeData] on the same AOIs, is the header line followed by one
    row per AOI, in the order of the AOIs; the row of an AOI that holds no
    fixation is its id, its name, four times [N/A] and the entry count 0. *)
Theorem unvisited_aoi_is_exported_as_not_available :
  forall (num : Type) (N : JSNumber num) (toFixed : num -> nat -> string)
         (gazePoints : list (GazePoint.t num)) (aois : list (AOI.t num))
         (options : Options.t num),
    exists result rows,
      analyzeGazeData gazePoints aois options = Normal result
      /\ CSV.firstFixationCSV (analysisToCSV toFixed result aois)
         = join line_feed
             ("aoi_id,aoi_name,ttff_ms,first_duration_ms,first_x,first_y,entry_count" :: rows)
      /\ length rows = length aois
      /\ forall i aoi,
           aois !! i = Some aoi ->
           (forall f, f ∈ AnalysisResult.fixations result -> inside aoi f = false) ->
           rows !! i = Some (AOI.id aoi +:+ "," +:+ AOI.name aoi +:+ ",N/A,N/A,N/A,N/A,0").
Proof.
  intros num N toFixed gazePoints aois options.
  unfold analyzeGazeData. cbv zeta.
  destruct (detectFixationsIDT_returns gazePoints
              (default DEFAULT_DISPERSION_THRESHOLD (Options.dispersionThreshold options))
              (default DEFAULT_MIN_FIXATION_DURATION (Options.minFixationDuration options)))
    as (fs & E & _).
  rewrite E, bind_Normal.
  eexists. eexists. split; [reflexivity|].
  unfold analysisToCSV. cbv zeta.
  cbn [CSV.firstFixationCSV AnalysisResult.firstFixationMetrics AnalysisResult.fixations].
  split; [reflexivity|].
  split; [unfold calculateFirstFixation, first_fixation_of_sorted; now rewrite !length_map|].
  intros i aoi Hi Hnone.
  change (map ?f ?l) with (f <$> l). rewrite list_lookup_fmap.
  unfold calculateFirstFixation. apply first_fixation_row_unvisited; [exact Hi|].
  assert (Hempty : forall l : list (Fixation.t num),
            (forall f, f ∈ l -> inside aoi f = false) -> List.filter (inside aoi) l = []).
  { induction l as [|f l IH]; intros Hl; [reflexivity|]. cbn [List.filter].
    rewrite (Hl f (list_elem_of_here f l)). apply IH. intros g Hg.
    apply Hl. now apply list_elem_of_further. }
  apply Hempty. intros f Hf. apply Hnone.
  unfold sort_by_start in Hf. now rewrite sort_perm in Hf.
Qed.

(** X26: on exact numbers [calculateDispersion] is the largest distance
    between two points of the list: no two points are further apart, the
    value is 0 or the distance of two of the points, and more points never
    make it smaller. *)
Theorem dispersion_is_the_largest_distance :
  forall (sq : Qc -> Qc) (points : list (GazePoint.t Qc)),
    let dispersion := @calculateDispersion Qc (exact sq) points in
    (forall i j p q, (i < j)%nat -> points !! i = Some p -> points !! j = Some q ->
       (@distance Qc (exact sq) (GazePoint.x q) (GazePoint.y q) (GazePoint.x p) (GazePoint.y p)
        <= dispersion)%Qc)
    /\ (dispersion = 0%Qc
        \/ exists i j p q,
             (i < j)%nat /\ points !! i = Some p /\ points !! j = Some q
             /\ dispersion
                = @distance Qc (exact sq) (GazePoint.x q) (GazePoint.y q)
                            (GazePoint.x p) (GazePoint.y p))
    /\ (forall more,
          (dispersion <= @calculateDispersion Qc (exact sq) (points ++ more))%Qc).
Proof.
  intros sq points dispersion. subst dispersion.
  split; [intros i j p q; apply (calculateDispersion_upper_bound sq)|].
  split; [|intros more; apply (calculateDispersion_mono sq)].
  destruct (@calculateDispersion_attained Qc (exact sq) points) as [E|Hpair].
  - left. rewrite E. apply (exact_zero sq).
  - now right.
Qed.

(** X27: on exact numbers a fixation cannot be made longer: no run of
    samples that starts where the fixation starts and goes on beyond its
    last point has a dispersion within the threshold. *)
Theorem fixation_window_is_maximal :
  forall (sq : Qc -> Qc) (gazePoints : list (GazePoint.t Qc))
         (dispersionThreshold minDuration : Qc),
    exists fs,
      @detectFixationsIDT Qc (exact sq) gazePoints dispersionThreshold minDuration
      = Normal fs
      /\ forall f, f ∈ fs ->
           exists before after,
             @sort_by_timestamp Qc (exact sq) gazePoints
             = before ++ Fixation.points f ++ after
             /\ forall p more rest, after = p :: more ++ rest ->
                  (dispersionThreshold
                   < @calculateDispersion Qc (exact sq) (Fixation.points f ++ p :: more))%Qc.
Proof.
  intros sq gazePoints thr md.
  destruct (@detectFixationsIDT_returns Qc (exact sq) gazePoints thr md) as (fs & E & _).
  exists fs. split; [exact E|].
  unfold detectFixationsIDT in E.
  destruct (length gazePoints <? 2)%nat; [injection E as <-; intros f Hf; inversion Hf|].
  apply idt_loop_stops in E; [|constructor].
  intros f Hf. apply (proj1 (list.Forall_forall _ _) E) in Hf as (a & b & Hpoints & Hab & Hstop).
  exists (take a (@sort_by_timestamp Qc (exact sq) gazePoints)),
         (drop (b + 1) (@sort_by_timestamp Qc (exact sq) gazePoints)).
  split; [rewrite Hpoints; apply slice_decompose; lia|].
  intros p more rest Eafter.
  assert (Ep : @sort_by_timestamp Qc (exact sq) gazePoints !! (b + 1)%nat = Some p).
  { rewrite <- (Nat.add_0_r (b + 1)), <- lookup_drop, Eafter. reflexivity. }
  assert (Hviolation :
            @jle Qc (exact sq)
              (@calculateDispersion Qc (exact sq) (Fixation.points f ++ [p])) thr = false).
  { rewrite Hpoints, <- (slice_snoc _ a (b + 1) p) by (lia || exact Ep).
    replace (S (b + 1)) with (b + 2)%nat by lia. exact (Hstop p Ep). }
  apply (exact_le_false sq) in Hviolation.
  eapply Qclt_le_trans; [exact Hviolation|].
  replace (Fixation.points f ++ p :: more) with ((Fixation.points f ++ [p]) ++ more)
    by (now rewrite <- app_assoc).
  apply (calculateDispersion_mono sq).
Qed.

(** X28: the transition matrix of [calculateScanpathMetrics] stores
    nothing for what did not happen: it has no row without an entry, every
    count it stores is at least 1, and it has an entry for two labels
    exactly when a fixation with the first label is followed at once by a
    fixation with the second. *)
Theorem transition_matrix_stores_only_what_happened :
  forall (num : Type) (N : JSNumber num) (fixations : list (Fixation.t num))
         (aois : list (AOI.t num)),
    let matrix :=
      ScanpathMetrics.aoiTransitionMatrix (calculateScanpathMetrics fixations aois) in
    let labels := map (fun f => scanpath_label f aois) (sort_by_start fixations) in
    (forall prevName row, matrix !! prevName = Some row -> row <> ∅)
    /\ (forall prevName row currName n,
          matrix !! prevName = Some row -> row !! currName = Some n -> (1 <= n)%nat)
    /\ (forall prevName currName,
          (exists row n, matrix !! prevName = Some row /\ row !! currName = Some n)
          <-> (prevName, currName) ∈ adjacent_pairs labels).
Proof.
  intros num N fixations aois matrix labels.
  pose proof (transition_matrix_no_empty_entry fixations aois) as Hentries.
  fold matrix in Hentries.
  split; [intros a row Ha; exact (proj1 (Hentries a row Ha))|].
  split; [intros a row b n Ha Hb; exact (proj2 (Hentries a row Ha) b n Hb)|].
  intros a b.
  pose proof (transition_matrix_counts_pairs fixations aois a b) as Hcount.
  fold matrix in Hcount. fold labels in Hcount.
  assert (Hpairs : (0 < count_pairs a b labels)%nat <-> (a, b) ∈ adjacent_pairs labels).
  { unfold count_pairs. split.
    - intros Hpos.
      destruct (List.filter _ (adjacent_pairs labels)) as [|pc l] eqn:Ef;
        [cbn [length] in Hpos; lia|].
      assert (Hin : pc ∈ List.filter (fun pc => bool_decide (pc = (a, b)))
                           (adjacent_pairs labels))
        by (rewrite Ef; apply list_elem_of_here).
      apply filter_elem_of in Hin as [Hin Hpc]. apply bool_decide_eq_true in Hpc.
      now rewrite <- Hpc.
    - intros Hin.
      assert (Hin' : (a, b) ∈ List.filter (fun pc => bool_decide (pc = (a, b)))
                             (adjacent_pairs labels))
        by (apply filter_elem_of; split; [exact Hin | now apply bool_decide_eq_true]).
      destruct (List.filter _ (adjacent_pairs labels)); [inversion Hin' | cbn [length]; lia]. }
  rewrite <- Hpairs, <- Hcount. unfold transition_count. split.
  - intros (row & n & Ha & Hb). rewrite Ha. cbn [mbind option_bind]. rewrite Hb.
    cbn [default from_option id]. exact (proj2 (Hentries a row Ha) b n Hb).
  - intros Hpos. destruct (matrix !! a) as [row|] eqn:Ha; cbn [mbind option_bind] in Hpos.
    + destruct (row !! b) as [n|] eqn:Hb; cbn [default from_option id] in Hpos; [|lia].
      now exists row, n.
    + cbn [default from_option id] in Hpos. lia.
Qed.
